(** * garden: the seedling generate / build / retry orchestrator

    A shallow embedding of [gptThread], [gpt], [runSeedling] and
    [cleanFilePath] of the garden server (the variant with the quality
    check on the server step and the five-element step list), together
    with the properties of the orchestrator that the specification states.

    Go strings are byte sequences: they are modelled by [string], one
    [ascii] per byte.  Everything the goroutine asks of the outside (the
    completion API, the file system, subprocesses, the database) is answered
    by a [World]; every such interaction is appended to a trace of
    [Event]s, on which the properties are stated. *)

From Stdlib Require Import String Ascii List Arith Bool Lia ZArith.
Import ListNotations.
Local Open Scope list_scope.
Local Open Scope string_scope.

(* ------------------------------------------------------------------ *)
(** ** Bytes and the part of Go's [strings] package that is used      *)
(* ------------------------------------------------------------------ *)

Module GoStrings.

Definition byte_of (n : nat) : ascii := ascii_of_nat n.

(** The bytes the sources write as escapes. *)
Definition NL : ascii := byte_of 10.
Definition BS : ascii := byte_of 8.
Definition DQ : string := String (byte_of 34) EmptyString.
Definition nl : string := String NL EmptyString.

Definition in_range (lo hi : nat) (c : ascii) : bool :=
  Nat.leb lo (nat_of_ascii c) && Nat.leb (nat_of_ascii c) hi.

Definition is_digit (c : ascii) : bool := in_range 48 57 c.
Definition is_upper (c : ascii) : bool := in_range 65 90 c.
Definition is_lower (c : ascii) : bool := in_range 97 122 c.

(** [utf8.RuneSelf] is 0x80: bytes below it are one-byte runes. *)
Definition RuneSelf : nat := 128.
Definition is_ascii_byte (c : ascii) : bool := Nat.ltb (nat_of_ascii c) RuneSelf.

Fixpoint forallb_str (p : ascii -> bool) (s : string) : bool :=
  match s with
  | EmptyString => true
  | String c r => p c && forallb_str p r
  end.

Fixpoint filter_str (p : ascii -> bool) (s : string) : string :=
  match s with
  | EmptyString => EmptyString
  | String c r => if p c then String c (filter_str p r) else filter_str p r
  end.

Fixpoint map_str (f : ascii -> ascii) (s : string) : string :=
  match s with
  | EmptyString => EmptyString
  | String c r => String (f c) (map_str f r)
  end.

Fixpoint rev_str (s : string) : string :=
  match s with
  | EmptyString => EmptyString
  | String c r => rev_str r ++ String c EmptyString
  end.

(** [stripPrefix p s] is [Some r] when [s = p ++ r]. *)
Fixpoint stripPrefix (p s : string) : option string :=
  match p, s with
  | EmptyString, _ => Some s
  | String a p', String b s' =>
      if Ascii.eqb a b then stripPrefix p' s' else None
  | String _ _, EmptyString => None
  end.

Definition HasPrefix (s p : string) : bool :=
  match stripPrefix p s with Some _ => true | None => false end.

(** [strings.TrimPrefix]. *)
Definition TrimPrefix (s p : string) : string :=
  match stripPrefix p s with Some r => r | None => s end.

(** [strings.TrimSuffix]. *)
Definition TrimSuffix (s suf : string) : string :=
  match stripPrefix (rev_str suf) (rev_str s) with
  | Some r => rev_str r
  | None => s
  end.

(** [strings.Contains]. *)
Fixpoint Contains (s sub : string) : bool :=
  HasPrefix s sub ||
  match s with
  | EmptyString => false
  | String _ r => Contains r sub
  end.

(** [strings.ReplaceAll s old new] for a non-empty [old]: the matches are
    taken left to right and do not overlap; [skip] counts the bytes of the
    current match that are still to be dropped. *)
Fixpoint replaceFrom (skip : nat) (s old new : string) : string :=
  match s with
  | EmptyString => EmptyString
  | String c r =>
      match skip with
      | S k => replaceFrom k r old new
      | O =>
          if HasPrefix s old
          then new ++ replaceFrom (String.length old - 1) r old new
          else String c (replaceFrom 0 r old new)
      end
  end.

Definition ReplaceAll (s old new : string) : string := replaceFrom 0 s old new.

(** [strings.Split s sep] for a one-byte separator: the pieces between the
    separators, a single empty piece for the empty string. *)
Fixpoint Split (s : string) (sep : ascii) : list string :=
  match s with
  | EmptyString => [EmptyString]
  | String c r =>
      if Ascii.eqb c sep then EmptyString :: Split r sep
      else match Split r sep with
           | h :: t => String c h :: t
           | [] => [String c EmptyString]
           end
  end.

(** [strings.Join]. *)
Definition Join (l : list string) (sep : string) : string := String.concat sep l.

(** The ASCII branch of [strings.ToLower]. *)
Definition lower_byte (c : ascii) : ascii :=
  if is_upper c then byte_of (nat_of_ascii c + 32) else c.

End GoStrings.
Import GoStrings.

(* ------------------------------------------------------------------ *)
(** ** What is taken from the Go runtime and its libraries             *)
(* ------------------------------------------------------------------ *)

Definition error : Type := string.

(** The verdict the quality check is unmarshalled into. *)
Record QualityCheck : Type := mkQualityCheck {
  Quality : string;
  Reason : string;
  Suggestions : string
}.

(** Library functions whose tables (Unicode white space and case mapping,
    path cleaning, JSON decoding) are not part of the repository.  The
    development is parametric in them: every theorem holds whatever these
    functions compute. *)
Record GoLib : Type := mkGoLib {
  (** [strings.TrimSpace] *)
  TrimSpace : string -> string;
  (** [strings.Map(unicode.ToLower, s)], the branch of [strings.ToLower]
      taken when [s] has a byte that is not ASCII *)
  MapUnicodeToLower : string -> string;
  (** [filepath.Join] *)
  filepathJoin : list string -> string;
  (** [json.Unmarshal] into a [QualityCheck]; [None] when it returns an
      error *)
  UnmarshalQualityCheck : string -> option QualityCheck;
  (** [runtime.GOARCH] and [runtime.GOOS] *)
  GOARCH : string;
  GOOS : string
}.

(** [strings.ToLower]: strings made of ASCII bytes only are lowered byte
    by byte, the others go through the Unicode mapping. *)
Definition ToLower (L : GoLib) (s : string) : string :=
  if forallb_str is_ascii_byte s then map_str lower_byte s
  else MapUnicodeToLower L s.

(* ------------------------------------------------------------------ *)
(** ** cleanFilePath                                                    *)
(* ------------------------------------------------------------------ *)

(** The Perl class [\w] of Go's regexp syntax: [[0-9A-Za-z_]]. *)
Definition perl_w (c : ascii) : bool :=
  is_digit c || is_upper c || is_lower c || Ascii.eqb c "_"%char.

(** The bytes the class [[^\w-.]] does not match.  After [\w] the [-] is
    a literal, so the class excludes [\w], [-] and [.]. *)
Definition keptByInvalidCharsRegex (c : ascii) : bool :=
  perl_w c || Ascii.eqb c "-"%char || Ascii.eqb c "."%char.

(** [invalidCharsRegex.ReplaceAllString] with the empty replacement.  The
    expression matches
    one rune at a time.  A byte below [RuneSelf] is a rune of its own and
    is matched unless it is in the excluded set; a byte from [RuneSelf]
    on belongs either to a multi-byte rune or to an invalid encoding (read
    as U+FFFD, one byte wide), neither of which is in the excluded set, so
    it is matched and replaced by the empty string.  What remains are the
    excluded bytes, in their order. *)
Definition removeInvalidChars (s : string) : string :=
  filter_str keptByInvalidCharsRegex s.

(** [cleanFilePath] of garden/main.go. *)
Definition cleanFilePath (L : GoLib) (file : string) : string :=
  let cleanedPath := ReplaceAll (TrimSpace L file) " " "_" in
  let cleanedPath := removeInvalidChars cleanedPath in
  ToLower L cleanedPath.

(** The first variant of [cleanFilePath]: as above without the
    trimming. *)
Definition cleanFilePath_untrimmed (L : GoLib) (file : string) : string :=
  let cleanedPath := ReplaceAll file " " "_" in
  let cleanedPath := removeInvalidChars cleanedPath in
  ToLower L cleanedPath.

(** The variant of [cleanFilePath] of the session server: no trimming,
    spaces become dashes. *)
Definition cleanFilePath_dash (L : GoLib) (filePath : string) : string :=
  let cleanedPath := ReplaceAll filePath " " "-" in
  let cleanedPath := removeInvalidChars cleanedPath in
  ToLower L cleanedPath.

(** The safe file name alphabet: lower case letters, digits, [-], [_]
    and [.]. *)
Definition safe_char (c : ascii) : bool :=
  is_lower c || is_digit c ||
  Ascii.eqb c "-"%char || Ascii.eqb c "_"%char || Ascii.eqb c "."%char.

(** The safe alphabet has no space and no upper case letter. *)
Definition safe_lower_nospace (c : ascii) : bool :=
  safe_char c && negb (Ascii.eqb c " "%char) && negb (is_upper c).

(* ------------------------------------------------------------------ *)
(** ** Tasks, commands, the world and the trace                         *)
(* ------------------------------------------------------------------ *)

Definition SeedlingStepProtobufs : string := "SeedlingStepProtobufs".
Definition SeedlingStepServer : string := "SeedlingStepServer".
Definition SeedlingStepDockerfile : string := "SeedlingStepDockerfile".
Definition SeedlingStepExampleClientCall : string := "SeedlingStepExampleClientCall".
Definition SeedlingStepComplete : string := "SeedlingStepComplete".

(** A row of the [seedlings] table (the time stamps play no part). *)
Record Seedling : Type := mkSeedling {
  ID : Z;
  Name : string;
  Description : string;
  Step : string
}.

(** An [exec.Cmd] as [exec.Command] builds it: a program, its arguments
    and the working directory.  No context and no deadline is attached. *)
Record Cmd : Type := mkCmd {
  Path : string;
  Args : list string;
  Dir : string
}.

(** What waiting for a subprocess gives: it exits, with its combined
    output and the error of [Wait] ([None] for exit code zero), or it never
    exits. *)
Inductive ProcResult : Type :=
| Exited (out : string) (err : option error)
| Hangs.

(** The outside of the goroutine.  Each answer may depend on the number
    of interactions that happened before it (the first argument) and on
    the request, so a world can script any sequence of outcomes. *)
Record World : Type := mkWorld {
  (** [c.CreateCompletion] with the given prompt: the error, or the text
      of the first choice of the response.  A response is taken to carry
      at least one choice: one with none, on which [resp.Choices[0]]
      panics, is not among the answers of a world *)
  w_CreateCompletion : nat -> string -> error + string;
  (** running a command to its end *)
  w_exec : nat -> Cmd -> ProcResult;
  (** [ioutil.WriteFile file data 0644] *)
  w_WriteFile : nat -> string -> string -> option error;
  (** [os.Chmod file 0755] *)
  w_Chmod : nat -> string -> option error;
  (** [ioutil.ReadFile] *)
  w_ReadFile : nat -> string -> error + string;
  (** [getStructAndInterfaceDefinitionsFromFile]: the file is read and
      parsed, the declarations found are printed *)
  w_definitions : nat -> string -> error + list string;
  (** [getNonStdImports]: the import paths of the file that have a dot
      and do not start with one (none when the file does not parse) *)
  w_nonStdImports : nat -> string -> list string;
  (** [UPDATE seedlings SET step = $1 WHERE id = $2] *)
  w_updateStep : nat -> string -> Z -> option error
}.

Inductive Event : Type :=
| EvCompletion (prompt : string) (r : error + string)
| EvExec (c : Cmd) (r : ProcResult)
| EvWriteFile (file data : string) (r : option error)
| EvChmod (file : string) (r : option error)
| EvReadFile (file : string) (r : error + string)
| EvDefinitions (file : string) (r : error + list string)
| EvNonStdImports (file : string) (r : list string)
| EvUpdateStep (step : string) (id : Z) (r : option error).

Definition Trace : Type := list Event.

(** Ways in which the goroutine stops without returning: a run-time
    panic, [logrus.Fatal] (the process exits), waiting for ever for a
    subprocess, and the fuel of the model running out (which never
    happens, see [gptThread_fuel_enough]). *)
Inductive Halt : Type :=
| Panic
| Fatal (msg : error)
| Blocked (c : Cmd)
| OutOfFuel.

Inductive Res (A : Type) : Type :=
| Ret (a : A)
| Stop (h : Halt).
Arguments Ret {A} a.
Arguments Stop {A} h.

(** Computations that talk to the world: from the trace so far to a
    result and the extended trace. *)
Definition M (A : Type) : Type := Trace -> Res A * Trace.

Definition ret {A} (a : A) : M A := fun tr => (Ret a, tr).

Definition bind {A B} (m : M A) (k : A -> M B) : M B :=
  fun tr =>
    match m tr with
    | (Ret a, tr') => k a tr'
    | (Stop h, tr') => (Stop h, tr')
    end.

Definition halt {A} (h : Halt) : M A := fun tr => (Stop h, tr).

Arguments ret : simpl never.
Arguments bind : simpl never.
Arguments halt : simpl never.

Notation "x <- c1 ;; c2" := (bind c1 (fun x => c2))
  (at level 61, c1 at next level, right associativity).
Notation "' pat <- c1 ;; c2" := (bind c1 (fun x => match x with pat => c2 end))
  (at level 61, pat pattern, c1 at next level, right associativity).

Section Interactions.

Variable w : World.

(** The result type of Go functions returning [(string, error)]. *)
Definition StrErr : Type := (string * option error)%type.

Definition CreateCompletion (prompt : string) : M (error + string) :=
  fun tr =>
    let r := w_CreateCompletion w (length tr) prompt in
    (Ret r, tr ++ [EvCompletion prompt r])%list.

(** [cmd.CombinedOutput()]. *)
Definition CombinedOutput (c : Cmd) : M StrErr :=
  fun tr =>
    let r := w_exec w (length tr) c in
    (match r with
     | Exited out err => Ret (out, err)
     | Hangs => Stop (Blocked c)
     end, tr ++ [EvExec c r])%list.

(** [cmd.Run()]. *)
Definition Run (c : Cmd) : M (option error) :=
  ' (_, err) <- CombinedOutput c ;; ret err.

Definition WriteFile (file data : string) : M (option error) :=
  fun tr =>
    let r := w_WriteFile w (length tr) file data in
    (Ret r, tr ++ [EvWriteFile file data r])%list.

Definition Chmod (file : string) : M (option error) :=
  fun tr =>
    let r := w_Chmod w (length tr) file in
    (Ret r, tr ++ [EvChmod file r])%list.

Definition ReadFile (file : string) : M (error + string) :=
  fun tr =>
    let r := w_ReadFile w (length tr) file in
    (Ret r, tr ++ [EvReadFile file r])%list.

Definition getStructAndInterfaceDefinitionsFromFile (file : string)
  : M (error + list string) :=
  fun tr =>
    let r := w_definitions w (length tr) file in
    (Ret r, tr ++ [EvDefinitions file r])%list.

Definition getNonStdImports (file : string) : M (list string) :=
  fun tr =>
    let r := w_nonStdImports w (length tr) file in
    (Ret r, tr ++ [EvNonStdImports file r])%list.

Definition updateStep (step : string) (id : Z) : M (option error) :=
  fun tr =>
    let r := w_updateStep w (length tr) step id in
    (Ret r, tr ++ [EvUpdateStep step id r])%list.

(** [gpt]: the completion request with the prompt and the stop sequence;
    an error of the client is returned as it is, with the empty text.
    The text is [resp.Choices[0].Text]; the panic of this expression on a
    response without choices is outside the model (see [World]), so what
    is proved of a run that does not return holds for the responses that
    have a choice. *)
Definition gpt (prompt : string) : M StrErr :=
  r <- CreateCompletion prompt ;;
  match r with
  | inl err => ret (EmptyString, Some err)
  | inr text => ret (text, None)
  end.

End Interactions.

(* ------------------------------------------------------------------ *)
(** ** runSeedling                                                      *)
(* ------------------------------------------------------------------ *)

Definition quoted (s : string) : string := DQ ++ s ++ DQ.
Definition fence : string := "```".

(** [QualityCheck.Error]. *)
Definition QualityCheck_Error (qc : QualityCheck) : option error :=
  if (Quality qc =? "good")%string then None
  else Some ("Quality check failed for this reason: " ++ Reason qc ++
             ". To improve the quality, we suggest you: " ++ Suggestions qc).

(** The prompt of the quality check, [fmt.Sprintf] applied to the
    candidate and to the description of the seedling. *)
Definition qualityPrompt (gptOut description : string) : string :=
  fence ++ nl ++ gptOut ++ String BS EmptyString ++ fence ++ "
In the above code, based on how well it seems to implement the desired functionality of a service that "
  ++ description ++ ", output JSON with this format:

" ++ fence ++ "
{" ++ quoted "quality" ++ ": " ++ quoted "good" ++ ", " ++ quoted "reason" ++ ": "
  ++ quoted "would definitely pass a code review" ++ ", " ++ quoted "suggestions" ++ ": "
  ++ quoted "none" ++ "}
{" ++ quoted "quality" ++ ": " ++ quoted "bad" ++ ", " ++ quoted "reason" ++ ": "
  ++ quoted "unimplemented method" ++ ", " ++ quoted "suggestions" ++ ": "
  ++ quoted "actually implement the functionality" ++ "}
" ++ fence ++ "

The quality check should return " ++ quoted "bad" ++ " if there are TODOs, stubs, methods,
examples, etc. that just return nil or true without doing anything, etc. For
instance, " ++ quoted "we'll do this later" ++ " is a strong indication that the code quality is
" ++ quoted "bad" ++ ".
" ++ fence ++ "json" ++ nl.

(** The three trimming assignments to [gptOut] in [runSeedling]. *)
Definition stripFencing (L : GoLib) (codeType gptOut : string) : string :=
  let gptOut := TrimPrefix gptOut (fence ++ codeType) in
  let gptOut := TrimSuffix gptOut fence in
  TrimSpace L gptOut.

Section RunSeedling.

Variable L : GoLib.
Variable w : World.

(** The allowance of the quality check loop, [maxErrs := 5] in
    [runSeedling]. *)
Definition qualityMaxErrs : nat := 5.

(** The [for] loop of the quality check, entered with [errs] failed
    decodings so far.  [Some r] stands for [return r], [None] for [break].
    The assignments to [prompt] change the parameter of [runSeedling] only
    (Go passes strings by value), so the caller never sees them. *)
Fixpoint qualityLoop (fuel : nat) (errs : nat)
    (gptOut prompt description : string) : M (option StrErr) :=
  match fuel with
  | O => halt OutOfFuel
  | S fuel' =>
      if Nat.eqb qualityMaxErrs errs
      then ret (Some (EmptyString, Some "max errors exceeded"))
      else
        ' (qualityCheckOut, err) <- gpt w (qualityPrompt gptOut description) ;;
        match err with
        | Some e => ret (Some (EmptyString, Some e))
        | None =>
            let qualityCheckOut := TrimSpace L qualityCheckOut in
            match UnmarshalQualityCheck L qualityCheckOut with
            | None =>
                qualityLoop fuel' (S errs) gptOut prompt description
            | Some qualityCheck =>
                if negb (Quality qualityCheck =? "good")%string
                then
                  let prompt := prompt ++ fence ++ "
You didn't pass the quality check. Here's the output from the quality check:
" ++ qualityCheckOut in
                  let prompt := prompt ++ nl ++ nl ++
                                "Write a version that fixes that error." ++ nl in
                  ret (Some (EmptyString, QualityCheck_Error qualityCheck))
                else ret None
            end
        end
  end.

(** The quality check is made on the server step only. *)
Definition qualityGate (gptOut step prompt description : string)
  : M (option StrErr) :=
  if (step =? SeedlingStepServer)%string
  then qualityLoop (S qualityMaxErrs) 0 gptOut prompt description
  else ret None.

Definition gitAdd : Cmd :=
  mkCmd "git" ["add"; "."] (filepathJoin L ["repos"; "default"]).
Definition gitCommit : Cmd :=
  mkCmd "git" ["commit"; "-m"; "seedling update"] (filepathJoin L ["repos"; "default"]).

(** The end of [runSeedling]: the build command is run and, when it
    succeeds, the repository is committed. *)
Definition buildAndCommit (buildCmd : Cmd) : M StrErr :=
  ' (byteOutput, err) <- CombinedOutput w buildCmd ;;
  match err with
  | Some e => ret (byteOutput, Some e)
  | None =>
      aerr <- Run w gitAdd ;;
      match aerr with
      | Some e => ret (EmptyString, Some e)
      | None =>
          gerr <- Run w gitCommit ;;
          match gerr with
          | Some e => ret (EmptyString, Some e)
          | None => ret (EmptyString, None)
          end
      end
  end.

(** [runSeedling] from the trimming of the candidate on: the file is
    written (and made executable for a shell script), then built. *)
Definition writeAndBuild (file codeType : string) (buildCmd : Cmd)
    (gptOut : string) : M StrErr :=
  let gptOut := stripFencing L codeType gptOut in
  if Nat.eqb (String.length gptOut) 0
  then ret (EmptyString, Some "no code to run")
  else
    werr <- WriteFile w file gptOut ;;
    match werr with
    | Some e => ret (EmptyString, Some e)
    | None =>
        cerr <- (if (codeType =? "bash")%string then Chmod w file else ret None) ;;
        match cerr with
        | Some e => ret (EmptyString, Some e)
        | None => buildAndCommit buildCmd
        end
    end.

Definition runSeedling (file codeType : string) (buildCmd : Cmd)
    (gptOut step prompt description : string) : M StrErr :=
  q <- qualityGate gptOut step prompt description ;;
  match q with
  | Some r => ret r
  | None => writeAndBuild file codeType buildCmd gptOut
  end.

End RunSeedling.

(* ------------------------------------------------------------------ *)
(** ** gptThread                                                        *)
(* ------------------------------------------------------------------ *)

(** [fmt.Sprintf(protoPrompt, a, b, c, d)]. *)
Definition protoPrompt (a b c d : string) : string :=
  "
Write me a protobufs file for a gRPC method that " ++ a ++ "

Make sure to start it with lines like:

syntax = " ++ quoted "proto3" ++ ";
option go_package = " ++ quoted "./protobufs" ++ ";

The file will be called " ++ b ++ ".proto. Do not override any of my file names.

My directory layout is:

$ ls .
Dockerfile          client              docker-compose.yaml go.mod              protobufs           server

My go.mod is:

module " ++ c ++ "

go 1.19

There are some arguments and variations that a user will be likely to request.
Make sure to include them. Think about it like a product manager for a developer experience
-- what are people likely to want from a service that does " ++ d ++ "?
".

(** The prompt of the server step on first entry. *)
Definition serverPrompt (prompt goarch protoBufDefs grpcDefs : string) : string :=
  prompt ++ "
Now write a server implementation for the service method(s).

Here are some instructions:

1. Make sure it's an actual production implementation of the service. Implement
   everything. Don't leave anything out.
2. Use external libraries, packages, and binaries if needed.
3. Assume you are running in a Docker container (Linux). This will 
   run on Debian, so make sure it's compatible with Debian (Bookworm).
   This should be oriented at processor architecture " ++ goarch ++ ".
4. Make the gRPC service listen on port 8000, with insecure connection
   settings. In the same file, also include an HTTP server that will listen on
   port 8001, take in JSON equivalent to the gRPC call, and call the equivalent
   gRPC server method.
5. Log information about each request to the HTTP server with logrus. Use logrus.WithField
   to include information about the request, including relevant args, method name, duration etc.
6. Make sure to go the gRPC Serve() in a goroutine, and then block on the HTTP server.

Think step by step. If you want to provide commentary, do it in comments.

Actually implement everything as if it were production ready.

Make sure to check your imports. Double check those imports.

Some of the generated protobuf code looks like this:

" ++ protoBufDefs ++ "

And the gRPC:

" ++ grpcDefs ++ "
".

(** The prompt of the Dockerfile step on first entry. *)
Definition dockerfilePrompt (prompt : string) : string :=
  prompt ++ "
Now write a Dockerfile (multi-stage build) to build and run your server.

Here is an example:

FROM debian:bookworm-slim AS builder

RUN apt-get update && apt-get install -y --no-install-recommends \
  ca-certificates \
  git \
  golang-go \
  <other_pkgs>
COPY . /app
WORKDIR /app
RUN go get ./...
RUN go build -o /tmp/svc ./server

FROM debian:bookworm-slim

RUN apt-get update && apt-get install -y --no-install-recommends \
  <package_1> \
  <package_2>
COPY --from=builder /tmp/svc /bin/svc
EXPOSE 8000
EXPOSE 8001
CMD [" ++ quoted "/bin/svc" ++ "]

Make sure to install any external libraries, packages, and binaries you need.

Make sure to include this line:

RUN go get ./...

Think step by step -- what's the best way to build the file?

Write the code. Write only the code.
".

(** The prompt of the example client call step on first entry. *)
Definition clientCallPrompt (prompt name serverContents : string) : string :=
  prompt ++ "
Now write me a shell script with a example client call with curl to the HTTP
service. which is running on localhost:$(docker inspect -f '{{ (index .NetworkSettings.Ports "
  ++ quoted "8001/tcp" ++ " 0).HostPort }}' " ++ name ++ ").

Remember, the server code is:
" ++ fence ++ "go" ++ serverContents ++ fence.

(** The local variables of [gptThread] that live across iterations. *)
Record LoopState : Type := mkLoopState {
  step : nat;
  errs : nat;
  prompt : string;
  errMode : bool;
  dumpedModDocs : bool
}.

(** What the [switch] of an iteration fixes for the attempt. *)
Record Stage : Type := mkStage {
  repoPath : string;
  codeType : string;
  cmdCmd : string;
  cmdArgs : list string
}.

(** The places where [gptThread] returns, named after what it logs. *)
Inductive Exit : Type :=
| ContainerLaunched
| DockerRunFailed
| UnknownStep
| ReadServerFailed
| OracleFailed
| MaxErrorsExceeded
| UpdateStepFailed.

(** The end of an iteration of the outer [for]. *)
Inductive Next : Type :=
| Continue (st : LoopState)
| Return (x : Exit) (st : LoopState).

Definition maxErrs : nat := 15.

Definition steps : list string :=
  [SeedlingStepProtobufs; SeedlingStepServer; SeedlingStepDockerfile;
   SeedlingStepExampleClientCall; SeedlingStepComplete].

(** The trailing lines of the build output kept for the next prompt. *)
Definition lastLines (n : nat) (output : string) : string :=
  let lines := Split output NL in
  let lines :=
    if Nat.ltb n (length lines) then skipn (length lines - n) lines else lines in
  Join lines nl.

(** The text about the failure that goes into the prompt: the trailing
    lines of the output, or the message of the error when these are empty. *)
Definition diagnostic (output : string) (err : error) : string :=
  let output := lastLines 25 output in
  if (output =? EmptyString)%string then err else output.

Section GptThread.

Variable L : GoLib.
Variable w : World.
Variable seedling : Seedling.

Definition repoDir : string :=
  filepathJoin L ["repos"; "default"; Name seedling].

(** The loop over the imports of the server file that collects the output
    of [go doc]; it yields [allDocs], [goDocErr] and [mods]. *)
Fixpoint goDocLoop (imports : list string) (allDocs : string)
    (goDocErr : bool) (mods : nat) : M (string * bool * nat) :=
  match imports with
  | [] => ret (allDocs, goDocErr, mods)
  | imp :: rest =>
      if Contains imp "protobuf" || Contains imp "logrus" ||
         Contains imp "grpc" || Contains imp "spew"
      then goDocLoop rest allDocs goDocErr mods
      else
        let cmd := mkCmd "sh" ["-c"; "go get ./... && go doc -short " ++ imp] repoDir in
        ' (out, err) <- CombinedOutput w cmd ;;
        let goDocErr := match err with Some _ => true | None => goDocErr end in
        goDocLoop rest (allDocs ++ out) goDocErr (S mods)
  end.

Definition setPrompt (st : LoopState) (p : string) : LoopState :=
  mkLoopState (step st) (errs st) p (errMode st) (dumpedModDocs st).

Definition clearErrMode (st : LoopState) : LoopState :=
  mkLoopState (step st) (errs st) (prompt st) false (dumpedModDocs st).

Definition appendPrompt (st : LoopState) (p : string) : LoopState :=
  setPrompt st (prompt st ++ p).

(** The [switch] on the current step: the prompt is built on first entry
    and extended on a retry, and the file, the fence tag and the build
    command of the step are fixed.  [inr x] stands for [return]. *)
Definition stageSetup (cur : string) (st : LoopState)
  : M (LoopState * Stage + Exit) :=
  if (cur =? SeedlingStepProtobufs)%string then
    let st :=
      if negb (errMode st)
      then setPrompt st
             (protoPrompt (Description seedling) (Name seedling)
                          (Name seedling) (Description seedling) ++ nl)
      else clearErrMode st in
    let st := appendPrompt st (fence ++ "protobuf" ++ nl) in
    let repoPath := filepathJoin L ["protobufs"; Name seedling ++ ".proto"] in
    ret (inl (st, mkStage repoPath "proto" "protoc"
                    ["-I=."; "--go_out=."; "--go-grpc_out=."; repoPath]))
  else if (cur =? SeedlingStepServer)%string then
    let protoFile := filepathJoin L
      ["repos"; "default"; Name seedling; "protobufs"; Name seedling ++ ".pb.go"] in
    r <- getStructAndInterfaceDefinitionsFromFile w protoFile ;;
    match r with
    | inl err => halt (Fatal err)
    | inr protoBufDefs =>
        let grpcFile := filepathJoin L
          ["repos"; "default"; Name seedling; "protobufs";
           Name seedling ++ "_grpc.pb.go"] in
        r <- getStructAndInterfaceDefinitionsFromFile w grpcFile ;;
        match r with
        | inl err => halt (Fatal err)
        | inr grpcDefs =>
            let serverFile := filepathJoin L
              ["repos"; "default"; Name seedling; "server"; "main.go"] in
            st <-
              (if negb (errMode st)
               then ret (setPrompt st
                           (serverPrompt (prompt st) (GOARCH L)
                              (Join protoBufDefs nl) (Join grpcDefs nl)))
               else
                 let st := clearErrMode st in
                 if negb (dumpedModDocs st)
                 then
                   let st := mkLoopState (step st) (errs st) (prompt st)
                                         (errMode st) true in
                   nonStdImports <- getNonStdImports w serverFile ;;
                   ' (allDocs, goDocErr, mods) <-
                     goDocLoop nonStdImports
                       (nl ++ "Here is some documentation that might be useful:" ++ nl)
                       false 0 ;;
                   if negb goDocErr && Nat.ltb 0 mods
                   then ret (appendPrompt st allDocs)
                   else ret st
                 else ret st) ;;
            let st := appendPrompt st (fence ++ "go" ++ nl) in
            ret (inl (st, mkStage (filepathJoin L ["server"; "main.go"]) "go" "sh"
                            ["-c"; "go get ./... && go build -o /tmp/server ./server"]))
        end
    end
  else if (cur =? SeedlingStepDockerfile)%string then
    let st :=
      if negb (errMode st)
      then setPrompt st (dockerfilePrompt (prompt st))
      else clearErrMode st in
    let st := appendPrompt st (fence ++ "dockerfile" ++ nl) in
    let cmdArgs :=
      if (GOARCH L =? "arm64")%string && (GOOS L =? "darwin")%string
      then ["buildx"; "build"; "--platform"; "linux/amd64"; "-t"; Name seedling; "."]
      else ["build"; "-t"; Name seedling; "."] in
    ret (inl (st, mkStage (filepathJoin L ["Dockerfile"]) "dockerfile" "docker" cmdArgs))
  else if (cur =? SeedlingStepExampleClientCall)%string then
    r <-
      (if negb (errMode st)
       then
         c <- ReadFile w (filepathJoin L
                ["repos"; "default"; Name seedling; "server"; "main.go"]) ;;
         match c with
         | inl _ => ret (inr ReadServerFailed)
         | inr serverContents =>
             ret (inl (setPrompt st
                         (clientCallPrompt (prompt st) (Name seedling) serverContents)))
         end
       else ret (inl (clearErrMode st))) ;;
    match r with
    | inr x => ret (inr x)
    | inl st =>
        let st := appendPrompt st (fence ++ "bash" ++ nl) in
        ret (inl (st, mkStage (filepathJoin L ["example-client-call.sh"])
                        "bash" "true" []))
    end
  else ret (inr UnknownStep).

(** The branch taken when [runSeedling] returns an error. *)
Definition onFailure (st : LoopState) (gptOutput output : string) (err : error)
  : Next :=
  let st := mkLoopState (step st) (S (errs st)) (prompt st) (errMode st)
                        (dumpedModDocs st) in
  if Nat.ltb maxErrs (errs st)
  then Return MaxErrorsExceeded st
  else
    let output := diagnostic output err in
    let st := appendPrompt st
      (gptOutput ++ fence ++ nl ++ nl ++ "That code didn't work." ++ nl ++ nl ++
       "It got an error:" ++ nl ++ nl ++ fence ++ nl ++ output ++ fence) in
    let st := appendPrompt st
      (nl ++ nl ++ "Write a version that fixes that error." ++ nl) in
    Continue (mkLoopState (step st) (errs st) (prompt st) true (dumpedModDocs st)).

(** The branch taken when [runSeedling] succeeds: the next step is
    written to the [seedlings] table, then the loop moves on to it. *)
Definition onSuccess (st : LoopState) (gptOutput : string) : M Next :=
  match nth_error steps (step st + 1) with
  | None => halt Panic
  | Some next =>
      uerr <- updateStep w next (ID seedling) ;;
      match uerr with
      | Some _ => ret (Return UpdateStepFailed st)
      | None =>
          let st := appendPrompt st (nl ++ nl ++ gptOutput ++ nl ++ nl) in
          let st := appendPrompt st
            (fence ++ nl ++ nl ++
             "Great. That worked. Let's move on to the next step." ++ nl ++ nl) in
          ret (Continue (mkLoopState (step st + 1) (errs st) (prompt st)
                                     (errMode st) (dumpedModDocs st)))
      end
  end.

(** The [if] on the result of [runSeedling]. *)
Definition settle (st : LoopState) (gptOutput : string) (r : StrErr) : M Next :=
  let (output, err) := r in
  match err with
  | Some e => ret (onFailure st gptOutput output e)
  | None => onSuccess st gptOutput
  end.

(** The file of the step and its build command. *)
Definition stageFile (sg : Stage) : string :=
  filepathJoin L ["repos"; "default"; Name seedling; repoPath sg].
Definition stageBuildCmd (sg : Stage) : Cmd :=
  mkCmd (cmdCmd sg) (cmdArgs sg) repoDir.

(** An iteration from the call of [gpt] on, for the step [cur] set up as
    [sg] with the state [st]. *)
Definition attempt (cur : string) (st : LoopState) (sg : Stage) : M Next :=
  let file := stageFile sg in
  let buildCmd := stageBuildCmd sg in
  ' (gptOutput, err) <- gpt w (prompt st) ;;
  match err with
  | Some _ => ret (Return OracleFailed st)
  | None =>
      r <- runSeedling L w file (codeType sg) buildCmd gptOutput cur (prompt st)
                       (Description seedling) ;;
      settle st gptOutput r
  end.

(** The branch of the complete step: the container is started and
    inspected, and the loop is left. *)
Definition launch (st : LoopState) : M Next :=
  let cmd := mkCmd "docker"
    ["run"; "--init"; "--name"; Name seedling; "-d"; "-p"; "8001"; "-p"; "8000";
     Name seedling] EmptyString in
  ' (out, err) <- CombinedOutput w cmd ;;
  match err with
  | Some _ => ret (Return DockerRunFailed st)
  | None =>
      let cid := TrimSpace L out in
      let inspectCmd := mkCmd "docker"
        ["inspect"; "-f"; "{{ json .NetworkSettings.Ports }}"; cid] EmptyString in
      ierr <- Run w inspectCmd ;;
      match ierr with
      | Some e => halt (Fatal e)
      | None => ret (Return ContainerLaunched st)
      end
  end.

(** One iteration of the outer [for]. *)
Definition iteration (st : LoopState) : M Next :=
  match nth_error steps (step st) with
  | None => halt Panic
  | Some cur =>
      if (cur =? SeedlingStepComplete)%string then launch st
      else
        r <- stageSetup cur st ;;
        match r with
        | inr x => ret (Return x st)
        | inl (st, sg) => attempt cur st sg
        end
  end.

(** The outer [for], run for at most [fuel] iterations. *)
Fixpoint gptLoop (fuel : nat) (st : LoopState) : M (Exit * LoopState) :=
  match fuel with
  | O => halt OutOfFuel
  | S fuel' =>
      n <- iteration st ;;
      match n with
      | Return x st' => ret (x, st')
      | Continue st' => gptLoop fuel' st'
      end
  end.

Definition initialState : LoopState :=
  mkLoopState 0 0 EmptyString false false.

(** No run takes more than [maxErrs + length steps] iterations. *)
Definition gptThreadFuel : nat := maxErrs + length steps.

(** [gptThread]: the loop always starts at [step := 0] with no errors,
    whatever [Step seedling] is. *)
Definition gptThread : M (Exit * LoopState) :=
  gptLoop gptThreadFuel initialState.

End GptThread.

(** The end of [init]: a goroutine running [gptThread] is started for
    every row of the table whose step is not the complete one. *)
Definition resumed (seedlings : list Seedling) : list Seedling :=
  filter (fun s => negb (Step s =? SeedlingStepComplete)%string) seedlings.

(** The values of the [step] column that [UPDATE] statements without
    error have stored for the row [id], in the order of the trace. *)
Fixpoint storedSteps (id : Z) (tr : Trace) : list string :=
  match tr with
  | [] => []
  | EvUpdateStep s i None :: rest =>
      if Z.eqb i id then s :: storedSteps id rest else storedSteps id rest
  | _ :: rest => storedSteps id rest
  end.

(* ------------------------------------------------------------------ *)
(** ** The vocabulary of the properties                                 *)
(* ------------------------------------------------------------------ *)

(** The number of newline bytes of a string. *)
Fixpoint countNL (s : string) : nat :=
  match s with
  | EmptyString => 0
  | String c r => (if Ascii.eqb c NL then 1 else 0) + countNL r
  end.

(** The number of lines of a text, as [strings.Split] counts them. *)
Definition lineCount (s : string) : nat := length (Split s NL).

(** The lines kept by [lastLines]. *)
Definition keptLines (n : nat) (output : string) : list string :=
  let lines := Split output NL in
  if Nat.ltb n (length lines) then skipn (length lines - n) lines else lines.

Inductive Kind : Type :=
| KCompletion | KExec | KWriteFile | KChmod | KReadFile
| KDefinitions | KNonStdImports | KUpdateStep.

Definition kind (e : Event) : Kind :=
  match e with
  | EvCompletion _ _ => KCompletion
  | EvExec _ _ => KExec
  | EvWriteFile _ _ _ => KWriteFile
  | EvChmod _ _ => KChmod
  | EvReadFile _ _ => KReadFile
  | EvDefinitions _ _ => KDefinitions
  | EvNonStdImports _ _ => KNonStdImports
  | EvUpdateStep _ _ _ => KUpdateStep
  end.

(** All the events are of one of the kinds [ks]. *)
Definition only (ks : list Kind) (evs : Trace) : Prop :=
  Forall (fun e => In (kind e) ks) evs.

(** The goroutine stops without returning only by [logrus.Fatal] or by
    waiting for a subprocess. *)
Definition realHalt (h : Halt) : Prop :=
  match h with
  | Fatal _ | Blocked _ => True
  | Panic | OutOfFuel => False
  end.

(** [sat ks Q H m]: from any trace, [m] appends events of the kinds [ks]
    only, and its result satisfies [Q] when it returns and [H] when it
    halts. *)
Definition sat {A} (ks : list Kind) (Q : A -> Prop) (H : Halt -> Prop)
    (m : M A) : Prop :=
  forall tr, exists evs,
    snd (m tr) = (tr ++ evs)%list /\ only ks evs /\
    match fst (m tr) with Ret a => Q a | Stop h => H h end.

(** An error return of [runSeedling] that carries no output. *)
Definition failsSilently (r : StrErr) : Prop :=
  fst r = EmptyString /\ snd r <> None.

(** The counters that a set-up leaves as they were. *)
Definition sameCounters (st : LoopState) (r : LoopState * Stage + Exit) : Prop :=
  match r with
  | inl (st1, _) => step st1 = step st /\ errs st1 = errs st
  | inr x => x = UnknownStep \/ x = ReadServerFailed
  end.

(** What an iteration that starts in [st] and appends [evs] can end in:
    a retry of the same step with one more error, still within the budget;
    the move to the next step, stored exactly once; a return or a halt
    that stores nothing. *)
Definition iterationPost (seedling : Seedling) (st : LoopState) (evs : Trace)
    (r : Res Next) : Prop :=
  match r with
  | Ret (Continue st') =>
      (storedSteps (ID seedling) evs = [] /\ step st' = step st /\
       errs st' = S (errs st) /\ errs st' <= maxErrs) \/
      (exists next, nth_error steps (S (step st)) = Some next /\
         storedSteps (ID seedling) evs = [next] /\
         step st' = S (step st) /\ errs st' = errs st)
  | Ret (Return x st') =>
      storedSteps (ID seedling) evs = [] /\ step st' = step st /\
      (x = MaxErrorsExceeded /\ errs st' = S (errs st) /\ maxErrs < errs st' \/
       x <> MaxErrorsExceeded /\ errs st' = errs st)
  | Stop h => storedSteps (ID seedling) evs = [] /\ realHalt h
  end.

(** What a run of the loop from [st] that appends [evs] ends in: the
    steps stored are the [k] steps that follow the one of [st], in the order
    of the list; on return the loop is [k] steps further, and the budget
    is reported as exceeded exactly with [maxErrs + 1] errors. *)
Definition loopPost (seedling : Seedling) (st : LoopState) (evs : Trace)
    (r : Res (Exit * LoopState)) : Prop :=
  exists k,
    storedSteps (ID seedling) evs = firstn k (skipn (S (step st)) steps) /\
    step st + k <= 4 /\
    match r with
    | Ret (x, st') =>
        step st' = step st + k /\
        (x = MaxErrorsExceeded /\ errs st' = S maxErrs \/
         x <> MaxErrorsExceeded /\ errs st' <= maxErrs)
    | Stop h => realHalt h
    end.

(** The build fails whenever it is run: every command other than [git]
    exits with an error.  Nothing is asked of [git add] and [git commit],
    which are run only after a build that worked. *)
Definition verifierAlwaysFails (w : World) : Prop :=
  forall n c, Path c <> "git" -> exists out e, w_exec w n c = Exited out (Some e).

(** Every completion request is answered. *)
Definition oracleAlwaysAnswers (w : World) : Prop :=
  forall n p, exists t, w_CreateCompletion w n p = inr t.

Definition isCompletion (e : Event) : bool :=
  match e with EvCompletion _ _ => true | _ => false end.

(** The number of completion requests in a trace. *)
Definition completions (tr : Trace) : nat := length (filter isCompletion tr).

Definition attemptKinds : list Kind := [KCompletion; KWriteFile; KChmod; KExec].

(** The outcome of an iteration that cannot succeed: the completion
    request failed and the goroutine returns, or the failure branch is
    taken. *)
Definition failedIteration (w : World) (st : LoopState) (n : Next) : Prop :=
  (exists st1, n = Return OracleFailed st1 /\ step st1 = step st /\
     errs st1 = errs st /\ ~ oracleAlwaysAnswers w) \/
  (exists st1 g out e, n = onFailure st1 g out e /\ step st1 = step st /\
     errs st1 = errs st).

(** The values the [step] column takes while [gptThread] drives the task:
    the value of the row when the goroutine is started, then the values it
    stores. *)
Definition observedSteps (s : Seedling) (tr : Trace) : list string :=
  Step s :: storedSteps (ID s) tr.

(** A prefix of the fixed order of the steps. *)
Definition isStagePrefix (l : list string) : Prop :=
  exists k, l = firstn k steps.

(** The state in which an iteration ends. *)
Definition nextState (n : Next) : LoopState :=
  match n with Continue st => st | Return _ st => st end.

(** The [k] answers to the prompt [p] from the position [n] on are texts
    that do not decode as a verdict. *)
Definition undecodable (L : GoLib) (w : World) (n : nat) (p : string) (k : nat)
  : Prop :=
  forall i, i < k ->
    exists t, w_CreateCompletion w (n + i) p = inr t /\
              UnmarshalQualityCheck L (TrimSpace L t) = None.

(** The events of [k] requests with the prompt [p] from the position [n]
    on. *)
Definition gateEvents (w : World) (n : nat) (p : string) (k : nat) : Trace :=
  map (fun i => EvCompletion p (w_CreateCompletion w (n + i) p)) (seq 0 k).

(** What the quality check decides on a verdict. *)
Definition verdictResult (qc : QualityCheck) : option StrErr :=
  if (Quality qc =? "good")%string then None
  else Some (EmptyString, QualityCheck_Error qc).

(** The message of [QualityCheck.Error] for a verdict that is not good. *)
Definition rejectionMessage (qc : QualityCheck) : string :=
  "Quality check failed for this reason: " ++ Reason qc ++
  ". To improve the quality, we suggest you: " ++ Suggestions qc.

(** The state with which the same step is tried again after a failure
    whose text for the prompt is [text]. *)
Definition retryState (st : LoopState) (gptOutput text : string) : LoopState :=
  mkLoopState (step st) (S (errs st))
    ((prompt st ++
      (gptOutput ++ fence ++ nl ++ nl ++ "That code didn't work." ++ nl ++ nl ++
       "It got an error:" ++ nl ++ nl ++ fence ++ nl ++ text ++ fence)) ++
     (nl ++ nl ++ "Write a version that fixes that error." ++ nl))
    true (dumpedModDocs st).

(** The state in which the goroutine returns when the budget is used up. *)
Definition exhaustedState (st : LoopState) : LoopState :=
  mkLoopState (step st) (S (errs st)) (prompt st) (errMode st) (dumpedModDocs st).

(** In the events [evs] of an attempt, every request of the quality check
    comes after a write of [data] to [file]. *)
Definition writtenBeforeGate (file data gatePrompt : string) (evs : Trace) : Prop :=
  forall pre r post,
    evs = (pre ++ EvCompletion gatePrompt r :: post)%list ->
    exists e, In (EvWriteFile file data e) pre.

(** A request of the quality check for the candidate [gptOut]. *)
Definition isGateRequest (gptOut description : string) (e : Event) : Prop :=
  exists r, e = EvCompletion (qualityPrompt gptOut description) r.

(** The quality check accepted: one of its requests was answered by a
    verdict that decodes and is good. *)
Definition accepted (L : GoLib) (gptOut description : string) (gate : Trace) : Prop :=
  exists reply qc,
    In (EvCompletion (qualityPrompt gptOut description) (inr reply)) gate /\
    UnmarshalQualityCheck L (TrimSpace L reply) = Some qc /\
    Quality qc = "good".

(** The events from the write to the build command that hangs. *)
Definition hangingBuildEvents (file codeType data : string) (buildCmd : Cmd)
  : Trace :=
  (EvWriteFile file data None ::
   (if (codeType =? "bash")%string then [EvChmod file None] else []) ++
   [EvExec buildCmd Hangs])%list.

(* ------------------------------------------------------------------ *)
(** ** Concrete libraries and worlds, for running the model            *)
(* ------------------------------------------------------------------ *)

Module Examples.

Definition isAsciiSpace (c : ascii) : bool :=
  in_range 9 13 c || Ascii.eqb c " "%char.

Fixpoint trimLeft (s : string) : string :=
  match s with
  | EmptyString => EmptyString
  | String c r => if isAsciiSpace c then trimLeft r else s
  end.

(** [strings.TrimSpace] on ASCII text. *)
Definition trimAscii (s : string) : string :=
  rev_str (trimLeft (rev_str (trimLeft s))).

Definition verdictJSON (quality reason suggestions : string) : string :=
  "{" ++ quoted "quality" ++ ": " ++ quoted quality ++ ", " ++
  quoted "reason" ++ ": " ++ quoted reason ++ ", " ++
  quoted "suggestions" ++ ": " ++ quoted suggestions ++ "}".

Definition goodVerdict : QualityCheck := mkQualityCheck "good" "complete" "none".
Definition badVerdict : QualityCheck :=
  mkQualityCheck "bad" "unimplemented method" "actually implement the functionality".

(** A decoder that knows the two verdicts above and nothing else. *)
Definition decodeVerdict (s : string) : option QualityCheck :=
  if (s =? verdictJSON "good" "complete" "none")%string then Some goodVerdict
  else if (s =? verdictJSON "bad" "unimplemented method"
                   "actually implement the functionality")%string
  then Some badVerdict
  else None.

(** The library of the examples, whose texts are ASCII and whose path
    elements are clean: white space is trimmed as far as it is ASCII, and
    [filepath.Join] joins with a slash, without [filepath.Clean]. *)
Definition lib : GoLib :=
  mkGoLib trimAscii (fun s => s) (fun l => String.concat "/" l) decodeVerdict
          "amd64" "linux".

(** A world in which files, parsing and the database never fail; the
    completions and the subprocesses are given. *)
Definition world (completion : nat -> string -> error + string)
    (exec : nat -> Cmd -> ProcResult) : World :=
  mkWorld completion exec
          (fun _ _ _ => None) (fun _ _ => None)
          (fun _ _ => inr "package main")
          (fun _ _ => inr ["type EchoServer interface"])
          (fun _ _ => [])
          (fun _ _ _ => None).

(** The prompt of the quality check is told by its first sentence. *)
Definition isQualityPrompt (p : string) : bool :=
  Contains p "In the above code, based on how well it seems to implement".

Definition answer (code verdict : string) (n : nat) (p : string) : error + string :=
  if isQualityPrompt p then inr verdict else inr code.

Definition succeed (n : nat) (c : Cmd) : ProcResult := Exited EmptyString None.
Definition failBuild (n : nat) (c : Cmd) : ProcResult :=
  Exited "syntax error" (Some "exit status 1").
Definition hang (n : nat) (c : Cmd) : ProcResult := Hangs.

(** Everything works at the first attempt. *)
Definition happyWorld : World :=
  world (answer "package main" (verdictJSON "good" "complete" "none")) succeed.

(** The build always fails. *)
Definition failingWorld : World :=
  world (answer "package main" (verdictJSON "good" "complete" "none")) failBuild.

(** The quality check always rejects the candidate. *)
Definition rejectingWorld : World :=
  world (answer "package main"
           (verdictJSON "bad" "unimplemented method"
                        "actually implement the functionality")) succeed.

(** The completion API is down. *)
Definition offlineWorld : World :=
  world (fun _ _ => inl "connection refused") succeed.

(** The completion API returns nothing but white space. *)
Definition blankWorld : World :=
  world (answer "   " (verdictJSON "good" "complete" "none")) succeed.

(** The quality check answers with text that is not JSON. *)
Definition chattyWorld : World :=
  world (answer "package main" "Looks fine to me.") succeed.

(** The build command never exits. *)
Definition hangingWorld : World :=
  world (answer "package main" (verdictJSON "good" "complete" "none")) hang.

(** A task as [CreateSeedling] stores it. *)
Definition fresh : Seedling := mkSeedling 7 "echo" "echoes its input" SeedlingStepProtobufs.

(** The same task as [init] finds it after a restart that came when the
    Dockerfile step had been reached. *)
Definition relaunched : Seedling :=
  mkSeedling 7 "echo" "echoes its input" SeedlingStepDockerfile.

(** A state of the loop on the server step. *)
Definition onServer : LoopState := mkLoopState 1 0 "write a server" false false.

Definition serverStage : Stage :=
  mkStage "server/main.go" "go" "sh"
          ["-c"; "go get ./... && go build -o /tmp/server ./server"].

(** A state of the loop on the first step. *)
Definition onProtobufs : LoopState :=
  mkLoopState 0 0 "write a protobufs file" false false.

Definition protoStage : Stage :=
  mkStage "protobufs/echo.proto" "proto" "protoc"
          ["-I=."; "--go_out=."; "--go-grpc_out=."; "protobufs/echo.proto"].

End Examples.

(* ------------------------------------------------------------------ *)
(** ** Further vocabulary: counting, ordering, growth                   *)
(* ------------------------------------------------------------------ *)

Definition Kind_eqb (a b : Kind) : bool :=
  match a, b with
  | KCompletion, KCompletion | KExec, KExec | KWriteFile, KWriteFile
  | KChmod, KChmod | KReadFile, KReadFile | KDefinitions, KDefinitions
  | KNonStdImports, KNonStdImports | KUpdateStep, KUpdateStep => true
  | _, _ => false
  end.

(** The number of events of the kind [k] in a trace. *)
Definition countKind (k : Kind) (tr : Trace) : nat :=
  length (filter (fun e => Kind_eqb (kind e) k) tr).

(** The string [b] is [a] with something appended. *)
Definition extends (a b : string) : Prop := exists more, b = a ++ more.

Fixpoint list_eqb {A} (eqb : A -> A -> bool) (l1 l2 : list A) : bool :=
  match l1, l2 with
  | [], [] => true
  | x :: r1, y :: r2 => eqb x y && list_eqb eqb r1 r2
  | _, _ => false
  end.

Definition Cmd_eqb (a b : Cmd) : bool :=
  (Path a =? Path b)%string && list_eqb String.eqb (Args a) (Args b) &&
  (Dir a =? Dir b)%string.

(** The event is a [git commit] of the repository that succeeded. *)
Definition isCommitted (L : GoLib) (e : Event) : bool :=
  match e with
  | EvExec c (Exited _ None) => Cmd_eqb c (gitCommit L)
  | _ => false
  end.

(** Every update of the step in [tr] comes right after a successful
    commit; [prev] is the event before [tr]. *)
Fixpoint storesFollowCommits (L : GoLib) (prev : option Event) (tr : Trace)
  : bool :=
  match tr with
  | [] => true
  | e :: rest =>
      match e with
      | EvUpdateStep _ _ _ =>
          match prev with
          | Some p => isCommitted L p
          | None => false
          end
      | _ => true
      end && storesFollowCommits L (Some e) rest
  end.

(** The events of a call of [runSeedling] that succeeds, from the write
    on: the write, the change of mode for a shell script, the build, and
    the two [git] commands, all without error. *)
Definition successEvents (L : GoLib) (file codeType data : string)
    (buildCmd : Cmd) (o1 o2 o3 : string) : Trace :=
  (EvWriteFile file data None ::
   (if (codeType =? "bash")%string then [EvChmod file None] else []) ++
   [EvExec buildCmd (Exited o1 None);
    EvExec (gitAdd L) (Exited o2 None);
    EvExec (gitCommit L) (Exited o3 None)])%list.

(** The last event of [tr], or [prev] when [tr] is empty. *)
Fixpoint lastOr (prev : option Event) (tr : Trace) : option Event :=
  match tr with
  | [] => prev
  | e :: rest => lastOr (Some e) rest
  end.

(** What the set-up of a step does to the state: the retry flag is
    clear afterwards, and the prompt is the old one with text appended,
    unless the Protobufs step is entered for the first time. *)
Definition setupKeepsPrompt (cur : string) (st : LoopState)
    (r : LoopState * Stage + Exit) : Prop :=
  match r with
  | inl (st1, _) =>
      errMode st1 = false /\
      (cur = SeedlingStepProtobufs /\ errMode st = false \/
       extends (prompt st) (prompt st1))
  | inr _ => True
  end.

(** [satN k n Q m]: from any trace, [m] appends at most [n] events of the
    kind [k], and its result satisfies [Q] when it returns. *)
Definition satN {A} (k : Kind) (n : nat) (Q : A -> Prop) (m : M A) : Prop :=
  forall tr, exists evs,
    snd (m tr) = (tr ++ evs)%list /\ countKind k evs <= n /\
    match fst (m tr) with Ret a => Q a | Stop _ => True end.

(** The largest number of iterations a run has left in the state [st]. *)
Definition iterationsLeft (st : LoopState) : nat :=
  (maxErrs - errs st) + (4 - step st) + 1.

(** How often a run may still scan the imports of the server file. *)
Definition scansLeft (st : LoopState) : nat :=
  if dumpedModDocs st then 0 else 1.

(** The events of a candidate that is written (and made executable when
    it is a shell script) without error. *)
Definition madeReady (file codeType data : string) : Trace :=
  EvWriteFile file data None ::
  (if (codeType =? "bash")%string then [EvChmod file None] else []).

(** The ways in which [runSeedling] fails once the quality check is
    behind it, for the stripped candidate [data]: the output and the error
    it returns, and the events it leaves. *)
Inductive failedAfterGate (L : GoLib) (file codeType data : string)
    (buildCmd : Cmd) : string -> error -> Trace -> Prop :=
| NoCode :
    data = EmptyString ->
    failedAfterGate L file codeType data buildCmd
      EmptyString "no code to run" []
| WriteFailed (e : error) :
    data <> EmptyString ->
    failedAfterGate L file codeType data buildCmd
      EmptyString e [EvWriteFile file data (Some e)]
| ChmodFailed (e : error) :
    data <> EmptyString -> codeType = "bash" ->
    failedAfterGate L file codeType data buildCmd
      EmptyString e [EvWriteFile file data None; EvChmod file (Some e)]
| BuildFailed (out : string) (e : error) :
    data <> EmptyString ->
    failedAfterGate L file codeType data buildCmd
      out e (madeReady file codeType data ++
             [EvExec buildCmd (Exited out (Some e))])%list
| GitAddFailed (o1 o2 : string) (e : error) :
    data <> EmptyString ->
    failedAfterGate L file codeType data buildCmd
      EmptyString e
      (madeReady file codeType data ++
       [EvExec buildCmd (Exited o1 None);
        EvExec (gitAdd L) (Exited o2 (Some e))])%list
| GitCommitFailed (o1 o2 o3 : string) (e : error) :
    data <> EmptyString ->
    failedAfterGate L file codeType data buildCmd
      EmptyString e
      (madeReady file codeType data ++
       [EvExec buildCmd (Exited o1 None);
        EvExec (gitAdd L) (Exited o2 None);
        EvExec (gitCommit L) (Exited o3 (Some e))])%list.

(** Everything works, but [git commit] finds nothing to commit. *)
Definition nothingToCommit (n : nat) (c : Cmd) : ProcResult :=
  if Cmd_eqb c (gitCommit Examples.lib)
  then Exited "nothing to commit, working tree clean" (Some "exit status 1")
  else Exited EmptyString None.

Definition unchangedWorld : World :=
  Examples.world
    (Examples.answer "package main"
       (Examples.verdictJSON "good" "complete" "none"))
    nothingToCommit.

(** What a return of [gptThread] with the exit [x] and the state [st]
    tells of the trace [tr] it leaves: the interaction that made the
    goroutine return is the last one. *)
Definition exitCause (seedling : Seedling) (x : Exit) (st : LoopState)
    (tr : Trace) : Prop :=
  match x with
  | ContainerLaunched =>
      exists pre c o,
        tr = (pre ++ [EvExec c (Exited o None)])%list /\
        Path c = "docker" /\ hd EmptyString (Args c) = "inspect"
  | DockerRunFailed =>
      exists pre c o e,
        tr = (pre ++ [EvExec c (Exited o (Some e))])%list /\
        Path c = "docker" /\ hd EmptyString (Args c) = "run"
  | OracleFailed =>
      exists pre e, tr = (pre ++ [EvCompletion (prompt st) (inl e)])%list
  | MaxErrorsExceeded => errs st = S maxErrs
  | UpdateStepFailed =>
      exists pre next e,
        tr = (pre ++ [EvUpdateStep next (ID seedling) (Some e)])%list /\
        nth_error steps (S (step st)) = Some next
  | ReadServerFailed =>
      step st = 3 /\
      exists pre f e, tr = (pre ++ [EvReadFile f (inl e)])%list
  | UnknownStep => False
  end.

(** The two assignments of [CreateSeedling] to the decoded row, before it
    is inserted and handed to [initGoRepo] and [gptThread]. *)
Definition createdSeedling (L : GoLib) (s : Seedling) : Seedling :=
  mkSeedling (ID s) (cleanFilePath L (Name s)) (Description s)
             SeedlingStepProtobufs.

(** [dirpath] and [basePath] of [initGoRepo]: the directory in which it
    lays out the repository of the seedling. *)
Definition initGoRepo_dirpath (L : GoLib) (seedling : Seedling) : string :=
  cleanFilePath L (Name seedling).
Definition initGoRepo_basePath (L : GoLib) (seedling : Seedling) : string :=
  filepathJoin L ["repos"; "default"; initGoRepo_dirpath L seedling].

(** [strings.TrimSpace] leaves a text of the safe alphabet as it is. *)
Definition trimKeepsSafe (L : GoLib) : Prop :=
  forall s, forallb_str safe_char s = true -> TrimSpace L s = s.

(** The imports that [go doc] is not asked about. *)
Definition spammy (imp : string) : bool :=
  Contains imp "protobuf" || Contains imp "logrus" ||
  Contains imp "grpc" || Contains imp "spew".

(** The imports that are documented, in their order. *)
Definition documented (imports : list string) : list string :=
  filter (fun imp => negb (spammy imp)) imports.

Definition goDocCmd (L : GoLib) (seedling : Seedling) (imp : string) : Cmd :=
  mkCmd "sh" ["-c"; "go get ./... && go doc -short " ++ imp] (repoDir L seedling).

(** The runs of [go doc] for the imports [imps], with their outputs and
    errors. *)
Fixpoint docRuns (L : GoLib) (seedling : Seedling) (imps : list string)
    (results : list StrErr) : Trace :=
  match imps, results with
  | imp :: imps', r :: results' =>
      EvExec (goDocCmd L seedling imp) (Exited (fst r) (snd r)) ::
      docRuns L seedling imps' results'
  | _, _ => []
  end.

Definition succeeded (r : StrErr) : bool :=
  match snd r with None => true | Some _ => false end.

Definition docHeader : string :=
  nl ++ "Here is some documentation that might be useful:" ++ nl.

(** What the documentation adds to the prompt. *)
Definition docText (results : list StrErr) : string :=
  if forallb succeeded results && Nat.ltb 0 (length results)
  then docHeader ++ String.concat EmptyString (map fst results)
  else EmptyString.

(** A world whose server file imports two modules; [go doc] prints a
    line for each. *)
Definition docWorld : World :=
  mkWorld (Examples.answer "package main"
             (Examples.verdictJSON "good" "complete" "none"))
          (fun _ _ => Exited "func NewRouter() *Router
" None)
          (fun _ _ _ => None) (fun _ _ => None)
          (fun _ _ => inr "package main")
          (fun _ _ => inr ["type EchoServer interface"])
          (fun _ _ => ["github.com/gorilla/mux"; "google.golang.org/grpc"])
          (fun _ _ _ => None).

(** The server step about to be retried for the first time. *)
Definition serverRetry : LoopState :=
  mkLoopState 1 1 "write a server" true false.

(* ------------------------------------------------------------------ *)
(** ** The first variant of gptThread and runSeedling                   *)
(* ------------------------------------------------------------------ *)

(** The first variant of the file has three steps before the complete
    one, a budget of five errors, no quality check and no check for an
    empty candidate; a failure that carries no output ends the run. *)
Module V1.

Definition maxErrs : nat := 5.

Definition steps : list string :=
  [SeedlingStepProtobufs; SeedlingStepServer; SeedlingStepDockerfile;
   SeedlingStepComplete].

(** [fmt.Sprintf(protoPrompt, a, b, c)]. *)
Definition protoPrompt (a b c : string) : string :=
  "
Write me a protobufs file for a method that " ++ a ++ "

Make sure to start it with lines like:

syntax = " ++ quoted "proto3" ++ ";
option go_package = " ++ quoted "./protobufs" ++ ";

The file will be called " ++ b ++ ".proto. Do not override any of my file names.

My directory layout is:

$ ls .
Dockerfile          client              docker-compose.yaml go.mod              protobufs           server

My go.mod is:

module " ++ c ++ "

go 1.19

For what it's worth. I hate comments. Let's avoid writing comments.
".

Definition protoStepPrompt (description name : string) : string :=
  protoPrompt description name name ++ "
Use markdown and include only the file requested.
" ++ fence ++ "proto".

Definition serverPrompt (prompt : string) : string :=
  prompt ++ "
Now write a server implementation for the service method(s).

1. Feel free to use external libraries, packages, and binaries. We will install
them for you.
2. Assume you are running in a Docker container (Linux).
3. Have the service listen on port 80, with insecure connection settings.

Think step by step -- what's the best way to solve the problem?

Use markdown and include only the file requested.
" ++ fence ++ "go".

Definition dockerfilePrompt (prompt : string) : string :=
  prompt ++ "
Now write a Dockerfile (multi-stage build) to build and run your server.

Use debian:bookworm-slim as the base image for both stages.

Make sure to install any external libraries, packages, and binaries you need.

Calculate the go.sum, don't COPY it.

Think step by step -- what's the best way to build the file?

Use markdown and include only the file requested.
" ++ fence ++ "dockerfile".

(** The local variables of [gptThread] that live across iterations. *)
Record LoopState : Type := mkLoopState {
  step : nat;
  errs : nat;
  prompt : string
}.

(** The places where [gptThread] returns; [Finished] is the [break] of
    the outer loop at the complete step. *)
Inductive Exit : Type :=
| Finished
| UnknownStep
| OracleFailed
| NoOutput
| MaxErrorsExceeded
| RunComplete
| UpdateStepFailed.

(** The end of an iteration of the inner [for]: [continue], the [break]
    after a step that worked, or [return]. *)
Inductive Next : Type :=
| Retry (st : LoopState)
| Advance (st : LoopState)
| Return (x : Exit) (st : LoopState).

(** The end of the inner [for]. *)
Inductive Inner : Type :=
| Advanced (st : LoopState)
| Returned (x : Exit) (st : LoopState).

Section GptThread.

Variable L : GoLib.
Variable w : World.
Variable seedling : Seedling.

(** [runSeedling]: the stripped candidate is written, whatever it is,
    then built and committed. *)
Definition runSeedling (file codeType : string) (buildCmd : Cmd)
    (gptOut : string) : M StrErr :=
  let gptOut := stripFencing L codeType gptOut in
  werr <- WriteFile w file gptOut ;;
  match werr with
  | Some e => ret (EmptyString, Some e)
  | None => buildAndCommit L w buildCmd
  end.

(** The [switch] on the current step: the prompt and the stage; [None]
    is the [default] branch. *)
Definition stageSetup (cur : string) (p : string) : option (string * Stage) :=
  if (cur =? SeedlingStepProtobufs)%string then
    let repoPath := filepathJoin L ["protobufs"; Name seedling ++ ".proto"] in
    Some (protoStepPrompt (Description seedling) (Name seedling),
          mkStage repoPath "proto" "protoc"
                  ["-I=."; "--go_out=."; "--go-grpc_out=."; repoPath])
  else if (cur =? SeedlingStepServer)%string then
    Some (serverPrompt p,
          mkStage (filepathJoin L ["server"; "main.go"]) "go" "true" [])
  else if (cur =? SeedlingStepDockerfile)%string then
    Some (dockerfilePrompt p,
          mkStage (filepathJoin L ["Dockerfile"]) "dockerfile" "docker"
                  ["buildx"; "build"; "--platform"; "linux/amd64"; "-t";
                   Name seedling; "."])
  else None.

Definition addPrompt (st : LoopState) (p : string) : LoopState :=
  mkLoopState (step st) (errs st) (prompt st ++ p).

(** One iteration of the inner [for]. *)
Definition attempt (sg : Stage) (st : LoopState) : M Next :=
  let file := filepathJoin L ["repos"; "default"; Name seedling; repoPath sg] in
  let buildCmd :=
    mkCmd (cmdCmd sg) (cmdArgs sg)
          (filepathJoin L ["repos"; "default"; Name seedling]) in
  ' (gptOutput, err) <- gpt w (prompt st) ;;
  match err with
  | Some _ => ret (Return OracleFailed st)
  | None =>
      let st := addPrompt st (nl ++ nl ++ gptOutput ++ nl ++ nl) in
      ' (output, rerr) <- runSeedling file (codeType sg) buildCmd gptOutput ;;
      match rerr with
      | Some _ =>
          if (output =? EmptyString)%string then ret (Return NoOutput st)
          else
            let st := mkLoopState (step st) (S (errs st)) (prompt st) in
            if Nat.ltb maxErrs (errs st)
            then ret (Return MaxErrorsExceeded st)
            else
              let output := lastLines 10 output in
              let st := addPrompt st
                (nl ++ nl ++ "But it was wrong. I got an error: " ++ output) in
              let st := addPrompt st
                (nl ++ nl ++ "Change the file to fix it. We'll write the whole file again. Only code. No comments.") in
              let st := addPrompt st (nl ++ nl ++ fence ++ codeType sg) in
              ret (Retry st)
      | None =>
          if Nat.eqb (step st + 1) (length steps)
          then ret (Return RunComplete st)
          else
            match nth_error steps (step st + 1) with
            | None => halt Panic
            | Some next =>
                uerr <- updateStep w next (ID seedling) ;;
                match uerr with
                | Some _ => ret (Return UpdateStepFailed st)
                | None =>
                    let st := addPrompt st
                      (nl ++ nl ++
                       "Great. That worked. Let's move on to the next step." ++
                       nl ++ nl) in
                    ret (Advance (mkLoopState (step st + 1) (errs st) (prompt st)))
                end
            end
      end
  end.

(** The inner [for], run for at most [fuel] iterations. *)
Fixpoint innerLoop (fuel : nat) (sg : Stage) (st : LoopState) : M Inner :=
  match fuel with
  | O => halt OutOfFuel
  | S fuel' =>
      n <- attempt sg st ;;
      match n with
      | Retry st' => innerLoop fuel' sg st'
      | Advance st' => ret (Advanced st')
      | Return x st' => ret (Returned x st')
      end
  end.

(** No step is tried more than [maxErrs + 1] times. *)
Definition innerFuel : nat := S maxErrs.

(** The outer [for], run for at most [fuel] iterations. *)
Fixpoint gptLoop (fuel : nat) (st : LoopState) : M (Exit * LoopState) :=
  match fuel with
  | O => halt OutOfFuel
  | S fuel' =>
      match nth_error steps (step st) with
      | None => halt Panic
      | Some cur =>
          if (cur =? SeedlingStepComplete)%string then ret (Finished, st)
          else
            match stageSetup cur (prompt st) with
            | None => ret (UnknownStep, st)
            | Some (p, sg) =>
                r <- innerLoop innerFuel sg
                       (mkLoopState (step st) (errs st) p) ;;
                match r with
                | Returned x st' => ret (x, st')
                | Advanced st' => gptLoop fuel' st'
                end
            end
      end
  end.

Definition initialState : LoopState := mkLoopState 0 0 EmptyString.

Definition gptThread : M (Exit * LoopState) :=
  gptLoop (length steps) initialState.

End GptThread.

End V1.

(** Every answered completion request is followed at once by the write
    of its stripped text, under some code type; [pending] is the answer
    still to be written when the trace starts. *)
Fixpoint candidatesWritten (L : GoLib) (pending : option string) (tr : Trace)
  : Prop :=
  match tr with
  | [] => pending = None
  | e :: rest =>
      match pending with
      | Some t => exists f ct r, e = EvWriteFile f (stripFencing L ct t) r
      | None => True
      end /\
      candidatesWritten L
        (match e with EvCompletion _ (inr t) => Some t | _ => None end) rest
  end.

(** How a run of the first variant that has stored [k] steps can end. *)
Definition v1Outcome (k : nat) (r : Res (V1.Exit * V1.LoopState)) : Prop :=
  match r with
  | Ret (x, st) =>
      V1.step st = k /\
      match x with
      | V1.Finished => k = 3 /\ V1.errs st <= V1.maxErrs
      | V1.MaxErrorsExceeded => V1.errs st = S V1.maxErrs
      | V1.OracleFailed | V1.NoOutput | V1.UpdateStepFailed =>
          k < 3 /\ V1.errs st <= V1.maxErrs
      | V1.UnknownStep | V1.RunComplete => False
      end
  | Stop h => realHalt h
  end.

(** The same, leaving open how a run that does not return stops. *)
Definition v1Returned (k : nat) (r : Res (V1.Exit * V1.LoopState)) : Prop :=
  match r with
  | Ret _ => v1Outcome k r
  | Stop _ => True
  end.

(** The build prints nothing and fails. *)
Definition failSilently (n : nat) (c : Cmd) : ProcResult :=
  Exited EmptyString (Some "exit status 1").

Definition silentWorld : World :=
  Examples.world
    (Examples.answer "package main"
       (Examples.verdictJSON "good" "complete" "none"))
    failSilently.

(** A return of the first variant that leaves the error counter as it
    was. *)
Definition v1Uncounted (x : V1.Exit) : Prop :=
  x = V1.OracleFailed \/ x = V1.NoOutput \/ x = V1.UpdateStepFailed.

(** What an iteration of the inner loop of the first variant that starts
    in [st] and appends [evs] can end in. *)
Definition v1AttemptPost (seedling : Seedling) (st : V1.LoopState)
    (evs : Trace) (r : Res V1.Next) : Prop :=
  match r with
  | Ret (V1.Retry st') =>
      storedSteps (ID seedling) evs = [] /\ V1.step st' = V1.step st /\
      V1.errs st' = S (V1.errs st) /\ V1.errs st' <= V1.maxErrs
  | Ret (V1.Advance st') =>
      exists next, nth_error V1.steps (S (V1.step st)) = Some next /\
        storedSteps (ID seedling) evs = [next] /\
        V1.step st' = S (V1.step st) /\ V1.errs st' = V1.errs st
  | Ret (V1.Return x st') =>
      storedSteps (ID seedling) evs = [] /\ V1.step st' = V1.step st /\
      (x = V1.MaxErrorsExceeded /\ V1.errs st' = S (V1.errs st) /\
       V1.maxErrs < V1.errs st' \/
       v1Uncounted x /\ V1.errs st' = V1.errs st)
  | Stop h => storedSteps (ID seedling) evs = [] /\ realHalt h
  end.

(** What the inner loop of the first variant can end in. *)
Definition v1InnerPost (seedling : Seedling) (st : V1.LoopState)
    (evs : Trace) (r : Res V1.Inner) : Prop :=
  match r with
  | Ret (V1.Advanced st') =>
      exists next, nth_error V1.steps (S (V1.step st)) = Some next /\
        storedSteps (ID seedling) evs = [next] /\
        V1.step st' = S (V1.step st) /\ V1.errs st' <= V1.maxErrs
  | Ret (V1.Returned x st') =>
      storedSteps (ID seedling) evs = [] /\ V1.step st' = V1.step st /\
      (x = V1.MaxErrorsExceeded /\ V1.errs st' = S V1.maxErrs \/
       v1Uncounted x /\ V1.errs st' <= V1.maxErrs)
  | Stop h => storedSteps (ID seedling) evs = [] /\ realHalt h
  end.

(** What a return of the first variant with the exit [x] tells of the
    trace [tr] it leaves. *)
Definition v1ExitCause (L : GoLib) (seedling : Seedling) (x : V1.Exit)
    (tr : Trace) : Prop :=
  match x with
  | V1.Finished =>
      exists pre,
        tr = (pre ++ [EvUpdateStep SeedlingStepComplete (ID seedling) None])%list
  | V1.OracleFailed =>
      exists pre p e, tr = (pre ++ [EvCompletion p (inl e)])%list
  | V1.NoOutput =>
      exists pre,
        (exists f d e, tr = (pre ++ [EvWriteFile f d (Some e)])%list) \/
        (exists c o e,
           tr = (pre ++ [EvExec c (Exited o (Some e))])%list /\
           (o = EmptyString \/ c = gitAdd L \/ c = gitCommit L))
  | V1.MaxErrorsExceeded =>
      exists pre c o e,
        tr = (pre ++ [EvExec c (Exited o (Some e))])%list /\ o <> EmptyString
  | V1.UpdateStepFailed =>
      exists pre s e,
        tr = (pre ++ [EvUpdateStep s (ID seedling) (Some e)])%list
  | V1.UnknownStep | V1.RunComplete => False
  end.

(** The trace ends with the store of the step on which the loop is. *)
Definition v1JustStored (seedling : Seedling) (st : V1.LoopState) (tr : Trace)
  : Prop :=
  exists pre next,
    tr = (pre ++ [EvUpdateStep next (ID seedling) None])%list /\
    nth_error V1.steps (V1.step st) = Some next.

(* ------------------------------------------------------------------ *)
(** ** A build that always fails, in the first variant                  *)
(* ------------------------------------------------------------------ *)

(** The trace ends with a failure that carries no output: a write that
    failed, or a command that failed without printing anything. *)
Definition endsSilently (evs : Trace) : Prop :=
  exists pre,
    (exists f d e, evs = (pre ++ [EvWriteFile f d (Some e)])%list) \/
    (exists c e, evs = (pre ++ [EvExec c (Exited EmptyString (Some e))])%list).

(** How an iteration of the inner loop of the first variant ends when
    the build cannot succeed. *)
Definition v1FailedAttempt (w : World) (st : V1.LoopState) (evs : Trace)
    (n : V1.Next) : Prop :=
  match n with
  | V1.Retry st' =>
      V1.step st' = V1.step st /\ V1.errs st' = S (V1.errs st) /\
      V1.errs st' <= V1.maxErrs
  | V1.Advance _ => False
  | V1.Return x st' =>
      V1.step st' = V1.step st /\
      (x = V1.MaxErrorsExceeded /\ V1.errs st' = S (V1.errs st) /\
         V1.maxErrs < V1.errs st' \/
       x = V1.OracleFailed /\ V1.errs st' = V1.errs st /\
         ~ oracleAlwaysAnswers w \/
       x = V1.NoOutput /\ V1.errs st' = V1.errs st /\ endsSilently evs)
  end.

(** How a run of the first variant ends when the build cannot succeed:
    [evs] is what it appends to the trace, [e0] the error counter at its
    start. *)
Definition v1FailedRun (w : World) (e0 : nat) (evs : Trace) (x : V1.Exit)
    (st : V1.LoopState) : Prop :=
  x = V1.MaxErrorsExceeded /\ V1.errs st = S V1.maxErrs /\
    completions evs + e0 = S V1.maxErrs \/
  x = V1.OracleFailed /\ V1.errs st <= V1.maxErrs /\
    completions evs + e0 = S (V1.errs st) /\ ~ oracleAlwaysAnswers w \/
  x = V1.NoOutput /\ V1.errs st <= V1.maxErrs /\
    completions evs + e0 = S (V1.errs st) /\ endsSilently evs.

(** The build prints a message and fails; [git] works. *)
Definition failBuildOnly (n : nat) (c : Cmd) : ProcResult :=
  if (Path c =? "git")%string then Exited EmptyString None
  else Exited "syntax error" (Some "exit status 1").

Definition brokenBuildWorld : World :=
  Examples.world
    (Examples.answer "package main"
       (Examples.verdictJSON "good" "complete" "none"))
    failBuildOnly.

(* ------------------------------------------------------------------ *)
(** ** What the first variant counts                                    *)
(* ------------------------------------------------------------------ *)

(** A failure for which [runSeedling] of the first variant returns no
    output: a write that failed, a command that failed without printing
    anything, and [git] failing, whatever it printed. *)
Definition v1Silent (e : Event) : bool :=
  match e with
  | EvWriteFile _ _ (Some _) => true
  | EvExec c (Exited o (Some _)) =>
      (o =? EmptyString)%string || (Path c =? "git")%string
  | _ => false
  end.

(** A failure for which it returns output: a command other than [git]
    that failed and printed something. *)
Definition v1Loud (e : Event) : bool :=
  match e with
  | EvExec c (Exited o (Some _)) =>
      negb ((o =? EmptyString)%string || (Path c =? "git")%string)
  | _ => false
  end.

(** The number of failures with output in a trace. *)
Definition v1Counted (tr : Trace) : nat := length (filter v1Loud tr).

Definition noSilent (evs : Trace) : Prop :=
  Forall (fun e => v1Silent e = false) evs.

Definition v1IsNoOutput (x : V1.Exit) : bool :=
  match x with V1.NoOutput => true | _ => false end.

(** [evs] takes the error counter from [e0] to [e1] by its failures with
    output; it has no failure without output, but for its last event when
    [silentEnd] is set. *)
Definition v1Tally (e0 : nat) (evs : Trace) (silentEnd : bool) (e1 : nat)
  : Prop :=
  e1 = e0 + v1Counted evs /\
  if silentEnd
  then exists pre ev,
         evs = (pre ++ [ev])%list /\ noSilent pre /\ v1Silent ev = true
  else noSilent evs.

Definition v1AttemptTally (st : V1.LoopState) (evs : Trace) (r : Res V1.Next)
  : Prop :=
  match r with
  | Ret (V1.Retry st') | Ret (V1.Advance st') =>
      v1Tally (V1.errs st) evs false (V1.errs st')
  | Ret (V1.Return x st') =>
      v1Tally (V1.errs st) evs (v1IsNoOutput x) (V1.errs st')
  | Stop _ => noSilent evs
  end.

Definition v1InnerTally (st : V1.LoopState) (evs : Trace) (r : Res V1.Inner)
  : Prop :=
  match r with
  | Ret (V1.Advanced st') => v1Tally (V1.errs st) evs false (V1.errs st')
  | Ret (V1.Returned x st') =>
      v1Tally (V1.errs st) evs (v1IsNoOutput x) (V1.errs st')
  | Stop _ => noSilent evs
  end.

Definition v1RunTally (e0 : nat) (evs : Trace)
    (r : Res (V1.Exit * V1.LoopState)) : Prop :=
  match r with
  | Ret (x, st') => v1Tally e0 evs (v1IsNoOutput x) (V1.errs st')
  | Stop _ => noSilent evs
  end.

(* ------------------------------------------------------------------ *)
(** ** The prototype: gpt_thread and runAndClassify                     *)
(* ------------------------------------------------------------------ *)

(** The command line prototype of the session server: a candidate
    program is generated, formatted, written to a temporary file and run
    with [go run]; its error or its output goes back into the thread. *)
Module Prototype.

(** What [cmd.Run] gives for [go run]: the two buffers and the error of
    [Wait], or nothing when the program never exits. *)
Inductive RunResult : Type :=
| Ran (stdout stderr : string) (err : option error)
| NeverExits.

(** The outside of the prototype; as in [World], an answer may depend
    on the number of interactions before it, and every call returns but
    for [go run], which may never exit.  [format.Source] is a function of
    its argument. *)
Record Lab : Type := mkLab {
  (** [c.CreateCompletion]: the error, or the texts of the choices of the
      response, which may be none *)
  lab_CreateCompletion : nat -> string -> error + list string;
  lab_formatSource : string -> error + string;
  (** [os.CreateTemp]: the error, or the name of the file *)
  lab_CreateTemp : nat -> error + string;
  lab_Write : nat -> string -> string -> option error;
  lab_Close : nat -> string -> option error;
  lab_goRun : nat -> string -> RunResult
}.

Inductive Ev : Type :=
| Asked (prompt : string) (r : error + list string)
| TempCreated (r : error + string)
| TempWritten (name data : string) (r : option error)
| TempClosed (name : string) (r : option error)
| GoRun (name : string) (r : RunResult)
| TempRemoved (name : string).

Definition Log : Type := list Ev.

(** A [map[string]string], and [m[k]]: the empty string for a key that
    is not there. *)
Definition GoMap : Type := list (string * string).
Definition mapIndex (m : GoMap) (k : string) : string :=
  match find (fun kv => (fst kv =? k)%string) m with
  | Some kv => snd kv
  | None => EmptyString
  end.

(** The map returned on an error. *)
Definition failed (e : string) : GoMap :=
  [("error", e); ("output", EmptyString)].

Definition goRunCmd (name : string) : Cmd := mkCmd "go" ["run"; name] EmptyString.

Section Run.

Variable lab : Lab.

(** [gpt]: the empty string when the request fails, the text of the
    first choice otherwise; [resp.Choices[0]] panics on a response that
    has no choice. *)
Definition gpt (prompt : string) (tr : Log) : Res string * Log :=
  let r := lab_CreateCompletion lab (length tr) prompt in
  (match r with
   | inl _ => Ret EmptyString
   | inr [] => Stop Panic
   | inr (text :: _) => Ret text
   end,
   (tr ++ [Asked prompt r])%list).

(** [runAndClassify] once the temporary file exists. *)
Definition runTemp (name code : string) (tr : Log) : Res GoMap * Log :=
  let wr := lab_Write lab (length tr) name code in
  let tr := (tr ++ [TempWritten name code wr])%list in
  match wr with
  | Some e => (Ret (failed e), tr)
  | None =>
      let cl := lab_Close lab (length tr) name in
      let tr := (tr ++ [TempClosed name cl])%list in
      match cl with
      | Some e => (Ret (failed e), tr)
      | None =>
          let r := lab_goRun lab (length tr) name in
          let tr := (tr ++ [GoRun name r])%list in
          match r with
          | NeverExits => (Stop (Blocked (goRunCmd name)), tr)
          | Ran stdout stderr (Some _) => (Ret (failed stderr), tr)
          | Ran stdout stderr None =>
              (Ret [("error", EmptyString); ("output", stdout)], tr)
          end
      end
  end.

(** The candidate without its fence, as [runAndClassify] formats it. *)
Definition unfenced (code : string) : string :=
  TrimSuffix (TrimPrefix code (fence ++ "go")) fence.

(** [runAndClassify]; the deferred [os.Remove] runs when the function
    returns. *)
Definition runAndClassify (code : string) (tr : Log) : Res GoMap * Log :=
  let code := unfenced code in
  match lab_formatSource lab code with
  | inl e => (Ret (failed e), tr)
  | inr formatted =>
      let t := lab_CreateTemp lab (length tr) in
      let tr := (tr ++ [TempCreated t])%list in
      match t with
      | inl e => (Ret (failed e), tr)
      | inr name =>
          match runTemp name formatted tr with
          | (Ret m, tr) => (Ret m, (tr ++ [TempRemoved name])%list)
          | (Stop h, tr) => (Stop h, tr)
          end
      end
  end.

Definition maxRuns : nat := 5.
Definition threadStartSeq : string := fence ++ "go".

Definition isFinishedPrompt (gptOutput output expectedOutput : string) : string :=
  "I ran this code:" ++ nl ++ nl ++ gptOutput ++ nl ++ nl ++
  "And got this output:" ++ nl ++ nl ++ output ++ nl ++ nl ++
  "My expected output was this:" ++ nl ++ nl ++ expectedOutput ++
  "Return the word yes or no to indicate if I got the correct output." ++
  nl ++ nl ++ "Answer:".

(** The [for] loop of [gpt_thread] with [n] runs left. *)
Fixpoint runs (n : nat) (expectedOutput thread : string) (tr : Log)
  : Res string * Log :=
  match n with
  | O => (Ret EmptyString, tr)
  | S n' =>
      match gpt thread tr with
      | (Stop h, tr) => (Stop h, tr)
      | (Ret gptOutput, tr) =>
          match runAndClassify gptOutput tr with
          | (Stop h, tr) => (Stop h, tr)
          | (Ret exec, tr) =>
              if negb (mapIndex exec "error" =? EmptyString)%string
              then
                let thread :=
                  thread ++ nl ++ nl ++ "I got this error: " ++
                  mapIndex exec "error" in
                let thread :=
                  thread ++ nl ++ nl ++
                  "Here is the fix for the error. Use Markdown." in
                let thread := thread ++ threadStartSeq in
                runs n' expectedOutput thread tr
              else
                let thread :=
                  thread ++ nl ++ nl ++ "I got this output: " ++
                  mapIndex exec "output" in
                let p := isFinishedPrompt gptOutput (mapIndex exec "output")
                                          expectedOutput in
                match gpt p tr with
                | (Stop h, tr) => (Stop h, tr)
                | (Ret isFinished, tr) =>
                    if (isFinished =? "yes")%string then (Ret gptOutput, tr)
                    else
                      runs n' expectedOutput
                        (thread ++ p ++ nl ++ nl ++
                         "I got the wrong output. Provide a fix to get the expected output. Use Markdown." ++
                         nl ++ nl ++ threadStartSeq) tr
                end
          end
      end
  end.

Definition gpt_thread (seedlingDesc expectedOutput : string) (tr : Log)
  : Res string * Log :=
  runs maxRuns expectedOutput
       (seedlingDesc ++ " Use markdown." ++ nl ++ nl ++ threadStartSeq) tr.

End Run.

(** The number of completion requests in a log. *)
Definition asked (tr : Log) : nat :=
  length (filter (fun e => match e with Asked _ _ => true | _ => false end) tr).

(** What [gpt] makes of the answer to a request that is in the log;
    [None] when it panics. *)
Definition replyText (r : error + list string) : option string :=
  match r with
  | inl _ => Some EmptyString
  | inr [] => None
  | inr (text :: _) => Some text
  end.

(** What a call of [runAndClassify] appends to the log and how it ends,
    by the result [formatted] of [format.Source] on the candidate without
    its fence: every path of the function, with the file that is created,
    written, closed, run and removed, and the map that is returned. *)
Definition classified (formatted : error + string) (evs : Log) (r : Res GoMap)
  : Prop :=
  match formatted with
  | inl e => evs = [] /\ r = Ret (failed e)
  | inr src =>
      (exists e, evs = [TempCreated (inl e)] /\ r = Ret (failed e)) \/
      exists name,
        (exists e,
           evs = [TempCreated (inr name); TempWritten name src (Some e);
                  TempRemoved name] /\
           r = Ret (failed e)) \/
        (exists e,
           evs = [TempCreated (inr name); TempWritten name src None;
                  TempClosed name (Some e); TempRemoved name] /\
           r = Ret (failed e)) \/
        (exists stdout stderr e,
           evs = [TempCreated (inr name); TempWritten name src None;
                  TempClosed name None;
                  GoRun name (Ran stdout stderr (Some e));
                  TempRemoved name] /\
           r = Ret (failed stderr)) \/
        (exists stdout stderr,
           evs = [TempCreated (inr name); TempWritten name src None;
                  TempClosed name None; GoRun name (Ran stdout stderr None);
                  TempRemoved name] /\
           r = Ret [("error", EmptyString); ("output", stdout)]) \/
        (evs = [TempCreated (inr name); TempWritten name src None;
                TempClosed name None; GoRun name NeverExits] /\
         r = Stop (Blocked (goRunCmd name)))
  end.

(** What [gpt_thread] has done when it ends with the log [tr], with [n]
    runs allowed.  It returns the empty string after [n] runs, each with
    a request of its own.  A candidate that is returned before was the
    text of the answer to a request; it was run by [runAndClassify],
    which returned a map [exec] without an error; and the last request,
    which shows the candidate, the output in [exec] and the expected
    output, was answered by the word yes.  A run that does not return is
    waiting for [go run], or has panicked on a response without
    choices. *)
Definition checked (lab : Lab) (expectedOutput : string) (n : nat) (tr : Log)
    (r : Res string) : Prop :=
  match r with
  | Ret c =>
      (c = EmptyString /\ n <= asked tr) \/
      exists pre thread a evs exec y,
        tr = (pre ++ Asked thread a :: evs ++
              [Asked (isFinishedPrompt c (mapIndex exec "output") expectedOutput)
                     y])%list /\
        replyText a = Some c /\
        classified (lab_formatSource lab (unfenced c)) evs (Ret exec) /\
        mapIndex exec "error" = EmptyString /\
        replyText y = Some "yes"
  | Stop h =>
      (exists pre name,
         h = Blocked (goRunCmd name) /\
         tr = (pre ++ [GoRun name NeverExits])%list) \/
      (exists pre p,
         h = Panic /\ tr = (pre ++ [Asked p (inr [])])%list)
  end.

End Prototype.

(** [satE P Q m]: from any trace, every event that [m] appends satisfies
    [P], and its result satisfies [Q] when it returns. *)
Definition satE {A} (P : Event -> Prop) (Q : A -> Prop) (m : M A) : Prop :=
  forall tr, exists evs,
    snd (m tr) = (tr ++ evs)%list /\ Forall P evs /\
    match fst (m tr) with Ret a => Q a | Stop _ => True end.

(** The files of the four steps, relative to the directory of the task. *)
Definition stagePaths (L : GoLib) (seedling : Seedling) : list string :=
  [filepathJoin L ["protobufs"; Name seedling ++ ".proto"];
   filepathJoin L ["server"; "main.go"];
   filepathJoin L ["Dockerfile"];
   filepathJoin L ["example-client-call.sh"]].

(** The file [f] is the file of a step in the directory of the task. *)
Definition isStageFile (L : GoLib) (seedling : Seedling) (f : string) : Prop :=
  exists p, In p (stagePaths L seedling) /\
            f = filepathJoin L ["repos"; "default"; Name seedling; p].

(** The tags of the fences that the prompts open. *)
Definition fenceTags : list string :=
  ["protobuf"; "go"; "dockerfile"; "bash"; "json"].

(** The prompt ends with an opened fence. *)
Definition endsWithOpenFence (p : string) : Prop :=
  exists body tag, In tag fenceTags /\ p = body ++ fence ++ tag ++ nl.

(** Where a command of a run is run: in the directory of the task, in
    the directory of the repositories, or, for [docker], in the directory
    of the process. *)
Definition runsInPlace (L : GoLib) (seedling : Seedling) (c : Cmd) : Prop :=
  Dir c = repoDir L seedling \/
  Dir c = filepathJoin L ["repos"; "default"] \/
  (Path c = "docker" /\ Dir c = EmptyString).

(** What every interaction of a run of [gptThread] for a task looks
    like. *)
Definition inBounds (L : GoLib) (seedling : Seedling) (e : Event) : Prop :=
  match e with
  | EvCompletion p _ => endsWithOpenFence p
  | EvWriteFile f _ _ => isStageFile L seedling f
  | EvChmod f _ => isStageFile L seedling f
  | EvExec c _ => runsInPlace L seedling c
  | EvReadFile f _ =>
      f = filepathJoin L ["repos"; "default"; Name seedling; "server"; "main.go"]
  | EvDefinitions f _ =>
      f = filepathJoin L ["repos"; "default"; Name seedling; "protobufs";
                          Name seedling ++ ".pb.go"] \/
      f = filepathJoin L ["repos"; "default"; Name seedling; "protobufs";
                          Name seedling ++ "_grpc.pb.go"]
  | EvNonStdImports f _ =>
      f = filepathJoin L ["repos"; "default"; Name seedling; "server"; "main.go"]
  | EvUpdateStep s id _ => id = ID seedling /\ In s steps
  end.

(** The stage that a set-up fixes is one of the four, and the prompt it
    leaves ends with an opened fence. *)
Definition stageInBounds (L : GoLib) (seedling : Seedling)
    (r : LoopState * Stage + Exit) : Prop :=
  match r with
  | inl (st1, sg) =>
      In (repoPath sg) (stagePaths L seedling) /\ endsWithOpenFence (prompt st1)
  | inr _ => True
  end.

(** Candidates are generated, but the requests of the quality check
    fail. *)
Definition gateDownWorld : World :=
  Examples.world
    (fun _ p => if Examples.isQualityPrompt p then inl "timeout"
                else inr "package main")
    Examples.succeed.

(* ------------------------------------------------------------------ *)
(** ** gptThread and runSeedling of garden/main.go                      *)
(* ------------------------------------------------------------------ *)

(** The variant of garden/main.go: one loop over three steps and the
    complete one, a budget of five errors, no quality check; the prompt of
    a step is built anew at every iteration. *)
Module MainGo.

Definition maxErrs : nat := 5.

Definition steps : list string :=
  [SeedlingStepProtobufs; SeedlingStepServer; SeedlingStepDockerfile;
   SeedlingStepComplete].

(** [fmt.Sprintf(protoPrompt, a, b, c)]. *)
Definition protoPrompt (a b c : string) : string :=
  "
Write me a protobufs file for a gRPC method that " ++ a ++ "

Make sure to start it with lines like:

syntax = " ++ quoted "proto3" ++ ";
option go_package = " ++ quoted "./protobufs" ++ ";

The file will be called " ++ b ++ ".proto. Do not override any of my file names.

My directory layout is:

$ ls .
Dockerfile          client              docker-compose.yaml go.mod              protobufs           server

My go.mod is:

module " ++ c ++ "

go 1.19

There are some arguments and variations that a user will be likely to request.
Make sure to include them.
".

(** The prompt of the Protobufs step: it does not use the prompt so
    far. *)
Definition protoStepPrompt (description name : string) : string :=
  protoPrompt description name name ++ "
Write the code. Write only the code.
" ++ fence ++ "protobuf".

Definition serverPrompt (prompt libDefs protoBufDefs grpcDefs : string) : string :=
  prompt ++ "
Now we will write a server implementation for the service method(s).

Here are library methods etc. that might be useful:

" ++ libDefs ++ "

Some of the generated protobuf code looks like this:

" ++ protoBufDefs ++ "

And the gRPC:

" ++ grpcDefs ++ "

1. We can use external libraries, packages, and binaries.
2. We assume we are running in a Docker container (Linux).
3. We will have the service listen on port 8000, with insecure connection
   settings.
4. Our code will be efficient, and performant. It will use relevant algorithms
   and data structures.
5. In the same file, also include an HTTP server that will listen on port 8001,
   take in JSON equivalent to the gRPC call, and call the equivalent gRPC
   server method.

Think step by step -- what's the best way to solve the problem?

Make sure it's an actual production implementation of the service.

Implement everything. Don't leave anything out.

Make sure to include all imports you need in the import section. Double check
those imports.

Write the code. Write only the code.
" ++ fence ++ "go".

Definition dockerfilePrompt (prompt : string) : string :=
  prompt ++ "
Now write a Dockerfile (multi-stage build) to build and run your server.

Here is an example:

FROM debian:bookworm-slim AS builder

RUN apt-get update && apt-get install -y --no-install-recommends \
  golang \
  git \
  protobuf-compiler \
  ca-certificates
WORKDIR /app
COPY go.mod .
RUN go mod tidy && go mod download
COPY protobufs/<service>.proto protobufs/
RUN go install google.golang.org/protobuf/cmd/protoc-gen-go@latest && \
  go install google.golang.org/grpc/cmd/protoc-gen-go-grpc@latest
ENV PATH=" ++ quoted "/root/go/bin:${PATH}" ++ "
RUN protoc --go_out=. --go_opt=paths=source_relative \
  --go-grpc_out=. --go-grpc_opt=paths=source_relative \
  protobufs/<service>.proto
COPY server/*.go .
RUN go get ./...
RUN go build -o server .

FROM debian:bookworm-slim

RUN apt-get update && apt-get install -y --no-install-recommends \
  <package_1> \
  <package_2>
COPY --from=builder /app/server /app/server
WORKDIR /app
CMD [" ++ quoted "./server" ++ "]

Make sure to install any external libraries, packages, and binaries you need.

Make sure to include this line:

RUN go get ./...

Think step by step -- what's the best way to build the file?

Write the code. Write only the code.
" ++ fence ++ "dockerfile".

(** The local variables of [gptThread] that live across iterations. *)
Record LoopState : Type := mkLoopState {
  step : nat;
  errs : nat;
  prompt : string
}.

(** The places where [gptThread] returns; [Finished] is the [break] at
    the complete step. *)
Inductive Exit : Type :=
| Finished
| UnknownStep
| OracleFailed
| NoOutput
| MaxErrorsExceeded
| RunComplete
| UpdateStepFailed.

(** The end of an iteration of the [for]. *)
Inductive Next : Type :=
| Continue (st : LoopState)
| Return (x : Exit) (st : LoopState).

Section GptThread.

Variable L : GoLib.
Variable w : World.
(** [getNonStandardLibraryDefinitionsFromFile]: the packages of the file
    are loaded and their definitions listed. *)
Variable libraryDefinitions : nat -> string -> error + list string.
Variable seedling : Seedling.

Definition getNonStandardLibraryDefinitionsFromFile (file : string)
  : M (error + list string) :=
  fun tr =>
    let r := libraryDefinitions (length tr) file in
    (Ret r, tr ++ [EvDefinitions file r])%list.

(** [runSeedling]: the stripped candidate is written, whatever it is,
    then built and committed. *)
Definition runSeedling (file codeType : string) (buildCmd : Cmd)
    (gptOut : string) : M StrErr :=
  let gptOut := stripFencing L codeType gptOut in
  werr <- WriteFile w file gptOut ;;
  match werr with
  | Some e => ret (EmptyString, Some e)
  | None => buildAndCommit L w buildCmd
  end.

(** The [switch] on the current step: the prompt and the stage; [None]
    is the [default] branch. *)
Definition stageSetup (cur : string) (p : string) : M (option (string * Stage)) :=
  if (cur =? SeedlingStepProtobufs)%string then
    let repoPath := filepathJoin L ["protobufs"; Name seedling ++ ".proto"] in
    ret (Some (protoStepPrompt (Description seedling) (Name seedling),
               mkStage repoPath "proto" "protoc"
                       ["-I=."; "--go_out=."; "--go-grpc_out=."; repoPath]))
  else if (cur =? SeedlingStepServer)%string then
    let protoFile := filepathJoin L
      ["repos"; "default"; Name seedling; "protobufs"; Name seedling ++ ".pb.go"] in
    r <- getStructAndInterfaceDefinitionsFromFile w protoFile ;;
    match r with
    | inl err => halt (Fatal err)
    | inr protoBufDefs =>
        let grpcFile := filepathJoin L
          ["repos"; "default"; Name seedling; "protobufs";
           Name seedling ++ "_grpc.pb.go"] in
        r <- getStructAndInterfaceDefinitionsFromFile w grpcFile ;;
        match r with
        | inl err => halt (Fatal err)
        | inr grpcDefs =>
            let serverFile := filepathJoin L
              ["repos"; "default"; Name seedling; "protobufs"; "server";
               "main.go"] in
            r <- getNonStandardLibraryDefinitionsFromFile serverFile ;;
            match r with
            | inl err => halt (Fatal err)
            | inr libDefs =>
                ret (Some (serverPrompt p (Join libDefs nl)
                             (Join protoBufDefs nl) (Join grpcDefs nl),
                           mkStage (filepathJoin L ["server"; "main.go"]) "go" "sh"
                             ["-c";
                              "go get ./... && go build -o /tmp/server ./server"]))
            end
        end
    end
  else if (cur =? SeedlingStepDockerfile)%string then
    let cmdArgs :=
      if (GOARCH L =? "arm64")%string && (GOOS L =? "darwin")%string
      then ["buildx"; "build"; "--platform"; "linux/amd64"; "-t"; Name seedling; "."]
      else ["build"; "-t"; Name seedling; "."] in
    ret (Some (dockerfilePrompt p,
               mkStage (filepathJoin L ["Dockerfile"]) "dockerfile" "docker"
                       cmdArgs))
  else ret None.

Definition addPrompt (st : LoopState) (p : string) : LoopState :=
  mkLoopState (step st) (errs st) (prompt st ++ p).

(** An iteration from the call of [gpt] on. *)
Definition attempt (sg : Stage) (st : LoopState) : M Next :=
  let file := filepathJoin L ["repos"; "default"; Name seedling; repoPath sg] in
  let buildCmd :=
    mkCmd (cmdCmd sg) (cmdArgs sg)
          (filepathJoin L ["repos"; "default"; Name seedling]) in
  ' (gptOutput, err) <- gpt w (prompt st) ;;
  match err with
  | Some _ => ret (Return OracleFailed st)
  | None =>
      ' (output, rerr) <- runSeedling file (codeType sg) buildCmd gptOutput ;;
      match rerr with
      | Some _ =>
          if (output =? EmptyString)%string then ret (Return NoOutput st)
          else
            let st := mkLoopState (step st) (S (errs st)) (prompt st) in
            if Nat.ltb maxErrs (errs st)
            then ret (Return MaxErrorsExceeded st)
            else
              let output := lastLines 25 output in
              let st := addPrompt st
                (fence ++ "This code didn't work:" ++ nl ++ fence ++
                 codeType sg ++ nl ++ gptOutput ++ fence ++ nl ++ nl ++
                 "It got an error: " ++ nl ++ output) in
              let st := addPrompt st
                (nl ++ nl ++ "Fix the code. I'll repeat the specification below." ++
                 nl) in
              ret (Continue st)
      | None =>
          if Nat.eqb (step st + 1) (length steps)
          then ret (Return RunComplete st)
          else
            match nth_error steps (step st + 1) with
            | None => halt Panic
            | Some next =>
                uerr <- updateStep w next (ID seedling) ;;
                match uerr with
                | Some _ => ret (Return UpdateStepFailed st)
                | None =>
                    let st := addPrompt st (nl ++ nl ++ gptOutput ++ nl ++ nl) in
                    let st := addPrompt st
                      (fence ++ nl ++ nl ++
                       "Great. That worked. Let's move on to the next step." ++
                       nl ++ nl) in
                    ret (Continue (mkLoopState (step st + 1) (errs st) (prompt st)))
                end
            end
      end
  end.

(** One iteration of the [for]. *)
Definition iteration (st : LoopState) : M Next :=
  match nth_error steps (step st) with
  | None => halt Panic
  | Some cur =>
      if (cur =? SeedlingStepComplete)%string then ret (Return Finished st)
      else
        r <- stageSetup cur (prompt st) ;;
        match r with
        | None => ret (Return UnknownStep st)
        | Some (p, sg) => attempt sg (mkLoopState (step st) (errs st) p)
        end
  end.

(** The [for], run for at most [fuel] iterations. *)
Fixpoint gptLoop (fuel : nat) (st : LoopState) : M (Exit * LoopState) :=
  match fuel with
  | O => halt OutOfFuel
  | S fuel' =>
      n <- iteration st ;;
      match n with
      | Return x st' => ret (x, st')
      | Continue st' => gptLoop fuel' st'
      end
  end.

Definition initialState : LoopState := mkLoopState 0 0 EmptyString.

(** No run takes more than [maxErrs + 1 + length steps] iterations. *)
Definition gptThreadFuel : nat := S maxErrs + length steps.

Definition gptThread : M (Exit * LoopState) :=
  gptLoop gptThreadFuel initialState.

End GptThread.

End MainGo.

(** The events of [tr] before the first step that is stored. *)
Fixpoint beforeFirstStore (tr : Trace) : Trace :=
  match tr with
  | [] => []
  | EvUpdateStep _ _ None :: _ => []
  | e :: rest => e :: beforeFirstStore rest
  end.

(** The event is not a completion request, or it is one for the prompt
    [p]. *)
Definition asksOnly (p : string) (e : Event) : Prop :=
  match e with
  | EvCompletion q _ => q = p
  | _ => True
  end.

(** How a run of the variant of garden/main.go that has stored [k] steps
    can end. *)
Definition mainGoOutcome (k : nat) (r : Res (MainGo.Exit * MainGo.LoopState))
  : Prop :=
  match r with
  | Ret (x, st) =>
      MainGo.step st = k /\
      match x with
      | MainGo.Finished => k = 3 /\ MainGo.errs st <= MainGo.maxErrs
      | MainGo.MaxErrorsExceeded => MainGo.errs st = S MainGo.maxErrs
      | MainGo.OracleFailed | MainGo.NoOutput | MainGo.UpdateStepFailed =>
          k < 3 /\ MainGo.errs st <= MainGo.maxErrs
      | MainGo.UnknownStep | MainGo.RunComplete => False
      end
  | Stop h => realHalt h
  end.

(** The same, leaving open how a run that does not return stops. *)
Definition mainGoReturned (k : nat) (r : Res (MainGo.Exit * MainGo.LoopState))
  : Prop :=
  match r with
  | Ret _ => mainGoOutcome k r
  | Stop _ => True
  end.

(** What an iteration of the variant of garden/main.go that starts in
    [st] and appends [evs] can end in. *)
Definition mainGoIterationPost (seedling : Seedling) (st : MainGo.LoopState)
    (evs : Trace) (r : Res MainGo.Next) : Prop :=
  match r with
  | Ret (MainGo.Continue st') =>
      (storedSteps (ID seedling) evs = [] /\
       beforeFirstStore evs = evs /\
       MainGo.step st' = MainGo.step st /\
       MainGo.errs st' = S (MainGo.errs st) /\
       MainGo.errs st' <= MainGo.maxErrs) \/
      (exists next pre,
         nth_error MainGo.steps (S (MainGo.step st)) = Some next /\
         evs = (pre ++ [EvUpdateStep next (ID seedling) None])%list /\
         storedSteps (ID seedling) pre = [] /\
         beforeFirstStore pre = pre /\
         MainGo.step st' = S (MainGo.step st) /\
         MainGo.errs st' = MainGo.errs st)
  | Ret (MainGo.Return x st') =>
      storedSteps (ID seedling) evs = [] /\ beforeFirstStore evs = evs /\
      MainGo.step st' = MainGo.step st /\
      (x = MainGo.MaxErrorsExceeded /\ MainGo.errs st' = S (MainGo.errs st) /\
       MainGo.maxErrs < MainGo.errs st' \/
       (x = MainGo.OracleFailed \/ x = MainGo.NoOutput \/
        x = MainGo.UpdateStepFailed) /\
       MainGo.errs st' = MainGo.errs st)
  | Stop h =>
      storedSteps (ID seedling) evs = [] /\ beforeFirstStore evs = evs /\
      realHalt h
  end.

(** The start of [CreateSeedling] once the body is decoded: a request
    without a name is refused ([None], the answer with status 400), any
    other row gets its name cleaned and its step set. *)
Definition CreateSeedling_row (L : GoLib) (s : Seedling) : option Seedling :=
  if (Name s =? EmptyString)%string then None
  else Some (createdSeedling L s).

(** A byte that [cleanFilePath] drops: not a space (spaces become
    underscores) and matched by the expression. *)
Definition dropped (c : ascii) : bool :=
  negb (Ascii.eqb " "%char c) && negb (keptByInvalidCharsRegex c).

(* ------------------------------------------------------------------ *)
(** ** Tactics                                                          *)
(* ------------------------------------------------------------------ *)

Ltac st_simpl :=
  cbn [step errs prompt errMode dumpedModDocs appendPrompt setPrompt clearErrMode].

Ltac solve_only :=
  unfold only; repeat (apply Forall_cons; [simpl; tauto|]); apply Forall_nil.

(* ------------------------------------------------------------------ *)
(** ** Properties of the string functions                               *)
(* ------------------------------------------------------------------ *)

Section StringFacts.

Lemma forallb_filter_str (p : ascii -> bool) (s : string) :
  forallb_str p (filter_str p s) = true.
Proof.
  induction s as [|c r IH]; simpl; [reflexivity|].
  destruct (p c) eqn:E; simpl; [rewrite E|]; exact IH.
Qed.

Lemma forallb_str_impl (p q : ascii -> bool) (s : string) :
  (forall c, p c = true -> q c = true) ->
  forallb_str p s = true -> forallb_str q s = true.
Proof.
  intros Hpq. induction s as [|c r IH]; simpl; [reflexivity|].
  rewrite andb_true_iff. intros [Hc Hr].
  rewrite (Hpq c Hc). exact (IH Hr).
Qed.

Lemma forallb_map_str (p q : ascii -> bool) (f : ascii -> ascii) (s : string) :
  (forall c, p c = true -> q (f c) = true) ->
  forallb_str p s = true -> forallb_str q (map_str f s) = true.
Proof.
  intros Hpq. induction s as [|c r IH]; simpl; [reflexivity|].
  rewrite andb_true_iff. intros [Hc Hr].
  rewrite (Hpq c Hc). exact (IH Hr).
Qed.

(** The bytes the expression leaves are ASCII. *)
Lemma kept_is_ascii (c : ascii) :
  keptByInvalidCharsRegex c = true -> is_ascii_byte c = true.
Proof.
  destruct c as [[] [] [] [] [] [] [] []]; vm_compute; intros H;
    first [reflexivity | discriminate H].
Qed.

(** Lowering a byte the expression leaves gives a safe byte. *)
Lemma kept_lower_safe (c : ascii) :
  keptByInvalidCharsRegex c = true -> safe_char (lower_byte c) = true.
Proof.
  destruct c as [[] [] [] [] [] [] [] []]; vm_compute; intros H;
    first [reflexivity | discriminate H].
Qed.

Lemma ToLower_removeInvalidChars_safe (L : GoLib) (s : string) :
  forallb_str safe_char (ToLower L (removeInvalidChars s)) = true.
Proof.
  unfold ToLower, removeInvalidChars.
  pose proof (forallb_filter_str keptByInvalidCharsRegex s) as Hk.
  rewrite (forallb_str_impl _ _ _ kept_is_ascii Hk).
  exact (forallb_map_str _ _ _ _ kept_lower_safe Hk).
Qed.

End StringFacts.

(** C10.  Whatever the name is (and whatever the library's white space
    and Unicode tables are), every byte of [cleanFilePath name] is a lower
    case letter, a digit, [-], [_] or [.]; so no space and no upper case
    letter is left.  The same holds of the variant without the trimming
    and of the one that turns spaces into dashes. *)
Theorem cleanFilePath_safe_alphabet :
  forall (L : GoLib) (name : string),
    forallb_str safe_lower_nospace (cleanFilePath L name) = true /\
    forallb_str safe_lower_nospace (cleanFilePath_untrimmed L name) = true /\
    forallb_str safe_lower_nospace (cleanFilePath_dash L name) = true.
Proof.
  assert (Hsafe : forall c, safe_char c = true -> safe_lower_nospace c = true).
  { intros c. destruct c as [[] [] [] [] [] [] [] []]; vm_compute; intros H;
      first [reflexivity | discriminate H]. }
  intros L name. repeat split;
    apply (forallb_str_impl _ _ _ Hsafe), ToLower_removeInvalidChars_safe.
Qed.

(* ------------------------------------------------------------------ *)
(** ** Lines of the build output                                        *)
(* ------------------------------------------------------------------ *)

Section Lines.

Lemma append_assoc_str (a b c : string) : (a ++ b) ++ c = a ++ (b ++ c).
Proof. induction a as [|x a IH]; simpl; [reflexivity | now rewrite IH]. Qed.

Lemma append_nil_r_str (a : string) : a ++ EmptyString = a.
Proof. induction a as [|x a IH]; simpl; [reflexivity | now rewrite IH]. Qed.

Lemma countNL_app (a b : string) : countNL (a ++ b) = countNL a + countNL b.
Proof. induction a as [|x a IH]; simpl; [reflexivity | rewrite IH; lia]. Qed.

Lemma Split_not_nil (s : string) : Split s NL <> [].
Proof.
  destruct s as [|c r]; simpl; [discriminate|].
  destruct (Ascii.eqb c NL); [discriminate|].
  destruct (Split r NL); discriminate.
Qed.

Lemma lineCount_countNL (s : string) : lineCount s = S (countNL s).
Proof.
  unfold lineCount. induction s as [|c r IH]; simpl; [reflexivity|].
  destruct (Ascii.eqb c NL); simpl; [now rewrite IH|].
  destruct (Split r NL) as [|h t] eqn:E; [now apply Split_not_nil in E|].
  simpl in *. exact IH.
Qed.

Lemma Split_pieces (s : string) : Forall (fun p => countNL p = 0) (Split s NL).
Proof.
  induction s as [|c r IH]; simpl; [repeat constructor|].
  destruct (Ascii.eqb c NL) eqn:Ec; [constructor; [reflexivity | exact IH]|].
  destruct (Split r NL) as [|h t]; [repeat constructor; simpl; now rewrite Ec|].
  inversion IH as [|? ? Hh Ht]; subst.
  constructor; [simpl; rewrite Ec; exact Hh | exact Ht].
Qed.

Lemma Join_cons (x y : string) (l : list string) :
  Join (x :: y :: l) nl = x ++ nl ++ Join (y :: l) nl.
Proof. reflexivity. Qed.

Lemma countNL_Join (l : list string) :
  Forall (fun p => countNL p = 0) l -> countNL (Join l nl) = length l - 1.
Proof.
  induction l as [|x [|y l] IH]; intros H; [reflexivity | |].
  - inversion H; subst. simpl. assumption.
  - inversion H as [|? ? Hx Hr]; subst.
    rewrite Join_cons, !countNL_app, Hx, (IH Hr). simpl. lia.
Qed.

Lemma Join_Split (s : string) : Join (Split s NL) nl = s.
Proof.
  induction s as [|c r IH]; [reflexivity|].
  simpl Split. destruct (Ascii.eqb_spec c NL) as [->|Hc].
  - destruct (Split r NL) as [|h t] eqn:E; [now apply Split_not_nil in E|].
    rewrite Join_cons, IH. reflexivity.
  - destruct (Split r NL) as [|h [|h' t]] eqn:E; [now apply Split_not_nil in E | |].
    + simpl in *. now rewrite IH.
    + rewrite Join_cons. rewrite Join_cons in IH. simpl. now rewrite <- IH.
Qed.

Lemma Join_app (l1 l2 : list string) :
  l1 <> [] -> l2 <> [] ->
  Join (l1 ++ l2)%list nl = Join l1 nl ++ nl ++ Join l2 nl.
Proof.
  intros H1 H2. induction l1 as [|x [|y l1] IH]; [congruence | |].
  - destruct l2 as [|z l2]; [congruence|]. reflexivity.
  - change (((x :: y :: l1) ++ l2)%list) with (x :: y :: (l1 ++ l2))%list.
    rewrite !Join_cons.
    change (y :: (l1 ++ l2))%list with ((y :: l1) ++ l2)%list.
    rewrite IH by discriminate. now rewrite !append_assoc_str.
Qed.

Lemma lastLines_keptLines (n : nat) (output : string) :
  lastLines n output = Join (keptLines n output) nl.
Proof. reflexivity. Qed.

Lemma keptLines_length (n : nat) (output : string) :
  length (keptLines n output) = Nat.min n (lineCount output).
Proof.
  unfold keptLines, lineCount.
  destruct (Nat.ltb_spec n (length (Split output NL))).
  - rewrite length_skipn. lia.
  - lia.
Qed.

Lemma keptLines_pieces (n : nat) (output : string) :
  Forall (fun p => countNL p = 0) (keptLines n output).
Proof.
  unfold keptLines. pose proof (Split_pieces output) as H.
  destruct (Nat.ltb n (length (Split output NL))); [|exact H].
  rewrite Forall_forall in *. intros x Hx. apply H.
  rewrite <- (firstn_skipn (length (Split output NL) - n)).
  apply in_or_app. now right.
Qed.

(** The text kept has as many lines as were kept: at most [n], and all of
    them when the output has no more than [n]. *)
Lemma lastLines_lineCount (n : nat) (output : string) :
  0 < n -> lineCount (lastLines n output) = Nat.min n (lineCount output).
Proof.
  intros Hn. rewrite lineCount_countNL, lastLines_keptLines.
  rewrite countNL_Join by apply keptLines_pieces.
  rewrite keptLines_length.
  pose proof (lineCount_countNL output). lia.
Qed.

Lemma lastLines_short (n : nat) (output : string) :
  lineCount output <= n -> lastLines n output = output.
Proof.
  intros H. unfold lastLines. fold (lineCount output).
  destruct (Nat.ltb_spec n (lineCount output)); [lia|].
  apply Join_Split.
Qed.

(** The text kept is the end of the output. *)
Lemma lastLines_suffix (n : nat) (output : string) :
  0 < n -> exists pre, output = pre ++ lastLines n output.
Proof.
  intros Hn. unfold lastLines.
  destruct (Nat.ltb_spec n (length (Split output NL))) as [Hlt|Hge].
  - set (k := length (Split output NL) - n).
    exists (Join (firstn k (Split output NL)) nl ++ nl).
    rewrite append_assoc_str, <- Join_app.
    + now rewrite firstn_skipn, Join_Split.
    + intros E. apply (f_equal (@length string)) in E.
      rewrite length_firstn in E. simpl in E. subst k. lia.
    + intros E. apply (f_equal (@length string)) in E.
      rewrite length_skipn in E. simpl in E. subst k. lia.
  - exists EmptyString. now rewrite Join_Split.
Qed.

(** With a limit of two lines or more, nothing is kept only when there
    was no output. *)
Lemma lastLines_empty (n : nat) (output : string) :
  1 < n -> lastLines n output = EmptyString -> output = EmptyString.
Proof.
  intros Hn He.
  assert (Hc : lineCount (lastLines n output) = Nat.min n (lineCount output))
    by (apply lastLines_lineCount; lia).
  rewrite He in Hc. change (lineCount EmptyString) with 1 in Hc.
  rewrite <- He. symmetry. apply lastLines_short. lia.
Qed.

End Lines.

(* ------------------------------------------------------------------ *)
(** ** Reasoning about computations and their traces                    *)
(* ------------------------------------------------------------------ *)

Section Sat.

Context {A B : Type}.

Lemma only_app ks (e1 e2 : Trace) :
  only ks e1 -> only ks e2 -> only ks (e1 ++ e2)%list.
Proof. unfold only. intros. apply Forall_app. now split. Qed.

Lemma bind_ret_eq (m : M A) (k : A -> M B) tr a tr1 :
  m tr = (Ret a, tr1) -> bind m k tr = k a tr1.
Proof. unfold bind. now intros ->. Qed.

Lemma bind_stop_eq (m : M A) (k : A -> M B) tr h tr1 :
  m tr = (Stop h, tr1) -> bind m k tr = (Stop h, tr1).
Proof. unfold bind. now intros ->. Qed.

Lemma sat_ret ks (Q : A -> Prop) H (a : A) : Q a -> sat ks Q H (ret a).
Proof.
  intros Ha tr. exists []. simpl. rewrite app_nil_r.
  repeat split; [constructor | exact Ha].
Qed.

Lemma sat_halt ks (Q : A -> Prop) (H : Halt -> Prop) h : H h -> sat ks Q H (halt h).
Proof.
  intros Hh tr. exists []. simpl. rewrite app_nil_r.
  repeat split; [constructor | exact Hh].
Qed.

Lemma sat_bind ks (Q1 : A -> Prop) (Q : B -> Prop) H (m : M A) (k : A -> M B) :
  sat ks Q1 H m -> (forall a, Q1 a -> sat ks Q H (k a)) -> sat ks Q H (bind m k).
Proof.
  intros Hm Hk tr. destruct (Hm tr) as (e1 & He1 & Ho1 & Hr1).
  unfold bind. destruct (m tr) as [[a|h] tr1]; simpl in *; subst tr1.
  - destruct (Hk a Hr1 (tr ++ e1)%list) as (e2 & He2 & Ho2 & Hr2).
    exists (e1 ++ e2)%list. rewrite He2, app_assoc.
    repeat split; [now apply only_app | exact Hr2].
  - exists e1. repeat split; assumption.
Qed.

Lemma sat_weaken ks ks' (Q Q' : A -> Prop) (H H' : Halt -> Prop) (m : M A) :
  sat ks Q H m -> incl ks ks' ->
  (forall a, Q a -> Q' a) -> (forall h, H h -> H' h) -> sat ks' Q' H' m.
Proof.
  intros Hm Hi HQ HH tr. destruct (Hm tr) as (e & He & Ho & Hr).
  exists e. repeat split; [exact He | |].
  - unfold only in *. rewrite Forall_forall in *. intros x Hx. apply Hi, Ho, Hx.
  - destruct (fst (m tr)); auto.
Qed.

End Sat.

Section Primitives.

Variable w : World.
Variables (ks : list Kind) (H : Halt -> Prop).

Ltac one_event :=
  intros Hk tr; eexists; split; [reflexivity |];
  split; [repeat constructor; exact Hk | simpl; auto].

Lemma sat_CreateCompletion p :
  In KCompletion ks -> sat ks (fun _ => True) H (CreateCompletion w p).
Proof. one_event. Qed.

Lemma sat_WriteFile f d :
  In KWriteFile ks -> sat ks (fun _ => True) H (WriteFile w f d).
Proof. one_event. Qed.

Lemma sat_Chmod f :
  In KChmod ks -> sat ks (fun _ => True) H (Chmod w f).
Proof. one_event. Qed.

Lemma sat_ReadFile f :
  In KReadFile ks -> sat ks (fun _ => True) H (ReadFile w f).
Proof. one_event. Qed.

Lemma sat_definitions f :
  In KDefinitions ks ->
  sat ks (fun _ => True) H (getStructAndInterfaceDefinitionsFromFile w f).
Proof. one_event. Qed.

Lemma sat_nonStdImports f :
  In KNonStdImports ks -> sat ks (fun _ => True) H (getNonStdImports w f).
Proof. one_event. Qed.

Lemma sat_CombinedOutput c :
  In KExec ks -> H (Blocked c) -> sat ks (fun _ => True) H (CombinedOutput w c).
Proof.
  intros Hk Hb tr. exists [EvExec c (w_exec w (length tr) c)]. simpl.
  repeat split; [repeat constructor; exact Hk |].
  destruct (w_exec w (length tr) c); simpl; auto.
Qed.

Lemma sat_Run c :
  In KExec ks -> H (Blocked c) -> sat ks (fun _ => True) H (Run w c).
Proof.
  intros Hk Hb. unfold Run. eapply sat_bind; [now apply sat_CombinedOutput|].
  intros [out err] _. now apply sat_ret.
Qed.

Lemma sat_gpt p :
  In KCompletion ks -> sat ks (fun _ => True) H (gpt w p).
Proof.
  intros Hk. unfold gpt. eapply sat_bind; [now apply sat_CreateCompletion|].
  intros [e|t] _; now apply sat_ret.
Qed.

End Primitives.

(** What [gpt] computes, by the answer of the world. *)
Lemma gpt_run (w : World) (p : string) (tr : Trace) :
  gpt w p tr =
  (Ret (match w_CreateCompletion w (length tr) p with
        | inl e => (EmptyString, Some e)
        | inr t => (t, None)
        end),
   (tr ++ [EvCompletion p (w_CreateCompletion w (length tr) p)])%list).
Proof.
  unfold gpt, bind, CreateCompletion.
  destruct (w_CreateCompletion w (length tr) p); reflexivity.
Qed.

Section RunSeedlingFacts.

Variable L : GoLib.
Variable w : World.

Lemma QualityCheck_Error_bad (qc : QualityCheck) :
  (Quality qc =? "good")%string = false ->
  QualityCheck_Error qc =
    Some ("Quality check failed for this reason: " ++ Reason qc ++
          ". To improve the quality, we suggest you: " ++ Suggestions qc).
Proof. unfold QualityCheck_Error. now intros ->. Qed.

(** The quality check loop talks to the completion API only, ends within
    its fuel, and when it makes [runSeedling] return it is with an error
    and no output. *)
Lemma sat_qualityLoop fuel errs gptOut prompt description :
  errs <= qualityMaxErrs -> qualityMaxErrs - errs < fuel ->
  sat [KCompletion]
      (fun q => match q with Some r => failsSilently r | None => True end)
      (fun _ => False)
      (qualityLoop L w fuel errs gptOut prompt description).
Proof.
  revert errs. induction fuel as [|fuel IH]; intros errs Hle Hlt; [lia|].
  cbn [qualityLoop]. destruct (Nat.eqb_spec qualityMaxErrs errs) as [He|He].
  - apply sat_ret. split; [reflexivity | discriminate].
  - eapply sat_bind; [apply sat_gpt; simpl; auto|].
    intros [out [e|]] _.
    + apply sat_ret. split; [reflexivity | discriminate].
    + destruct (UnmarshalQualityCheck L (TrimSpace L out)) as [qc|].
      * destruct (Quality qc =? "good")%string eqn:Eq; simpl.
        -- now apply sat_ret.
        -- apply sat_ret. rewrite (QualityCheck_Error_bad _ Eq).
           split; [reflexivity | discriminate].
      * apply IH; lia.
Qed.

Lemma sat_qualityGate gptOut step prompt description :
  sat [KCompletion]
      (fun q => match q with Some r => failsSilently r | None => True end)
      (fun _ => False)
      (qualityGate L w gptOut step prompt description).
Proof.
  unfold qualityGate. destruct (step =? SeedlingStepServer)%string.
  - apply sat_qualityLoop; unfold qualityMaxErrs; lia.
  - now apply sat_ret.
Qed.

(** Writing and building touches the file, its mode and subprocesses, and
    halts only by waiting for one of these. *)
Lemma sat_writeAndBuild file codeType buildCmd gptOut :
  sat [KWriteFile; KChmod; KExec] (fun _ => True) realHalt
      (writeAndBuild L w file codeType buildCmd gptOut).
Proof.
  unfold writeAndBuild.
  destruct (Nat.eqb _ 0); [now apply sat_ret|].
  eapply sat_bind; [apply sat_WriteFile; simpl; auto|].
  intros [e|] _; [now apply sat_ret|].
  eapply sat_bind with (Q1 := fun _ => True).
  { destruct (codeType =? "bash")%string;
      [apply sat_Chmod; simpl; auto | now apply sat_ret]. }
  intros [e|] _; [now apply sat_ret|].
  unfold buildAndCommit.
  eapply sat_bind; [apply sat_CombinedOutput; simpl; auto|].
  intros [out [e|]] _; [now apply sat_ret|].
  eapply sat_bind; [apply sat_Run; simpl; auto|].
  intros [e|] _; [now apply sat_ret|].
  eapply sat_bind; [apply sat_Run; simpl; auto|].
  intros [e|] _; now apply sat_ret.
Qed.

(** Nothing is written and nothing is run for a candidate that is empty
    once its fencing is stripped. *)
Lemma writeAndBuild_empty file codeType buildCmd gptOut tr :
  stripFencing L codeType gptOut = EmptyString ->
  writeAndBuild L w file codeType buildCmd gptOut tr =
    (Ret (EmptyString, Some "no code to run"), tr).
Proof. unfold writeAndBuild. now intros ->. Qed.

(** Steps other than the server step go straight to the writing. *)
Lemma runSeedling_no_gate file codeType buildCmd gptOut step prompt description tr :
  (step =? SeedlingStepServer)%string = false ->
  runSeedling L w file codeType buildCmd gptOut step prompt description tr =
  writeAndBuild L w file codeType buildCmd gptOut tr.
Proof. unfold runSeedling, qualityGate. now intros ->. Qed.

Lemma sat_runSeedling file codeType buildCmd gptOut step prompt description :
  sat [KCompletion; KWriteFile; KChmod; KExec] (fun _ => True) realHalt
      (runSeedling L w file codeType buildCmd gptOut step prompt description).
Proof.
  unfold runSeedling. eapply sat_bind.
  - eapply sat_weaken; [apply sat_qualityGate | | intros a Ha; exact Ha | intros h []].
    intros k [<-|[]]. simpl. auto.
  - intros [r|] _; [now apply sat_ret|].
    eapply sat_weaken; [apply sat_writeAndBuild | | auto | auto].
    intros k Hk. simpl in *. tauto.
Qed.

End RunSeedlingFacts.

Section GptThreadFacts.

Variable L : GoLib.
Variable w : World.
Variable seedling : Seedling.

Lemma sat_goDocLoop imports allDocs goDocErr mods :
  sat [KDefinitions; KNonStdImports; KExec; KReadFile] (fun _ => True) realHalt
      (goDocLoop L w seedling imports allDocs goDocErr mods).
Proof.
  revert allDocs goDocErr mods.
  induction imports as [|imp rest IH]; intros allDocs goDocErr mods;
    cbn [goDocLoop]; [now apply sat_ret|].
  destruct (_ || _); [apply IH|].
  eapply sat_bind; [apply sat_CombinedOutput; simpl; auto|].
  intros [out err] _. apply IH.
Qed.

(** The set-up of a step reads and parses files and runs [go doc]; it
    writes no file, asks for no completion and stores no step. *)
Lemma sat_stageSetup cur st :
  sat [KDefinitions; KNonStdImports; KExec; KReadFile] (sameCounters st) realHalt
      (stageSetup L w seedling cur st).
Proof.
  unfold stageSetup.
  destruct (cur =? SeedlingStepProtobufs)%string.
  { apply sat_ret. destruct (errMode st); simpl; auto. }
  destruct (cur =? SeedlingStepServer)%string.
  { eapply sat_bind; [apply sat_definitions; simpl; auto|].
    intros [e|protoBufDefs] _; [now apply sat_halt|].
    eapply sat_bind; [apply sat_definitions; simpl; auto|].
    intros [e|grpcDefs] _; [now apply sat_halt|].
    eapply sat_bind
      with (Q1 := fun st1 => step st1 = step st /\ errs st1 = errs st).
    - destruct (errMode st); cbn [negb]; cbv iota zeta.
      + change (dumpedModDocs (clearErrMode st)) with (dumpedModDocs st).
        destruct (dumpedModDocs st); cbn [negb]; cbv iota.
        * now apply sat_ret.
        * eapply sat_bind; [apply sat_nonStdImports; simpl; auto|].
          intros imports _.
          eapply sat_bind; [apply sat_goDocLoop|].
          intros [[allDocs goDocErr] mods] _.
          destruct (_ && _); now apply sat_ret.
      + now apply sat_ret.
    - intros st1 H1. apply sat_ret. exact H1. }
  destruct (cur =? SeedlingStepDockerfile)%string.
  { apply sat_ret. destruct (errMode st); simpl; auto. }
  destruct (cur =? SeedlingStepExampleClientCall)%string.
  { eapply sat_bind
      with (Q1 := fun r => match r with
                           | inl st1 => step st1 = step st /\ errs st1 = errs st
                           | inr x => x = ReadServerFailed
                           end).
    - destruct (errMode st); cbn [negb]; cbv iota.
      + now apply sat_ret.
      + eapply sat_bind; [apply sat_ReadFile; simpl; auto|].
        intros [e|c] _; now apply sat_ret.
    - intros [st1|x] H1; apply sat_ret; simpl; auto. }
  apply sat_ret. simpl. auto.
Qed.

Lemma sat_launch st :
  sat [KExec]
      (fun n => n = Return DockerRunFailed st \/ n = Return ContainerLaunched st)
      realHalt (launch L w seedling st).
Proof.
  unfold launch.
  eapply sat_bind; [apply sat_CombinedOutput; simpl; auto|].
  intros [out [e|]] _; [apply sat_ret; auto|].
  eapply sat_bind; [apply sat_Run; simpl; auto|].
  intros [e|] _; [now apply sat_halt | apply sat_ret; auto].
Qed.

Lemma storedSteps_app id (t1 t2 : Trace) :
  storedSteps id (t1 ++ t2)%list = (storedSteps id t1 ++ storedSteps id t2)%list.
Proof.
  induction t1 as [|e t1 IH]; [reflexivity|].
  destruct e; simpl; try exact IH.
  destruct r; [exact IH|]. destruct (Z.eqb id0 id); simpl; now rewrite IH.
Qed.

(** Events other than updates of the step store nothing. *)
Lemma storedSteps_only id ks evs :
  only ks evs -> ~ In KUpdateStep ks -> storedSteps id evs = [].
Proof.
  intros Ho Hk. induction Ho as [|e evs He _ IH]; [reflexivity|].
  destruct e; simpl; try exact IH. simpl in He. contradiction.
Qed.

End GptThreadFacts.

Lemma skipn_nth_error {A} (l : list A) (n : nat) (x : A) :
  nth_error l n = Some x -> skipn n l = x :: skipn (S n) l.
Proof.
  revert l. induction n as [|n IH]; intros [|a l] H; simpl in H; try discriminate.
  - now inversion H.
  - exact (IH l H).
Qed.

Section LoopFacts.

Variable L : GoLib.
Variable w : World.
Variable seedling : Seedling.

Lemma onFailure_post st gptOutput output err evs :
  storedSteps (ID seedling) evs = [] ->
  iterationPost seedling st evs (Ret (onFailure st gptOutput output err)).
Proof.
  intros Hs. unfold onFailure. cbn [errs step].
  destruct (Nat.ltb_spec maxErrs (S (errs st))); simpl.
  - split; [exact Hs|]. split; [reflexivity|]. left. auto.
  - left. auto.
Qed.

Lemma attempt_post cur st sg tr :
  step st < 4 ->
  exists evs r,
    attempt L w seedling cur st sg tr = (r, (tr ++ evs)%list) /\
    iterationPost seedling st evs r.
Proof.
  intros Hstep. unfold attempt.
  erewrite bind_ret_eq by apply gpt_run.
  set (ev := EvCompletion (prompt st) (w_CreateCompletion w (length tr) (prompt st))).
  destruct (w_CreateCompletion w (length tr) (prompt st)) as [e|gptOutput].
  { exists [ev], (Ret (Return OracleFailed st)). split; [reflexivity|].
    split; [reflexivity|]. split; [reflexivity|].
    right. split; [discriminate | reflexivity]. }
  match goal with |- context [runSeedling ?x1 ?x2 ?x3 ?x4 ?x5 ?x6 ?x7 ?x8 ?x9] =>
    destruct (sat_runSeedling x1 x2 x3 x4 x5 x6 x7 x8 x9 (tr ++ [ev])%list)
      as (e2 & He2 & Ho2 & Hr2);
    destruct (runSeedling x1 x2 x3 x4 x5 x6 x7 x8 x9 (tr ++ [ev])%list)
      as [[[output [e|]]|h'] tr2] eqn:Er
  end; simpl in He2, Hr2; subst tr2.
  - erewrite bind_ret_eq by exact Er.
    exists ([ev] ++ e2)%list, (Ret (onFailure st gptOutput output e)).
    rewrite app_assoc. split; [reflexivity|].
    apply onFailure_post. rewrite storedSteps_app.
    eapply storedSteps_only; [exact Ho2|]. simpl. intuition discriminate.
  - erewrite bind_ret_eq by exact Er.
    assert (Hs2 : storedSteps (ID seedling) ([ev] ++ e2)%list = []).
    { rewrite storedSteps_app.
      eapply storedSteps_only; [exact Ho2|]. simpl. intuition discriminate. }
    unfold settle, onSuccess.
    destruct (nth_error steps (step st + 1)) as [next|] eqn:En.
    2:{ apply nth_error_None in En. simpl in En. lia. }
    unfold bind, updateStep.
    set (r := w_updateStep w _ next (ID seedling)).
    exists (([ev] ++ e2) ++ [EvUpdateStep next (ID seedling) r])%list.
    rewrite !app_assoc.
    destruct r as [e|]; eexists; (split; [reflexivity|]);
      cbn [iterationPost]; rewrite storedSteps_app, Hs2; simpl.
    + split; [reflexivity|]. split; [reflexivity|].
      right. split; [discriminate | reflexivity].
    + right. exists next. rewrite Z.eqb_refl.
      rewrite Nat.add_1_r in En. split; [exact En|].
      split; [reflexivity|]. split; [apply Nat.add_1_r | reflexivity].
  - erewrite bind_stop_eq by exact Er.
    exists ([ev] ++ e2)%list, (Stop h'). rewrite app_assoc.
    split; [reflexivity|]. split; [|exact Hr2].
    rewrite storedSteps_app.
    eapply storedSteps_only; [exact Ho2|]. simpl. intuition discriminate.
Qed.

Lemma iterationPost_frame st st1 e1 e2 r :
  step st1 = step st -> errs st1 = errs st ->
  storedSteps (ID seedling) e1 = [] ->
  iterationPost seedling st1 e2 r -> iterationPost seedling st (e1 ++ e2)%list r.
Proof.
  intros Hs He H1. unfold iterationPost.
  rewrite storedSteps_app, H1, Hs, He. simpl. exact (fun H => H).
Qed.

Lemma steps_lookup (n : nat) :
  n <= 4 ->
  exists cur, nth_error steps n = Some cur /\
    ((cur =? SeedlingStepComplete)%string = true /\ n = 4 \/
     (cur =? SeedlingStepComplete)%string = false /\ n < 4).
Proof.
  intros Hn. destruct n as [|[|[|[|[|n]]]]]; try lia;
    eexists; (split; [reflexivity|]);
    first [right; split; [reflexivity | lia] | left; split; reflexivity].
Qed.

(** Every iteration from a step of the list ends as [iterationPost]
    says; in particular it neither panics nor runs out of fuel. *)
Lemma iteration_post st tr :
  step st <= 4 ->
  exists evs r,
    iteration L w seedling st tr = (r, (tr ++ evs)%list) /\
    iterationPost seedling st evs r.
Proof.
  intros Hstep. unfold iteration.
  destruct (steps_lookup _ Hstep) as (cur & -> & [[-> _]|[-> Hlt]]).
  - destruct (sat_launch L w seedling st tr) as (e1 & He1 & Ho1 & Hr1).
    destruct (launch L w seedling st tr) as [r tr1]. simpl in He1, Hr1. subst tr1.
    exists e1, r. split; [reflexivity|].
    assert (Hs : storedSteps (ID seedling) e1 = []).
    { eapply storedSteps_only; [exact Ho1|]. simpl. intuition discriminate. }
    destruct r as [n|h]; [|now split].
    destruct Hr1 as [-> | ->]; simpl;
      (split; [exact Hs|]); (split; [reflexivity|]);
      right; (split; [discriminate | reflexivity]).
  - destruct (sat_stageSetup L w seedling cur st tr) as (e1 & He1 & Ho1 & Hr1).
    destruct (stageSetup L w seedling cur st tr) as [[[[st1 sg]|x]|h] tr1] eqn:Es;
      simpl in He1, Hr1; subst tr1.
    + erewrite bind_ret_eq by exact Es.
      destruct (attempt_post cur st1 sg (tr ++ e1)%list) as (e2 & r & Ha & Hp);
        [destruct Hr1 as [-> _]; exact Hlt|].
      exists (e1 ++ e2)%list, r. rewrite app_assoc. split; [exact Ha|].
      destruct Hr1 as [Hs He]. apply (iterationPost_frame st st1); auto.
      eapply storedSteps_only; [exact Ho1|]. simpl. intuition discriminate.
    + erewrite bind_ret_eq by exact Es.
      exists e1, (Ret (Return x st)). split; [reflexivity|]. simpl.
      split; [eapply storedSteps_only; [exact Ho1|]; simpl; intuition discriminate|].
      split; [reflexivity|]. right. split; [|reflexivity].
      destruct Hr1 as [->| ->]; discriminate.
    + erewrite bind_stop_eq by exact Es.
      exists e1, (Stop h). split; [reflexivity|]. simpl.
      split; [eapply storedSteps_only; [exact Ho1|]; simpl; intuition discriminate|].
      exact Hr1.
Qed.

Lemma gptLoop_post fuel st tr :
  step st <= 4 -> errs st <= maxErrs ->
  (maxErrs - errs st) + (4 - step st) < fuel ->
  exists evs r,
    gptLoop L w seedling fuel st tr = (r, (tr ++ evs)%list) /\ loopPost seedling st evs r.
Proof.
  revert st tr. induction fuel as [|fuel IH]; intros st tr Hstep Herrs Hfuel; [lia|].
  cbn [gptLoop].
  destruct (iteration_post st tr Hstep) as (e1 & r1 & Hi & Hp).
  destruct r1 as [[st'|x st']|h].
  - erewrite bind_ret_eq by exact Hi. cbv iota.
    destruct Hp as [(Hs & Hst & Her & Hle) | (next & Hn & Hs & Hst & Her)].
    + destruct (IH st' (tr ++ e1)%list) as (e2 & r & Hl & k & Hk & Hb & Hr);
        try lia.
      exists (e1 ++ e2)%list, r. rewrite app_assoc. split; [exact Hl|].
      exists k. rewrite storedSteps_app, Hs, Hk, Hst. simpl.
      split; [reflexivity|]. split; [lia|].
      destruct r as [[x st2]|h]; [|exact Hr]. rewrite <- Hst. exact Hr.
    + assert (Hlen : S (step st) < 5).
      { apply (nth_error_Some steps). rewrite Hn. discriminate. }
      destruct (IH st' (tr ++ e1)%list) as (e2 & r & Hl & k & Hk & Hb & Hr);
        try lia.
      exists (e1 ++ e2)%list, r. rewrite app_assoc. split; [exact Hl|].
      exists (S k). rewrite storedSteps_app, Hs, Hk, Hst.
      rewrite (skipn_nth_error _ _ _ Hn). simpl.
      split; [reflexivity|]. split; [lia|].
      destruct r as [[x st2]|h]; [|exact Hr].
      destruct Hr as [Hr1 Hr2]. split; [lia | exact Hr2].
  - erewrite bind_ret_eq by exact Hi. cbv iota.
    exists e1, (Ret (x, st')). split; [reflexivity|].
    destruct Hp as (Hs & Hst & Hx). exists 0. rewrite Hs. simpl.
    split; [reflexivity|]. split; [lia|]. split; [lia|].
    destruct Hx as [(-> & He & Hm) | (Hne & He)]; [left | right]; split; auto; lia.
  - erewrite bind_stop_eq by exact Hi.
    exists e1, (Stop h). split; [reflexivity|].
    destruct Hp as (Hs & Hh). exists 0. rewrite Hs. simpl.
    split; [reflexivity|]. split; [lia | exact Hh].
Qed.

End LoopFacts.

(* ------------------------------------------------------------------ *)
(** ** A verifier that always fails                                     *)
(* ------------------------------------------------------------------ *)

Section AlwaysFailing.

Variable L : GoLib.
Variable w : World.
Variable seedling : Seedling.
Hypothesis Hfail : verifierAlwaysFails w.

Lemma completions_app (t1 t2 : Trace) :
  completions (t1 ++ t2)%list = completions t1 + completions t2.
Proof. unfold completions. now rewrite filter_app, length_app. Qed.

Lemma completions_only ks evs :
  only ks evs -> ~ In KCompletion ks -> completions evs = 0.
Proof.
  intros Ho Hk. induction Ho as [|e evs He _ IH]; [reflexivity|].
  destruct e; try exact IH. simpl in He. contradiction.
Qed.

Lemma writeAndBuild_fails file codeType buildCmd gptOut tr :
  Path buildCmd <> "git" ->
  exists evs out e,
    writeAndBuild L w file codeType buildCmd gptOut tr =
      (Ret (out, Some e), (tr ++ evs)%list) /\
    only [KWriteFile; KChmod; KExec] evs.
Proof.
  intros Hgit. unfold writeAndBuild.
  destruct (Nat.eqb _ 0).
  { exists [], EmptyString, "no code to run". rewrite app_nil_r.
    split; [reflexivity | solve_only]. }
  unfold bind at 1, WriteFile.
  set (ew := EvWriteFile _ _ _).
  destruct (w_WriteFile w _ _ _) as [e|].
  { exists [ew], EmptyString, e. split; [reflexivity|].
    solve_only. }
  assert (Hb : forall t, exists evs out e,
             buildAndCommit L w buildCmd t = (Ret (out, Some e), (t ++ evs)%list) /\
             only [KWriteFile; KChmod; KExec] evs).
  { intros t. unfold buildAndCommit, bind at 1, CombinedOutput.
    destruct (Hfail (length t) buildCmd Hgit) as (out & e & He). rewrite He.
    exists [EvExec buildCmd (Exited out (Some e))], out, e.
    split; [reflexivity|]. solve_only. }
  destruct (codeType =? "bash")%string.
  - unfold bind at 1, Chmod. set (ec := EvChmod _ _).
    destruct (w_Chmod w _ _) as [e|].
    + exists [ew; ec], EmptyString, e. rewrite <- app_assoc.
      split; [reflexivity|]. solve_only.
    + destruct (Hb ((tr ++ [ew]) ++ [ec])%list) as (evs & out & e & He & Ho).
      exists ([ew; ec] ++ evs)%list, out, e.
      replace (tr ++ [ew; ec] ++ evs)%list with (((tr ++ [ew]) ++ [ec]) ++ evs)%list
        by (now rewrite <- !app_assoc).
      split; [exact He|]. apply only_app; [|exact Ho].
      solve_only.
  - unfold bind at 1, ret at 1.
    destruct (Hb (tr ++ [ew])%list) as (evs & out & e & He & Ho).
    exists ([ew] ++ evs)%list, out, e. rewrite app_assoc.
    split; [exact He|]. apply only_app; [|exact Ho].
    solve_only.
Qed.

Lemma attempt_protobufs_fails st sg tr :
  cmdCmd sg <> "git" ->
  exists evs n,
    attempt L w seedling SeedlingStepProtobufs st sg tr = (Ret n, (tr ++ evs)%list) /\
    only attemptKinds evs /\ completions evs = 1 /\ failedIteration w st n.
Proof.
  intros Hgit. unfold attempt. erewrite bind_ret_eq by apply gpt_run.
  set (ev := EvCompletion (prompt st) (w_CreateCompletion w (length tr) (prompt st))).
  destruct (w_CreateCompletion w (length tr) (prompt st)) as [e|gptOutput] eqn:Ec.
  { exists [ev], (Return OracleFailed st). split; [reflexivity|].
    split; [unfold attemptKinds; solve_only|]. split; [reflexivity|].
    left. exists st. repeat split.
    intros Ha. destruct (Ha (length tr) (prompt st)) as (t & Ht). congruence. }
  match goal with |- context [runSeedling _ _ ?x3 ?x4 ?x5 ?x6] =>
    destruct (writeAndBuild_fails x3 x4 x5 x6 (tr ++ [ev])%list Hgit)
      as (e2 & out & e & He & Ho)
  end.
  erewrite bind_ret_eq by (rewrite runSeedling_no_gate by reflexivity; exact He).
  cbv iota beta.
  exists ([ev] ++ e2)%list, (onFailure st gptOutput out e).
  rewrite app_assoc. split; [reflexivity|].
  split.
  { apply only_app; [unfold attemptKinds; solve_only|].
    eapply Forall_impl; [|exact Ho]. unfold attemptKinds. simpl. tauto. }
  split.
  { rewrite completions_app. rewrite (completions_only _ _ Ho); [reflexivity|].
    simpl. intuition discriminate. }
  right. exists st, gptOutput, out, e. auto.
Qed.

Lemma iteration_protobufs_fails st tr :
  step st = 0 ->
  exists evs n,
    iteration L w seedling st tr = (Ret n, (tr ++ evs)%list) /\
    only attemptKinds evs /\ completions evs = 1 /\ failedIteration w st n.
Proof.
  intros Hs. unfold iteration. rewrite Hs. cbn [nth_error steps].
  change (SeedlingStepProtobufs =? SeedlingStepComplete)%string with false.
  cbv iota. unfold stageSetup.
  change (SeedlingStepProtobufs =? SeedlingStepProtobufs)%string with true.
  cbv iota. erewrite bind_ret_eq by reflexivity. cbv iota beta.
  match goal with |- context [attempt _ _ _ _ ?st1 ?sg] =>
    destruct (attempt_protobufs_fails st1 sg tr) as (evs & n & Ha & Ho & Hc & Hf);
      [discriminate|];
    assert (H1 : step st1 = step st /\ errs st1 = errs st)
      by (destruct (errMode st); split; reflexivity)
  end.
  exists evs, n. split; [exact Ha|]. split; [exact Ho|]. split; [exact Hc|].
  destruct H1 as [H1 H2]. unfold failedIteration in *. rewrite <- H1, <- H2.
  exact Hf.
Qed.

(** With a build that always fails the loop stays on the first step
    until the budget is exceeded (or a completion request fails); every
    attempt but one that ends in a failed request adds one to the error
    counter. *)
Lemma gptLoop_always_fails fuel st tr :
  step st = 0 -> errs st <= maxErrs -> maxErrs - errs st < fuel ->
  exists evs x st',
    gptLoop L w seedling fuel st tr = (Ret (x, st'), (tr ++ evs)%list) /\
    only attemptKinds evs /\ step st' = 0 /\
    (x = MaxErrorsExceeded /\ errs st' = S maxErrs /\
       completions evs + errs st = S maxErrs \/
     x = OracleFailed /\ errs st' <= maxErrs /\
       completions evs + errs st = S (errs st') /\ ~ oracleAlwaysAnswers w).
Proof.
  revert st tr. induction fuel as [|fuel IH]; intros st tr Hs He Hf; [lia|].
  cbn [gptLoop].
  destruct (iteration_protobufs_fails st tr Hs) as (e1 & n & Hi & Ho & Hc & Hn).
  erewrite bind_ret_eq by exact Hi.
  destruct Hn as [(st1 & -> & H1 & H2 & Hna) | (st1 & g & out & e & -> & H1 & H2)].
  - exists e1, OracleFailed, st1. split; [reflexivity|]. split; [exact Ho|].
    split; [congruence|]. right. repeat split; [lia | lia | exact Hna].
  - unfold onFailure. cbn [errs step].
    destruct (Nat.ltb_spec maxErrs (S (errs st1))) as [Hlt|Hge].
    + eexists e1, MaxErrorsExceeded, _. split; [reflexivity|]. split; [exact Ho|].
      split; [simpl; congruence|]. left. cbn [errs].
      split; [reflexivity|]. split; [lia | rewrite Hc; lia].
    + cbv iota.
      match goal with |- context [gptLoop _ _ _ _ ?st2 _] =>
        destruct (IH st2 (tr ++ e1)%list) as (e2 & x & st' & Hl & Ho2 & Hs' & Hx);
          [simpl; congruence | st_simpl; lia | st_simpl; lia |]
      end.
      exists (e1 ++ e2)%list, x, st'. rewrite app_assoc. split; [exact Hl|].
      split; [now apply only_app|]. split; [exact Hs'|].
      rewrite completions_app, Hc. revert Hx. st_simpl. intros Hx.
      destruct Hx as [(-> & Hx1 & Hx2) | (-> & Hx1 & Hx2 & Hx3)]; [left | right].
      * split; [reflexivity|]. split; [exact Hx1 | lia].
      * split; [reflexivity|]. split; [exact Hx1|]. split; [lia | exact Hx3].
Qed.

Lemma endsSilently_app (e1 e2 : Trace) :
  endsSilently e2 -> endsSilently (e1 ++ e2)%list.
Proof.
  intros (pre & [(f & d & e & ->) | (c & e & ->)]); exists (e1 ++ pre)%list;
    rewrite app_assoc; [left | right]; eauto.
Qed.

(** An iteration of the inner loop of the first variant: the build
    fails, and the failure is counted unless it carries no output. *)
Lemma v1_attempt_fails sg st tr :
  cmdCmd sg <> "git" ->
  exists evs n,
    V1.attempt L w seedling sg st tr = (Ret n, (tr ++ evs)%list) /\
    only attemptKinds evs /\ completions evs = 1 /\
    v1FailedAttempt w st evs n.
Proof.
  intros Hgit. unfold V1.attempt.
  erewrite bind_ret_eq by apply gpt_run.
  destruct (w_CreateCompletion w (length tr) (V1.prompt st)) as [e|t] eqn:Ec.
  { eexists [_], _. split; [reflexivity|].
    split; [unfold attemptKinds; solve_only|]. split; [reflexivity|].
    split; [reflexivity|]. right. left. repeat split.
    intros Ha. destruct (Ha (length tr) (V1.prompt st)) as (t & Ht). congruence. }
  cbv beta iota zeta.
  unfold V1.runSeedling, buildAndCommit, bind, WriteFile, CombinedOutput, ret.
  match goal with |- context [w_WriteFile w ?k ?f ?d] =>
    destruct (w_WriteFile w k f d) as [e|] end.
  { rewrite String.eqb_refl. eexists [_; _], _.
    split; [rewrite <- app_assoc; reflexivity|].
    split; [unfold attemptKinds; solve_only|]. split; [reflexivity|].
    split; [reflexivity|]. right. right. repeat split.
    eexists [_]. left. eexists _, _, _. reflexivity. }
  match goal with |- context [w_exec w ?k ?c] =>
    destruct (Hfail k c Hgit) as (out & e & He); rewrite He end.
  destruct (String.eqb_spec out EmptyString) as [->|Hne].
  { eexists [_; _; _], _.
    split; [rewrite <- !app_assoc; reflexivity|].
    split; [unfold attemptKinds; solve_only|]. split; [reflexivity|].
    split; [reflexivity|]. right. right. repeat split.
    eexists [_; _]. right. eexists _, _. reflexivity. }
  cbn [V1.errs V1.step V1.prompt V1.addPrompt].
  destruct (Nat.ltb_spec V1.maxErrs (S (V1.errs st))) as [Hlt|Hge];
    eexists [_; _; _], _;
    (split; [rewrite <- !app_assoc; reflexivity|]);
    (split; [unfold attemptKinds; solve_only|]); (split; [reflexivity|]).
  - split; [reflexivity|]. left. repeat split. exact Hlt.
  - repeat split. exact Hge.
Qed.

Lemma v1_innerLoop_fails fuel sg st tr :
  cmdCmd sg <> "git" ->
  V1.errs st <= V1.maxErrs -> V1.maxErrs - V1.errs st < fuel ->
  exists evs x st',
    V1.innerLoop L w seedling fuel sg st tr =
      (Ret (V1.Returned x st'), (tr ++ evs)%list) /\
    only attemptKinds evs /\ V1.step st' = V1.step st /\
    v1FailedRun w (V1.errs st) evs x st'.
Proof.
  intros Hgit. revert st tr.
  induction fuel as [|fuel IH]; intros st tr He Hf; [lia|].
  cbn [V1.innerLoop].
  destruct (v1_attempt_fails sg st tr Hgit) as (e1 & n & Ha & Ho & Hc & Hn).
  erewrite bind_ret_eq by exact Ha.
  destruct n as [st1|st1|x st1]; cbn [v1FailedAttempt] in Hn; [| contradiction |].
  - destruct Hn as (Hs1 & He1 & Hle).
    destruct (IH st1 (tr ++ e1)%list) as (e2 & x & st' & Hl & Ho2 & Hs' & Hx);
      [exact Hle | lia |].
    exists (e1 ++ e2)%list, x, st'. rewrite app_assoc. split; [exact Hl|].
    split; [now apply only_app|]. split; [congruence|].
    unfold v1FailedRun in *. rewrite completions_app, Hc.
    destruct Hx as [(-> & Hx1 & Hx2) | [(-> & Hx1 & Hx2 & Hx3) |
                                        (-> & Hx1 & Hx2 & Hx3)]].
    + left. repeat split; [exact Hx1 | lia].
    + right. left. repeat split; [exact Hx1 | lia | exact Hx3].
    + right. right. repeat split; [exact Hx1 | lia |].
      now apply endsSilently_app.
  - destruct Hn as (Hs1 & Hx).
    exists e1, x, st1. split; [reflexivity|]. split; [exact Ho|].
    split; [exact Hs1|]. unfold v1FailedRun. rewrite Hc.
    destruct Hx as [(-> & Hx1 & Hx2) | [(-> & Hx1 & Hx2) | (-> & Hx1 & Hx2)]].
    + left. repeat split; unfold V1.maxErrs in *; lia.
    + right. left. repeat split; [lia | lia | exact Hx2].
    + right. right. repeat split; [lia | lia | exact Hx2].
Qed.

(** The first variant stays on the first step as well. *)
Lemma v1_gptThread_fails :
  exists evs x st,
    V1.gptThread L w seedling [] = (Ret (x, st), evs) /\
    only attemptKinds evs /\ V1.step st = 0 /\
    v1FailedRun w 0 evs x st.
Proof.
  unfold V1.gptThread. cbn [length V1.steps V1.gptLoop V1.initialState V1.step
                            nth_error V1.errs V1.prompt].
  change (SeedlingStepProtobufs =? SeedlingStepComplete)%string with false.
  cbv iota. unfold V1.stageSetup. rewrite String.eqb_refl. cbv iota beta zeta.
  match goal with |- context [V1.innerLoop _ _ _ ?f ?sg ?st0] =>
    destruct (v1_innerLoop_fails f sg st0 []) as (evs & x & st & Hl & Ho & Hs & Hx);
      [discriminate | apply Nat.le_0_l | vm_compute; lia |]
  end.
  erewrite bind_ret_eq by exact Hl. cbv iota.
  exists evs, x, st. split; [reflexivity|]. split; [exact Ho|].
  split; [exact Hs | exact Hx].
Qed.

End AlwaysFailing.


(* ------------------------------------------------------------------ *)
(** ** The steps stored for a task                                      *)
(* ------------------------------------------------------------------ *)

(** The fuel of [gptThread] is never used up and [steps] is never
    indexed out of range: the goroutine of the model returns, or it stops
    in [logrus.Fatal] or in a subprocess that does not exit. *)
Lemma gptThread_fuel_enough (L : GoLib) (w : World) (seedling : Seedling) :
  match fst (gptThread L w seedling []) with
  | Ret _ => True
  | Stop h => realHalt h
  end.
Proof.
  destruct (gptLoop_post L w seedling gptThreadFuel initialState [])
    as (evs & r & Hl & k & _ & _ & Hr);
    [simpl; lia | simpl; lia | vm_compute; lia |].
  unfold gptThread. rewrite Hl. simpl. destruct r as [[x st]|h]; [exact I | exact Hr].
Qed.

(** C1, as amended.  In every run of [gptThread], whatever the world
    answers and whatever step the row of the task holds at the start, the
    steps stored for the task are, in this order, the first [k] of Server,
    Dockerfile, ExampleClientCall, Complete: each store moves one position
    on from the Protobufs step at which every run starts, none is skipped
    and none is stored twice, and a run that returns is on position [k]. *)
Theorem gptThread_stores_steps_in_order :
  forall (L : GoLib) (w : World) (seedling : Seedling),
    exists k, k <= 4 /\
      storedSteps (ID seedling) (snd (gptThread L w seedling [])) =
        firstn k [SeedlingStepServer; SeedlingStepDockerfile;
                  SeedlingStepExampleClientCall; SeedlingStepComplete] /\
      isStagePrefix
        (SeedlingStepProtobufs ::
         storedSteps (ID seedling) (snd (gptThread L w seedling []))) /\
      match fst (gptThread L w seedling []) with
      | Ret (_, st) => step st = k
      | Stop h => realHalt h
      end.
Proof.
  intros L w seedling.
  destruct (gptLoop_post L w seedling gptThreadFuel initialState [])
    as (evs & r & Hl & k & Hk & Hb & Hr);
    [simpl; lia | simpl; lia | vm_compute; lia |].
  unfold gptThread. rewrite Hl. simpl fst. simpl snd. simpl in Hk, Hb.
  exists k. split; [exact Hb|]. split; [exact Hk|].
  split; [exists (S k); rewrite Hk; reflexivity|].
  destruct r as [[x st]|h]; [|exact Hr]. destruct Hr as [Hs _]. exact Hs.
Qed.

(** C1, as stated, fails.  A task whose row holds the Dockerfile step is
    started again by [init]; its goroutine begins at the Protobufs step, so
    the column goes from Dockerfile back to Server: neither the values
    observed in the column nor the values stored by the run are a prefix of
    the order of the steps. *)
Lemma relaunched_task_goes_back :
  In Examples.relaunched (resumed [Examples.fresh; Examples.relaunched]) /\
  observedSteps Examples.relaunched
    (snd (gptThread Examples.lib Examples.happyWorld Examples.relaunched [])) =
    [SeedlingStepDockerfile; SeedlingStepServer; SeedlingStepDockerfile;
     SeedlingStepExampleClientCall; SeedlingStepComplete] /\
  ~ isStagePrefix
      (observedSteps Examples.relaunched
         (snd (gptThread Examples.lib Examples.happyWorld Examples.relaunched []))) /\
  ~ isStagePrefix
      (storedSteps (ID Examples.relaunched)
         (snd (gptThread Examples.lib Examples.happyWorld Examples.relaunched []))).
Proof.
  assert (E : storedSteps (ID Examples.relaunched)
                (snd (gptThread Examples.lib Examples.happyWorld
                        Examples.relaunched [])) =
              [SeedlingStepServer; SeedlingStepDockerfile;
               SeedlingStepExampleClientCall; SeedlingStepComplete])
    by (vm_compute; reflexivity).
  assert (Hd : SeedlingStepDockerfile <> SeedlingStepProtobufs)
    by (intros H; vm_compute in H; discriminate H).
  assert (Hs : SeedlingStepServer <> SeedlingStepProtobufs)
    by (intros H; vm_compute in H; discriminate H).
  unfold observedSteps. rewrite E.
  split; [simpl; auto|]. split; [reflexivity|].
  split; intros [k Hk]; (destruct k as [|k]; [discriminate Hk|]);
    apply (f_equal (hd EmptyString)) in Hk; cbn [hd firstn steps] in Hk;
    [exact (Hd Hk) | exact (Hs Hk)].
Qed.

(* ------------------------------------------------------------------ *)
(** ** The quality check                                                *)
(* ------------------------------------------------------------------ *)

Section QualityGateFacts.

Variable L : GoLib.
Variable w : World.

Lemma gateEvents_S n p k :
  gateEvents w n p (S k) =
  EvCompletion p (w_CreateCompletion w n p) :: gateEvents w (S n) p k.
Proof.
  unfold gateEvents. cbn [seq map]. rewrite Nat.add_0_r. f_equal.
  rewrite <- seq_shift, map_map. apply map_ext. intros i.
  now rewrite Nat.add_succ_r.
Qed.

Lemma gateEvents_last n p k :
  gateEvents w n p (S k) =
  (gateEvents w n p k ++ [EvCompletion p (w_CreateCompletion w (n + k) p)])%list.
Proof. unfold gateEvents. now rewrite seq_S, map_app. Qed.

Lemma gateEvents_only n p k : only [KCompletion] (gateEvents w n p k).
Proof.
  unfold only, gateEvents. rewrite Forall_map, Forall_forall.
  intros i _. simpl. auto.
Qed.

Lemma gateEvents_length n p k : length (gateEvents w n p k) = k.
Proof. unfold gateEvents. now rewrite length_map, length_seq. Qed.

Lemma undecodable_S n p k :
  undecodable L w n p (S k) ->
  (exists t, w_CreateCompletion w n p = inr t /\
             UnmarshalQualityCheck L (TrimSpace L t) = None) /\
  undecodable L w (S n) p k.
Proof.
  intros H. split.
  - destruct (H 0) as (t & Ht); [lia|]. rewrite Nat.add_0_r in Ht. eauto.
  - intros i Hi. destruct (H (S i)) as (t & Ht); [lia|].
    rewrite Nat.add_succ_r in Ht. simpl. eauto.
Qed.

(** Answers that do not decode are asked for again: each of them costs
    one unit of fuel and one unit of the allowance of the loop, and
    nothing else. *)
Lemma qualityLoop_undecodable k fuel errs gptOut prompt description tr :
  undecodable L w (length tr) (qualityPrompt gptOut description) k ->
  errs + k <= qualityMaxErrs ->
  qualityLoop L w (k + fuel) errs gptOut prompt description tr =
  qualityLoop L w fuel (errs + k) gptOut prompt description
    (tr ++ gateEvents w (length tr) (qualityPrompt gptOut description) k)%list.
Proof.
  revert errs tr. induction k as [|k IH]; intros errs tr Hu Hle.
  - simpl. now rewrite Nat.add_0_r, app_nil_r.
  - apply undecodable_S in Hu. destruct Hu as [(t & Ht & Hd) Hu].
    change (S k + fuel) with (S (k + fuel)). cbn [qualityLoop].
    destruct (Nat.eqb_spec qualityMaxErrs errs) as [He|He]; [lia|].
    erewrite bind_ret_eq by apply gpt_run.
    rewrite Ht. cbv iota beta. rewrite Hd.
    rewrite IH.
    + rewrite gateEvents_S, Ht, <- app_assoc, length_app, Nat.add_1_r.
      simpl. now rewrite Nat.add_succ_r.
    + now rewrite length_app, Nat.add_1_r.
    + lia.
Qed.

(** An answer that decodes ends the loop. *)
Lemma qualityLoop_verdict fuel errs gptOut prompt description tr t qc :
  errs < qualityMaxErrs ->
  w_CreateCompletion w (length tr) (qualityPrompt gptOut description) = inr t ->
  UnmarshalQualityCheck L (TrimSpace L t) = Some qc ->
  qualityLoop L w (S fuel) errs gptOut prompt description tr =
  (Ret (verdictResult qc),
   (tr ++ [EvCompletion (qualityPrompt gptOut description) (inr t)])%list).
Proof.
  intros He Ht Hd. cbn [qualityLoop].
  destruct (Nat.eqb_spec qualityMaxErrs errs); [lia|].
  erewrite bind_ret_eq by apply gpt_run.
  rewrite Ht. cbv iota beta. rewrite Hd. unfold verdictResult.
  destruct (Quality qc =? "good")%string; reflexivity.
Qed.

(** The quality check of the server step after [k] answers that do not
    decode and one that does. *)
Lemma qualityGate_verdict k gptOut prompt description tr t qc :
  k < qualityMaxErrs ->
  undecodable L w (length tr) (qualityPrompt gptOut description) k ->
  w_CreateCompletion w (length tr + k) (qualityPrompt gptOut description) = inr t ->
  UnmarshalQualityCheck L (TrimSpace L t) = Some qc ->
  qualityGate L w gptOut SeedlingStepServer prompt description tr =
  (Ret (verdictResult qc),
   (tr ++ gateEvents w (length tr) (qualityPrompt gptOut description) (S k))%list).
Proof.
  intros Hk Hu Ht Hd. unfold qualityGate.
  change (SeedlingStepServer =? SeedlingStepServer)%string with true. cbv iota.
  replace (S qualityMaxErrs) with (k + S (qualityMaxErrs - k)) by lia.
  rewrite qualityLoop_undecodable by (assumption || lia).
  erewrite qualityLoop_verdict; [| simpl; lia | | exact Hd].
  - rewrite gateEvents_last, Ht, app_assoc. reflexivity.
  - rewrite length_app, gateEvents_length. exact Ht.
Qed.

(** The quality check of the server step after five answers that do not
    decode. *)
Lemma qualityGate_exhausted gptOut prompt description tr :
  undecodable L w (length tr) (qualityPrompt gptOut description) qualityMaxErrs ->
  qualityGate L w gptOut SeedlingStepServer prompt description tr =
  (Ret (Some (EmptyString, Some "max errors exceeded")),
   (tr ++ gateEvents w (length tr) (qualityPrompt gptOut description)
            qualityMaxErrs)%list).
Proof.
  intros Hu. unfold qualityGate.
  change (SeedlingStepServer =? SeedlingStepServer)%string with true. cbv iota.
  change (S qualityMaxErrs) with (qualityMaxErrs + 1).
  rewrite qualityLoop_undecodable by (assumption || lia).
  reflexivity.
Qed.

End QualityGateFacts.

(* ------------------------------------------------------------------ *)
(** ** Attempts                                                         *)
(* ------------------------------------------------------------------ *)

Lemma onFailure_cases st gptOutput output err :
  onFailure st gptOutput output err =
  if Nat.ltb maxErrs (S (errs st))
  then Return MaxErrorsExceeded (exhaustedState st)
  else Continue (retryState st gptOutput (diagnostic output err)).
Proof. reflexivity. Qed.

Lemma onFailure_counters st gptOutput output err :
  step (nextState (onFailure st gptOutput output err)) = step st /\
  errs (nextState (onFailure st gptOutput output err)) = S (errs st).
Proof.
  rewrite onFailure_cases. destruct (Nat.ltb maxErrs (S (errs st))); now split.
Qed.

Lemma diagnostic_no_output err : diagnostic EmptyString err = err.
Proof. reflexivity. Qed.

Section AttemptFacts.

Variable L : GoLib.
Variable w : World.
Variable seedling : Seedling.

(** The iteration of the loop, once the step is set up. *)
Lemma gptLoop_attempt fuel st tr cur st1 sg tr1 :
  nth_error steps (step st) = Some cur ->
  (cur =? SeedlingStepComplete)%string = false ->
  stageSetup L w seedling cur st tr = (Ret (inl (st1, sg)), tr1) ->
  gptLoop L w seedling (S fuel) st tr =
  bind (attempt L w seedling cur st1 sg)
       (fun n => match n with
                 | Return x st' => ret (x, st')
                 | Continue st' => gptLoop L w seedling fuel st'
                 end) tr1.
Proof.
  intros Hc Hn Hs. cbn [gptLoop]. unfold iteration. rewrite Hc, Hn.
  unfold bind. rewrite Hs. reflexivity.
Qed.

Lemma attempt_oracle_failed cur st sg tr e :
  w_CreateCompletion w (length tr) (prompt st) = inl e ->
  attempt L w seedling cur st sg tr =
  (Ret (Return OracleFailed st),
   (tr ++ [EvCompletion (prompt st) (inl e)])%list).
Proof.
  intros He. unfold attempt. erewrite bind_ret_eq by apply gpt_run.
  rewrite He. reflexivity.
Qed.

Lemma attempt_answered cur st sg tr gptOutput :
  w_CreateCompletion w (length tr) (prompt st) = inr gptOutput ->
  attempt L w seedling cur st sg tr =
  bind (runSeedling L w (stageFile L seedling sg) (codeType sg)
          (stageBuildCmd L seedling sg) gptOutput cur (prompt st)
          (Description seedling))
       (settle w seedling st gptOutput)
       (tr ++ [EvCompletion (prompt st) (inr gptOutput)])%list.
Proof.
  intros He. unfold attempt. erewrite bind_ret_eq by apply gpt_run.
  rewrite He. reflexivity.
Qed.

End AttemptFacts.

(** C5.  When the completion request of an iteration fails, the loop
    returns at once: the trace ends with the failed request (nothing is
    written, built, committed or stored after it), no further request is
    made, and the counters are those of the start of the iteration. *)
Theorem oracle_failure_aborts_task :
  forall (L : GoLib) (w : World) (seedling : Seedling) (fuel : nat)
         (st st1 : LoopState) (sg : Stage) (tr tr1 : Trace) (cur : string)
         (e : error),
    nth_error steps (step st) = Some cur ->
    (cur =? SeedlingStepComplete)%string = false ->
    stageSetup L w seedling cur st tr = (Ret (inl (st1, sg)), tr1) ->
    w_CreateCompletion w (length tr1) (prompt st1) = inl e ->
    gptLoop L w seedling (S fuel) st tr =
      (Ret (OracleFailed, st1),
       (tr1 ++ [EvCompletion (prompt st1) (inl e)])%list) /\
    errs st1 = errs st /\ step st1 = step st.
Proof.
  intros L w seedling fuel st st1 sg tr tr1 cur e Hc Hn Hs He.
  split.
  - rewrite (gptLoop_attempt L w seedling fuel st tr cur st1 sg tr1 Hc Hn Hs).
    erewrite bind_ret_eq by (apply attempt_oracle_failed; exact He).
    reflexivity.
  - destruct (sat_stageSetup L w seedling cur st tr) as (evs & _ & _ & Hq).
    rewrite Hs in Hq. simpl in Hq. tauto.
Qed.

(** A run whose first completion request fails. *)
Lemma oracle_failure_aborts_task_witness :
  exists st1 p,
    gptThread Examples.lib Examples.offlineWorld Examples.fresh [] =
      (Ret (OracleFailed, st1), [EvCompletion p (inl "connection refused")]) /\
    errs st1 = 0 /\ step st1 = 0.
Proof.
  eexists _, _.
  refine (oracle_failure_aborts_task Examples.lib Examples.offlineWorld
            Examples.fresh 19 initialState _ _ [] [] SeedlingStepProtobufs
            "connection refused" _ _ _ _);
    reflexivity.
Defined.

(** X20.  A failed completion request of the quality check is not
    fatal: it is an error of [runSeedling] like any other, so the attempt
    takes the failure branch and the step is tried again within the
    budget. *)
Lemma quality_check_transport_error_is_retried
    (L : GoLib) (w : World) (seedling : Seedling) (st : LoopState) (sg : Stage)
    (tr : Trace) (gptOutput : string) (e : error) :
  w_CreateCompletion w (length tr) (prompt st) = inr gptOutput ->
  w_CreateCompletion w (S (length tr))
    (qualityPrompt gptOutput (Description seedling)) = inl e ->
  attempt L w seedling SeedlingStepServer st sg tr =
    (Ret (onFailure st gptOutput EmptyString e),
     (tr ++ [EvCompletion (prompt st) (inr gptOutput);
             EvCompletion (qualityPrompt gptOutput (Description seedling))
               (inl e)])%list).
Proof.
  intros Hg He.
  rewrite (attempt_answered L w seedling _ st sg tr gptOutput Hg).
  unfold runSeedling, qualityGate.
  change (SeedlingStepServer =? SeedlingStepServer)%string with true. cbv iota.
  cbn [qualityLoop]. change (Nat.eqb qualityMaxErrs 0) with false. cbv iota.
  unfold bind. rewrite gpt_run, length_app, Nat.add_1_r. simpl length.
  rewrite He, <- app_assoc. reflexivity.
Qed.

(** C3.  On the server step, when the quality check, after [k] answers
    that do not decode ([k] below the allowance), gets a verdict that
    decodes and is not good, the attempt takes the failure branch of the
    loop, the one a failed build takes: the error counter is one more, the
    step is the same, and unless the budget is now exceeded the step is
    tried again with a prompt that carries the reason and the suggestions
    of the verdict.  The events of the attempt are completion requests
    only: nothing is written and no command is run. *)
Theorem quality_rejection_counts_as_failure :
  forall (L : GoLib) (w : World) (seedling : Seedling) (st : LoopState)
         (sg : Stage) (tr : Trace) (gptOutput reply : string) (k : nat)
         (qc : QualityCheck),
    w_CreateCompletion w (length tr) (prompt st) = inr gptOutput ->
    k < qualityMaxErrs ->
    undecodable L w (S (length tr))
      (qualityPrompt gptOutput (Description seedling)) k ->
    w_CreateCompletion w (S (length tr) + k)
      (qualityPrompt gptOutput (Description seedling)) = inr reply ->
    UnmarshalQualityCheck L (TrimSpace L reply) = Some qc ->
    Quality qc <> "good" ->
    let evs :=
      EvCompletion (prompt st) (inr gptOutput) ::
      gateEvents w (S (length tr))
        (qualityPrompt gptOutput (Description seedling)) (S k) in
    let next := onFailure st gptOutput EmptyString (rejectionMessage qc) in
    attempt L w seedling SeedlingStepServer st sg tr = (Ret next, (tr ++ evs)%list) /\
    only [KCompletion] evs /\
    step (nextState next) = step st /\
    errs (nextState next) = S (errs st) /\
    next = (if Nat.ltb maxErrs (S (errs st))
            then Return MaxErrorsExceeded (exhaustedState st)
            else Continue (retryState st gptOutput (rejectionMessage qc))).
Proof.
  intros L w seedling st sg tr gptOutput reply k qc Hg Hk Hu Hr Hd Hq evs next.
  assert (Hlen : length (tr ++ [EvCompletion (prompt st) (inr gptOutput)]) =
                 S (length tr)) by (rewrite length_app; simpl; lia).
  split.
  - rewrite (attempt_answered L w seedling _ st sg tr gptOutput Hg).
    unfold runSeedling.
    erewrite bind_ret_eq.
    2:{ erewrite bind_ret_eq.
        2:{ apply (qualityGate_verdict L w k) with (t := reply) (qc := qc);
              rewrite ?Hlen; assumption. }
        unfold verdictResult.
        apply String.eqb_neq in Hq. rewrite Hq.
        rewrite (QualityCheck_Error_bad _ Hq). reflexivity. }
    rewrite Hlen. unfold evs. rewrite <- app_assoc. reflexivity.
  - split.
    { unfold evs. apply Forall_cons; [simpl; auto | apply gateEvents_only]. }
    destruct (onFailure_counters st gptOutput EmptyString (rejectionMessage qc))
      as [H1 H2].
    split; [exact H1|]. split; [exact H2|].
    unfold next. now rewrite onFailure_cases, diagnostic_no_output.
Qed.

(** The quality check rejects the first candidate for the server. *)
Lemma quality_rejection_counts_as_failure_witness :
  attempt Examples.lib Examples.rejectingWorld Examples.fresh SeedlingStepServer
          Examples.onServer Examples.serverStage [] =
  (Ret (Continue (retryState Examples.onServer "package main"
                    (rejectionMessage Examples.badVerdict))),
   [EvCompletion "write a server" (inr "package main");
    EvCompletion (qualityPrompt "package main" "echoes its input")
      (inr (Examples.verdictJSON "bad" "unimplemented method"
              "actually implement the functionality"))]).
Proof.
  refine (proj1 (quality_rejection_counts_as_failure
                   Examples.lib Examples.rejectingWorld Examples.fresh
                   Examples.onServer Examples.serverStage [] "package main"
                   (Examples.verdictJSON "bad" "unimplemented method"
                      "actually implement the functionality")
                   0 Examples.badVerdict _ _ _ _ _ _)).
  - reflexivity.
  - unfold qualityMaxErrs. lia.
  - intros i Hi. lia.
  - reflexivity.
  - reflexivity.
  - discriminate.
Defined.

(** C6.  When the candidate is empty once its fencing and the white space
    around it are stripped, the attempt takes the failure branch of the
    loop, as a failed build does: the error counter is one more, the step
    is the same, and unless the budget is now exceeded the step is tried
    again.  The events of the attempt are completion requests only (on the
    server step the quality check is asked first): no file is written and
    no command is run.  On the other steps the error is [no code to run]
    and the only event is the request for the candidate. *)
Theorem empty_output_counts_as_failure :
  forall (L : GoLib) (w : World) (seedling : Seedling) (cur : string)
         (st : LoopState) (sg : Stage) (tr : Trace) (gptOutput : string),
    w_CreateCompletion w (length tr) (prompt st) = inr gptOutput ->
    stripFencing L (codeType sg) gptOutput = EmptyString ->
    exists (evs : Trace) (e : error),
      attempt L w seedling cur st sg tr =
        (Ret (onFailure st gptOutput EmptyString e), (tr ++ evs)%list) /\
      only [KCompletion] evs /\
      step (nextState (onFailure st gptOutput EmptyString e)) = step st /\
      errs (nextState (onFailure st gptOutput EmptyString e)) = S (errs st) /\
      onFailure st gptOutput EmptyString e =
        (if Nat.ltb maxErrs (S (errs st))
         then Return MaxErrorsExceeded (exhaustedState st)
         else Continue (retryState st gptOutput e)) /\
      (if (cur =? SeedlingStepServer)%string then True
       else e = "no code to run" /\
            evs = [EvCompletion (prompt st) (inr gptOutput)]).
Proof.
  intros L w seedling cur st sg tr gptOutput Hg He.
  set (ev := EvCompletion (prompt st) (inr gptOutput)).
  assert (Hrun : exists e2 e,
    runSeedling L w (stageFile L seedling sg) (codeType sg)
      (stageBuildCmd L seedling sg) gptOutput cur (prompt st)
      (Description seedling) (tr ++ [ev])%list =
      (Ret (EmptyString, Some e), ((tr ++ [ev]) ++ e2)%list) /\
    only [KCompletion] e2 /\
    (if (cur =? SeedlingStepServer)%string then True
     else e = "no code to run" /\ e2 = [])).
  { destruct (cur =? SeedlingStepServer)%string eqn:Ecur.
    - unfold runSeedling.
      destruct (sat_qualityGate L w gptOutput cur (prompt st)
                  (Description seedling) (tr ++ [ev])%list)
        as (e2 & He2 & Ho2 & Hq).
      destruct (qualityGate L w gptOutput cur (prompt st)
                  (Description seedling) (tr ++ [ev])%list)
        as [[[[out err]|]|h] tr2] eqn:Eg; simpl in He2, Hq; subst tr2.
      + destruct Hq as [Hout Herr]. simpl in Hout, Herr. subst out.
        destruct err as [e|]; [|congruence].
        exists e2, e. erewrite bind_ret_eq by exact Eg. auto.
      + exists e2, "no code to run". erewrite bind_ret_eq by exact Eg.
        cbv beta iota. rewrite writeAndBuild_empty by exact He. auto.
      + contradiction.
    - exists [], "no code to run".
      rewrite runSeedling_no_gate by exact Ecur.
      rewrite writeAndBuild_empty by exact He. rewrite app_nil_r.
      repeat split. constructor. }
  destruct Hrun as (e2 & e & Hrun & Ho2 & Hcur).
  exists ([ev] ++ e2)%list, e.
  split.
  { rewrite (attempt_answered L w seedling cur st sg tr gptOutput Hg).
    erewrite bind_ret_eq by exact Hrun. rewrite <- app_assoc. reflexivity. }
  split.
  { apply only_app; [|exact Ho2]. repeat constructor. }
  destruct (onFailure_counters st gptOutput EmptyString e) as [H1 H2].
  split; [exact H1|]. split; [exact H2|].
  split; [now rewrite onFailure_cases, diagnostic_no_output|].
  destruct (cur =? SeedlingStepServer)%string; [exact I|].
  destruct Hcur as [-> ->]. split; reflexivity.
Qed.

(** A completion that is white space only, on the first step. *)
Lemma empty_output_counts_as_failure_witness :
  exists evs e,
    attempt Examples.lib Examples.blankWorld Examples.fresh SeedlingStepProtobufs
            Examples.onProtobufs Examples.protoStage [] =
      (Ret (onFailure Examples.onProtobufs "   " EmptyString e), ([] ++ evs)%list) /\
    only [KCompletion] evs /\
    step (nextState (onFailure Examples.onProtobufs "   " EmptyString e)) = 0 /\
    errs (nextState (onFailure Examples.onProtobufs "   " EmptyString e)) = 1 /\
    onFailure Examples.onProtobufs "   " EmptyString e =
      Continue (retryState Examples.onProtobufs "   " e) /\
    e = "no code to run" /\
    evs = [EvCompletion "write a protobufs file" (inr "   ")].
Proof.
  refine (empty_output_counts_as_failure Examples.lib Examples.blankWorld
            Examples.fresh SeedlingStepProtobufs Examples.onProtobufs
            Examples.protoStage [] "   " _ _);
    reflexivity.
Defined.

(** C7.  On the server step, answers of the quality check that do not
    decode are asked for again within the allowance of its own loop
    ([qualityMaxErrs], five).  After [k] such answers, with [k] below the
    allowance, and a good verdict, the attempt goes on with the writing and
    the build from the unchanged state of the outer loop: the error counter
    of the task has not moved.  Only when the allowance is used up does the
    attempt fail, and then the error counter of the task goes up by one,
    not by the number of answers. *)
Theorem undecodable_verdicts_have_own_allowance :
  forall (L : GoLib) (w : World) (seedling : Seedling) (st : LoopState)
         (sg : Stage) (tr : Trace) (gptOutput : string) (k : nat),
    w_CreateCompletion w (length tr) (prompt st) = inr gptOutput ->
    k <= qualityMaxErrs ->
    undecodable L w (S (length tr))
      (qualityPrompt gptOutput (Description seedling)) k ->
    (k < qualityMaxErrs ->
     exists reply qc,
       w_CreateCompletion w (S (length tr) + k)
         (qualityPrompt gptOutput (Description seedling)) = inr reply /\
       UnmarshalQualityCheck L (TrimSpace L reply) = Some qc /\
       Quality qc = "good") ->
    let gate n :=
      (tr ++ EvCompletion (prompt st) (inr gptOutput) ::
             gateEvents w (S (length tr))
               (qualityPrompt gptOutput (Description seedling)) n)%list in
    attempt L w seedling SeedlingStepServer st sg tr =
      (if Nat.ltb k qualityMaxErrs
       then bind (writeAndBuild L w (stageFile L seedling sg) (codeType sg)
                    (stageBuildCmd L seedling sg) gptOutput)
                 (settle w seedling st gptOutput) (gate (S k))
       else (Ret (onFailure st gptOutput EmptyString "max errors exceeded"),
             gate qualityMaxErrs)) /\
    errs (nextState (onFailure st gptOutput EmptyString "max errors exceeded")) =
      S (errs st).
Proof.
  intros L w seedling st sg tr gptOutput k Hg Hk Hu Hgood gate.
  assert (Hlen : length (tr ++ [EvCompletion (prompt st) (inr gptOutput)]) =
                 S (length tr)) by (rewrite length_app; simpl; lia).
  split; [|apply onFailure_counters].
  rewrite (attempt_answered L w seedling _ st sg tr gptOutput Hg).
  unfold runSeedling.
  destruct (Nat.ltb_spec k qualityMaxErrs) as [Hlt|Hge].
  - destruct (Hgood Hlt) as (reply & qc & Hr & Hd & Hq).
    unfold bind.
    rewrite (qualityGate_verdict L w k _ _ _ _ reply qc)
      by (rewrite ?Hlen; assumption).
    unfold verdictResult. rewrite Hq, String.eqb_refl.
    unfold gate. rewrite Hlen, <- app_assoc. reflexivity.
  - assert (k = qualityMaxErrs) by lia. subst k.
    erewrite bind_ret_eq.
    2:{ erewrite bind_ret_eq.
        2:{ apply qualityGate_exhausted. rewrite Hlen. exact Hu. }
        reflexivity. }
    unfold gate. rewrite Hlen, <- app_assoc. reflexivity.
Qed.

(** Five answers of the quality check that are not JSON. *)
Lemma undecodable_verdicts_have_own_allowance_witness :
  attempt Examples.lib Examples.chattyWorld Examples.fresh SeedlingStepServer
          Examples.onServer Examples.serverStage [] =
    (Ret (onFailure Examples.onServer "package main" EmptyString
            "max errors exceeded"),
     EvCompletion "write a server" (inr "package main") ::
     gateEvents Examples.chattyWorld 1
       (qualityPrompt "package main" "echoes its input") 5) /\
  errs (nextState (onFailure Examples.onServer "package main" EmptyString
                     "max errors exceeded")) = 1.
Proof.
  refine (undecodable_verdicts_have_own_allowance
            Examples.lib Examples.chattyWorld Examples.fresh Examples.onServer
            Examples.serverStage [] "package main" 5 _ _ _ _).
  - reflexivity.
  - unfold qualityMaxErrs. lia.
  - intros i Hi. exists "Looks fine to me.". split; reflexivity.
  - unfold qualityMaxErrs. lia.
Defined.

(* ------------------------------------------------------------------ *)
(** ** The order of the quality check and the write                     *)
(* ------------------------------------------------------------------ *)

Section GateOrder.

Variable L : GoLib.
Variable w : World.

Lemma qualityLoop_trace fuel errs gptOut prompt description tr :
  exists gate,
    snd (qualityLoop L w fuel errs gptOut prompt description tr) =
      (tr ++ gate)%list /\
    Forall (isGateRequest gptOut description) gate /\
    (fst (qualityLoop L w fuel errs gptOut prompt description tr) = Ret None ->
     accepted L gptOut description gate).
Proof.
  revert errs tr. induction fuel as [|fuel IH]; intros errs tr.
  { exists []. simpl. rewrite app_nil_r. repeat split; [constructor | discriminate]. }
  cbn [qualityLoop]. destruct (Nat.eqb qualityMaxErrs errs).
  { exists []. simpl. rewrite app_nil_r. repeat split; [constructor | discriminate]. }
  erewrite bind_ret_eq by apply gpt_run.
  set (p := qualityPrompt gptOut description).
  set (ev := EvCompletion p (w_CreateCompletion w (length tr) p)).
  assert (Hev : isGateRequest gptOut description ev) by (eexists; reflexivity).
  destruct (w_CreateCompletion w (length tr) p) as [e|t] eqn:Et.
  { exists [ev]. simpl. repeat split; [now constructor | discriminate]. }
  cbv beta iota.
  destruct (UnmarshalQualityCheck L (TrimSpace L t)) as [qc|] eqn:Ed.
  - exists [ev]. destruct (Quality qc =? "good")%string eqn:Eq; simpl.
    + repeat split; [now constructor|]. intros _. exists t, qc.
      repeat split; [now left | exact Ed | now apply String.eqb_eq].
    + repeat split; [now constructor | discriminate].
  - destruct (IH (S errs) (tr ++ [ev])%list) as (gate & Hs & Hf & Ha).
    exists (ev :: gate). rewrite Hs, <- app_assoc.
    repeat split; [now constructor|].
    intros Hr. destruct (Ha Hr) as (reply & qc & Hin & Hd & Hq).
    exists reply, qc. repeat split; [now right | exact Hd | exact Hq].
Qed.

Lemma writeAndBuild_trace file codeType buildCmd gptOut tr :
  exists rest,
    snd (writeAndBuild L w file codeType buildCmd gptOut tr) = (tr ++ rest)%list /\
    (rest = [] \/
     exists r rest',
       rest = EvWriteFile file (stripFencing L codeType gptOut) r :: rest' /\
       only [KChmod; KExec] rest').
Proof.
  unfold writeAndBuild. destruct (Nat.eqb _ 0).
  { exists []. simpl. rewrite app_nil_r. auto. }
  unfold bind at 1, WriteFile.
  set (data := stripFencing L codeType gptOut).
  set (ev := EvWriteFile file data (w_WriteFile w (length tr) file data)).
  destruct (w_WriteFile w (length tr) file data) as [e|].
  { exists [ev]. split; [reflexivity|]. right. exists (Some e), [].
    split; [reflexivity | constructor]. }
  match goal with |- context [bind ?m ?k (tr ++ [ev])%list] =>
    assert (Hs : sat [KChmod; KExec] (fun _ : StrErr => True) (fun _ => True)
                   (bind m k))
  end.
  { eapply sat_bind with (Q1 := fun _ => True).
    - destruct (codeType =? "bash")%string;
        [apply sat_Chmod; simpl; auto | now apply sat_ret].
    - intros [e|] _; [now apply sat_ret|]. unfold buildAndCommit.
      eapply sat_bind; [apply sat_CombinedOutput; simpl; auto|].
      intros [out [e|]] _; [now apply sat_ret|].
      eapply sat_bind; [apply sat_Run; simpl; auto|].
      intros [e|] _; [now apply sat_ret|].
      eapply sat_bind; [apply sat_Run; simpl; auto|].
      intros [e|] _; now apply sat_ret. }
  destruct (Hs (tr ++ [ev])%list) as (rest' & Hr & Ho & _).
  exists (ev :: rest'). rewrite Hr, <- app_assoc. split; [reflexivity|].
  right. exists None, rest'. split; [reflexivity | exact Ho].
Qed.

End GateOrder.

(** C4, as amended.  On the server step [runSeedling] first asks the
    quality check, about the candidate as the completion returned it, and
    writes afterwards: the events of the call are the requests of the
    quality check followed, if anything follows, by the write of the
    stripped candidate to the file of the step and then by commands and a
    change of mode only.  A write happens only when the quality check has
    accepted the candidate, so a rejected candidate is not written. *)
Theorem quality_check_precedes_write :
  forall (L : GoLib) (w : World) (file codeType : string) (buildCmd : Cmd)
         (gptOut prompt description : string) (tr : Trace),
    exists gate rest,
      snd (runSeedling L w file codeType buildCmd gptOut SeedlingStepServer
             prompt description tr) = (tr ++ gate ++ rest)%list /\
      Forall (isGateRequest gptOut description) gate /\
      (rest = [] \/
       exists r rest',
         rest = EvWriteFile file (stripFencing L codeType gptOut) r :: rest' /\
         only [KChmod; KExec] rest' /\
         accepted L gptOut description gate).
Proof.
  intros L w file codeType buildCmd gptOut prompt description tr.
  unfold runSeedling, qualityGate.
  change (SeedlingStepServer =? SeedlingStepServer)%string with true. cbv iota.
  destruct (qualityLoop_trace L w (S qualityMaxErrs) 0 gptOut prompt description tr)
    as (gate & Hs & Hg & Ha).
  unfold bind.
  destruct (qualityLoop L w (S qualityMaxErrs) 0 gptOut prompt description tr)
    as [[[r|]|h] tr1]; simpl in Hs, Ha; subst tr1.
  - exists gate, []. rewrite app_nil_r. auto.
  - destruct (writeAndBuild_trace L w file codeType buildCmd gptOut (tr ++ gate)%list)
      as (rest & Hr & Hrest).
    exists gate, rest. rewrite Hr, <- app_assoc. split; [reflexivity|].
    split; [exact Hg|].
    destruct Hrest as [->|(r & rest' & -> & Ho)]; [now left|].
    right. exists r, rest'. auto.
  - exists gate, []. rewrite app_nil_r. auto.
Qed.

(** C4, as stated, fails.  The quality check rejects the candidate for
    the server: it was asked with no write before it, and the attempt ends
    without any write, so the rejected candidate is not on disk. *)
Lemma rejected_candidate_is_not_written :
  ~ writtenBeforeGate
      (stageFile Examples.lib Examples.fresh Examples.serverStage)
      (stripFencing Examples.lib "go" "package main")
      (qualityPrompt "package main" "echoes its input")
      (snd (attempt Examples.lib Examples.rejectingWorld Examples.fresh
              SeedlingStepServer Examples.onServer Examples.serverStage [])) /\
  ~ In KWriteFile
      (map kind
         (snd (attempt Examples.lib Examples.rejectingWorld Examples.fresh
                 SeedlingStepServer Examples.onServer Examples.serverStage []))).
Proof.
  assert (E : snd (attempt Examples.lib Examples.rejectingWorld Examples.fresh
                     SeedlingStepServer Examples.onServer Examples.serverStage []) =
              [EvCompletion "write a server" (inr "package main");
               EvCompletion (qualityPrompt "package main" "echoes its input")
                 (inr (Examples.verdictJSON "bad" "unimplemented method"
                         "actually implement the functionality"))])
    by (vm_compute; reflexivity).
  rewrite E. split.
  - intros H.
    destruct (H [EvCompletion "write a server" (inr "package main")] _ [] eq_refl)
      as (e & [Hin|[]]).
    discriminate Hin.
  - simpl. intros [H|[H|[]]]; discriminate H.
Qed.


(* ------------------------------------------------------------------ *)
(** ** A build that does not exit                                       *)
(* ------------------------------------------------------------------ *)

Lemma length_zero_empty (s : string) :
  s <> EmptyString -> Nat.eqb (String.length s) 0 = false.
Proof. destruct s; [congruence | reflexivity]. Qed.

Lemma writeAndBuild_hangs (L : GoLib) (w : World) file codeType buildCmd gptOut tr :
  stripFencing L codeType gptOut <> EmptyString ->
  w_WriteFile w (length tr) file (stripFencing L codeType gptOut) = None ->
  (if (codeType =? "bash")%string then w_Chmod w (S (length tr)) file else None)
    = None ->
  w_exec w (length tr + (if (codeType =? "bash")%string then 2 else 1)) buildCmd
    = Hangs ->
  writeAndBuild L w file codeType buildCmd gptOut tr =
  (Stop (Blocked buildCmd),
   (tr ++ hangingBuildEvents file codeType (stripFencing L codeType gptOut)
            buildCmd)%list).
Proof.
  intros Hne Hw Hc Hx. unfold writeAndBuild, hangingBuildEvents.
  rewrite (length_zero_empty _ Hne).
  unfold bind at 1, WriteFile. rewrite Hw.
  destruct (codeType =? "bash")%string.
  - unfold bind at 1, Chmod. rewrite length_app, Nat.add_1_r, Hc.
    unfold buildAndCommit, bind, CombinedOutput.
    rewrite !length_app. simpl length.
    replace (length tr + 1 + 1) with (length tr + 2) by lia.
    rewrite Hx, <- !app_assoc. reflexivity.
  - unfold bind at 1, ret at 1.
    unfold buildAndCommit, bind, CombinedOutput.
    rewrite length_app. simpl length. rewrite Hx, <- app_assoc. reflexivity.
Qed.

(** C9, as amended.  The build command is run with nothing that bounds
    it: when an attempt reaches the build (the candidate passed the quality
    check, is not empty and was written) and the command does not exit, the
    goroutine waits for it for ever, however many iterations it would have
    left.  No failure is recorded: the loop has no next state and the error
    counter is not touched. *)
Theorem hanging_build_blocks_worker :
  forall (L : GoLib) (w : World) (seedling : Seedling) (fuel : nat)
         (st st1 : LoopState) (sg : Stage) (tr tr1 tr2 : Trace)
         (cur gptOutput : string),
    nth_error steps (step st) = Some cur ->
    (cur =? SeedlingStepComplete)%string = false ->
    stageSetup L w seedling cur st tr = (Ret (inl (st1, sg)), tr1) ->
    w_CreateCompletion w (length tr1) (prompt st1) = inr gptOutput ->
    qualityGate L w gptOutput cur (prompt st1) (Description seedling)
      (tr1 ++ [EvCompletion (prompt st1) (inr gptOutput)])%list = (Ret None, tr2) ->
    stripFencing L (codeType sg) gptOutput <> EmptyString ->
    w_WriteFile w (length tr2) (stageFile L seedling sg)
      (stripFencing L (codeType sg) gptOutput) = None ->
    (if (codeType sg =? "bash")%string
     then w_Chmod w (S (length tr2)) (stageFile L seedling sg) else None) = None ->
    w_exec w (length tr2 + (if (codeType sg =? "bash")%string then 2 else 1))
      (stageBuildCmd L seedling sg) = Hangs ->
    gptLoop L w seedling (S fuel) st tr =
      (Stop (Blocked (stageBuildCmd L seedling sg)),
       (tr2 ++ hangingBuildEvents (stageFile L seedling sg) (codeType sg)
                 (stripFencing L (codeType sg) gptOutput)
                 (stageBuildCmd L seedling sg))%list).
Proof.
  intros L w seedling fuel st st1 sg tr tr1 tr2 cur gptOutput
         Hc Hn Hs Hg Hq Hne Hw Hch Hx.
  rewrite (gptLoop_attempt L w seedling fuel st tr cur st1 sg tr1 Hc Hn Hs).
  apply bind_stop_eq.
  rewrite (attempt_answered L w seedling cur st1 sg tr1 gptOutput Hg).
  apply bind_stop_eq. unfold runSeedling.
  erewrite bind_ret_eq by exact Hq. cbv beta iota.
  now apply writeAndBuild_hangs.
Qed.

(** The first build of a fresh task never exits. *)
Lemma hanging_build_blocks_worker_witness :
  exists c evs,
    gptThread Examples.lib Examples.hangingWorld Examples.fresh [] =
      (Stop (Blocked c), evs) /\
    Path c = "protoc" /\ Dir c = "repos/default/echo" /\
    map kind evs = [KCompletion; KWriteFile; KExec].
Proof.
  eexists _, _. split.
  - refine (hanging_build_blocks_worker Examples.lib Examples.hangingWorld
              Examples.fresh 19 initialState _ _ [] [] _ SeedlingStepProtobufs
              "package main" _ _ _ _ _ _ _ _ _);
      try reflexivity.
    discriminate.
  - repeat split; reflexivity.
Defined.

(** C9, as stated, fails.  With a build command that never exits the
    goroutine of a fresh task is blocked in its first build: it has made one
    completion request and one write, no error was counted and nothing
    follows the command. *)
Lemma hanging_build_is_not_bounded :
  exists c,
    gptThread Examples.lib Examples.hangingWorld Examples.fresh [] =
      (Stop (Blocked c),
       [EvCompletion
          (protoPrompt "echoes its input" "echo" "echo" "echoes its input" ++ nl ++
           fence ++ "protobuf" ++ nl)
          (inr "package main");
        EvWriteFile "repos/default/echo/protobufs/echo.proto" "package main" None;
        EvExec c Hangs]) /\
    c = mkCmd "protoc"
          ["-I=."; "--go_out=."; "--go-grpc_out=."; "protobufs/echo.proto"]
          "repos/default/echo".
Proof. eexists. split; [vm_compute; reflexivity | reflexivity]. Qed.



(* ------------------------------------------------------------------ *)
(** ** What a successful call of runSeedling has done                   *)
(* ------------------------------------------------------------------ *)

Lemma writeAndBuild_success (L : GoLib) (w : World) file codeType buildCmd
    gptOut tr out tr' :
  writeAndBuild L w file codeType buildCmd gptOut tr = (Ret (out, None), tr') ->
  out = EmptyString /\
  stripFencing L codeType gptOut <> EmptyString /\
  exists o1 o2 o3,
    tr' = (tr ++ successEvents L file codeType (stripFencing L codeType gptOut)
                   buildCmd o1 o2 o3)%list.
Proof.
  unfold writeAndBuild, successEvents.
  destruct (stripFencing L codeType gptOut) as [|c data'] eqn:Ed;
    [discriminate|].
  cbn [String.length Nat.eqb].
  unfold bind at 1, WriteFile.
  destruct (w_WriteFile w (length tr) file (String c data')) as [e|];
    [discriminate|].
  destruct (codeType =? "bash")%string.
  - unfold bind at 1, Chmod. destruct (w_Chmod w _ file) as [e|]; [discriminate|].
    unfold buildAndCommit, Run, bind, CombinedOutput, ret.
    repeat match goal with
    | |- context [w_exec w ?n ?c] => destruct (w_exec w n c) as [? [?|]|]
    end; intros H; try discriminate H.
    injection H as <- <-. split; [reflexivity|]. split; [discriminate|].
    eexists _, _, _. rewrite <- !app_assoc. reflexivity.
  - unfold bind at 1, ret at 1.
    unfold buildAndCommit, Run, bind, CombinedOutput, ret.
    repeat match goal with
    | |- context [w_exec w ?n ?c] => destruct (w_exec w n c) as [? [?|]|]
    end; intros H; try discriminate H.
    injection H as <- <-. split; [reflexivity|]. split; [discriminate|].
    eexists _, _, _. rewrite <- !app_assoc. reflexivity.
Qed.

Lemma isGateRequest_only gptOut description gate :
  Forall (isGateRequest gptOut description) gate -> only [KCompletion] gate.
Proof.
  unfold only. intros H. eapply Forall_impl; [|exact H].
  intros e (r & ->). simpl. auto.
Qed.

Lemma runSeedling_success :
  forall (L : GoLib) (w : World) (file codeType : string) (buildCmd : Cmd)
         (gptOut step prompt description out : string) (tr tr' : Trace),
    runSeedling L w file codeType buildCmd gptOut step prompt description tr =
      (Ret (out, None), tr') ->
    out = EmptyString /\
    stripFencing L codeType gptOut <> EmptyString /\
    exists gate o1 o2 o3,
      tr' = (tr ++ gate ++
             successEvents L file codeType (stripFencing L codeType gptOut)
               buildCmd o1 o2 o3)%list /\
      only [KCompletion] gate /\
      (if (step =? SeedlingStepServer)%string
       then accepted L gptOut description gate
       else gate = []).
Proof.
  intros L w file codeType buildCmd gptOut step prompt description out tr tr' H.
  unfold runSeedling, qualityGate in H.
  destruct (step =? SeedlingStepServer)%string.
  - destruct (qualityLoop_trace L w (S qualityMaxErrs) 0 gptOut prompt
                description tr) as (gate & Hs & Hg & Ha).
    assert (Hsat := sat_qualityLoop L w (S qualityMaxErrs) 0 gptOut prompt
                      description).
    destruct (Hsat ltac:(unfold qualityMaxErrs; lia)
                   ltac:(unfold qualityMaxErrs; lia) tr) as (g2 & _ & _ & Hq).
    clear Hsat. unfold bind in H.
    destruct (qualityLoop L w (S qualityMaxErrs) 0 gptOut prompt description tr)
      as [[[[o e]|]|h] tr1]; simpl in Hs, Ha, Hq; subst tr1.
    + unfold ret in H. injection H as _ He _. subst e.
      destruct Hq as [_ Hn]. now elim Hn.
    + apply writeAndBuild_success in H. destruct H as (Ho & Hd & o1 & o2 & o3 & ->).
      split; [exact Ho|]. split; [exact Hd|].
      exists gate, o1, o2, o3. rewrite <- app_assoc.
      split; [reflexivity|].
      split; [exact (isGateRequest_only _ _ _ Hg) | now apply Ha].
    + discriminate H.
  - unfold bind, ret in H. apply writeAndBuild_success in H.
    destruct H as (Ho & Hd & o1 & o2 & o3 & ->).
    split; [exact Ho|]. split; [exact Hd|].
    exists [], o1, o2, o3. repeat split. constructor.
Qed.

(** X1.  When [runSeedling] returns without error it returns no output,
    the stripped candidate was not empty, and what it did is exactly this:
    on the server step the requests of the quality check, ending in an
    accepted verdict (on the other steps nothing); then the write of the
    stripped candidate, the change of mode for a shell script, the build,
    [git add] and [git commit], each of them without error. *)
Theorem runSeedling_success_trace :
  forall (L : GoLib) (w : World) (file codeType : string) (buildCmd : Cmd)
         (gptOut step prompt description out : string) (tr tr' : Trace),
    runSeedling L w file codeType buildCmd gptOut step prompt description tr =
      (Ret (out, None), tr') ->
    out = EmptyString /\
    stripFencing L codeType gptOut <> EmptyString /\
    exists gate o1 o2 o3,
      tr' = (tr ++ gate ++
             successEvents L file codeType (stripFencing L codeType gptOut)
               buildCmd o1 o2 o3)%list /\
      only [KCompletion] gate /\
      (if (step =? SeedlingStepServer)%string
       then accepted L gptOut description gate
       else gate = []).
Proof.
  intros L w file codeType buildCmd gptOut step prompt description out tr tr' H.
  exact (runSeedling_success L w file codeType buildCmd gptOut step prompt
           description out tr tr' H).
Qed.

(** The first attempt of the server step in a world where all goes well. *)
Lemma runSeedling_success_trace_witness :
  exists gate o1 o2 o3,
    [EvCompletion (qualityPrompt "package main" "echoes its input")
       (inr (Examples.verdictJSON "good" "complete" "none"));
     EvWriteFile "server/main.go" "package main" None;
     EvExec (mkCmd "sh" ["-c"; "go build"] "repos/default/echo")
       (Exited EmptyString None);
     EvExec (gitAdd Examples.lib) (Exited EmptyString None);
     EvExec (gitCommit Examples.lib) (Exited EmptyString None)] =
    ([] ++ gate ++
     successEvents Examples.lib "server/main.go" "go"
       (stripFencing Examples.lib "go" "package main")
       (mkCmd "sh" ["-c"; "go build"] "repos/default/echo") o1 o2 o3)%list /\
    only [KCompletion] gate /\
    accepted Examples.lib "package main" "echoes its input" gate.
Proof.
  refine (proj2 (proj2 (runSeedling_success_trace
            Examples.lib Examples.happyWorld "server/main.go" "go"
            (mkCmd "sh" ["-c"; "go build"] "repos/default/echo")
            "package main" SeedlingStepServer "write a server" "echoes its input"
            EmptyString [] _ _))).
  reflexivity.
Defined.

(* ------------------------------------------------------------------ *)
(** ** The step is stored after the commit                              *)
(* ------------------------------------------------------------------ *)

Lemma list_eqb_refl {A} (eqb : A -> A -> bool) (l : list A) :
  (forall x, eqb x x = true) -> list_eqb eqb l l = true.
Proof. intros H. induction l as [|x l IH]; simpl; [reflexivity | now rewrite H, IH]. Qed.

Lemma Cmd_eqb_refl (c : Cmd) : Cmd_eqb c c = true.
Proof.
  unfold Cmd_eqb. rewrite !String.eqb_refl, list_eqb_refl; [reflexivity|].
  apply String.eqb_refl.
Qed.

Lemma storesFollowCommits_app L prev (t1 t2 : Trace) :
  storesFollowCommits L prev (t1 ++ t2)%list =
  storesFollowCommits L prev t1 && storesFollowCommits L (lastOr prev t1) t2.
Proof.
  revert prev. induction t1 as [|e t1 IH]; intros prev; [reflexivity|].
  cbn [app storesFollowCommits lastOr]. rewrite IH. now rewrite andb_assoc.
Qed.

Lemma storesFollowCommits_only L prev ks evs :
  only ks evs -> ~ In KUpdateStep ks -> storesFollowCommits L prev evs = true.
Proof.
  intros Ho Hk. revert prev. induction Ho as [|e evs He _ IH]; intros prev;
    [reflexivity|].
  cbn [storesFollowCommits]. rewrite IH.
  destruct e; try reflexivity. simpl in He. contradiction.
Qed.

Lemma lastOr_app prev (t1 t2 : Trace) :
  lastOr prev (t1 ++ t2)%list = lastOr (lastOr prev t1) t2.
Proof. revert prev. induction t1 as [|e t1 IH]; intros prev; [reflexivity | apply IH]. Qed.

Lemma lastOr_successEvents L prev file codeType data buildCmd o1 o2 o3 :
  lastOr prev (successEvents L file codeType data buildCmd o1 o2 o3) =
  Some (EvExec (gitCommit L) (Exited o3 None)).
Proof.
  unfold successEvents. destruct (codeType =? "bash")%string; reflexivity.
Qed.

Section StoreOrder.

Variable L : GoLib.
Variable w : World.
Variable seedling : Seedling.

Lemma attempt_stores_follow_commits cur st sg tr :
  exists evs r,
    attempt L w seedling cur st sg tr = (r, (tr ++ evs)%list) /\
    forall prev, storesFollowCommits L prev evs = true.
Proof.
  unfold attempt. erewrite bind_ret_eq by apply gpt_run.
  set (ev := EvCompletion (prompt st) (w_CreateCompletion w (length tr) (prompt st))).
  destruct (w_CreateCompletion w (length tr) (prompt st)) as [e|gptOutput].
  { exists [ev], (Ret (Return OracleFailed st)). split; [reflexivity|].
    intros prev. reflexivity. }
  match goal with |- context [runSeedling ?x1 ?x2 ?x3 ?x4 ?x5 ?x6 ?x7 ?x8 ?x9] =>
    destruct (sat_runSeedling x1 x2 x3 x4 x5 x6 x7 x8 x9 (tr ++ [ev])%list)
      as (e2 & He2 & Ho2 & _);
    destruct (runSeedling x1 x2 x3 x4 x5 x6 x7 x8 x9 (tr ++ [ev])%list)
      as [[[output [e|]]|h'] tr2] eqn:Er
  end; simpl in He2; subst tr2.
  - erewrite bind_ret_eq by exact Er.
    exists ([ev] ++ e2)%list, (Ret (onFailure st gptOutput output e)).
    rewrite app_assoc. split; [reflexivity|].
    intros prev. rewrite storesFollowCommits_app. simpl.
    eapply storesFollowCommits_only; [exact Ho2|]. simpl. intuition discriminate.
  - erewrite bind_ret_eq by exact Er.
    apply runSeedling_success in Er.
    destruct Er as (_ & _ & gate & o1 & o2 & o3 & Et & Hg & _).
    apply app_inv_head in Et. subst e2.
    unfold settle, onSuccess.
    destruct (nth_error steps (step st + 1)) as [next|].
    2:{ exists ([ev] ++ gate ++ successEvents L (stageFile L seedling sg)
                  (codeType sg) (stripFencing L (codeType sg) gptOutput)
                  (stageBuildCmd L seedling sg) o1 o2 o3)%list, (Stop Panic).
        split; [now rewrite <- !app_assoc|].
        intros prev. rewrite storesFollowCommits_app. simpl.
        eapply storesFollowCommits_only; [exact Ho2|]. simpl. intuition discriminate. }
    unfold bind, updateStep.
    set (r := w_updateStep w _ next (ID seedling)).
    assert (Hev : forall prev,
              storesFollowCommits L prev
                (([ev] ++ gate ++ successEvents L (stageFile L seedling sg)
                    (codeType sg) (stripFencing L (codeType sg) gptOutput)
                    (stageBuildCmd L seedling sg) o1 o2 o3) ++
                 [EvUpdateStep next (ID seedling) r])%list = true).
    { intros prev. rewrite storesFollowCommits_app.
      rewrite (storesFollowCommits_app L prev [ev]).
      rewrite (storesFollowCommits_only L _ _ _ Ho2)
        by (simpl; intuition discriminate).
      rewrite !lastOr_app, lastOr_successEvents.
      simpl. now rewrite Cmd_eqb_refl. }
    destruct r as [e|]; eexists _, _;
      (split; [rewrite <- !app_assoc; reflexivity |]);
      intros prev; rewrite <- (Hev prev); now rewrite <- !app_assoc.
  - erewrite bind_stop_eq by exact Er.
    exists ([ev] ++ e2)%list, (Stop h'). rewrite app_assoc.
    split; [reflexivity|].
    intros prev. rewrite storesFollowCommits_app. simpl.
    eapply storesFollowCommits_only; [exact Ho2|]. simpl. intuition discriminate.
Qed.

Lemma iteration_stores_follow_commits st tr :
  exists evs r,
    iteration L w seedling st tr = (r, (tr ++ evs)%list) /\
    forall prev, storesFollowCommits L prev evs = true.
Proof.
  unfold iteration. destruct (nth_error steps (step st)) as [cur|].
  2:{ exists [], (Stop Panic). rewrite app_nil_r. split; reflexivity. }
  destruct (cur =? SeedlingStepComplete)%string.
  - destruct (sat_launch L w seedling st tr) as (e1 & He1 & Ho1 & _).
    destruct (launch L w seedling st tr) as [r tr1]. simpl in He1. subst tr1.
    exists e1, r. split; [reflexivity|]. intros prev.
    eapply storesFollowCommits_only; [exact Ho1|]. simpl. intuition discriminate.
  - destruct (sat_stageSetup L w seedling cur st tr) as (e1 & He1 & Ho1 & _).
    assert (H1 : forall prev, storesFollowCommits L prev e1 = true).
    { intros prev. eapply storesFollowCommits_only; [exact Ho1|].
      simpl. intuition discriminate. }
    destruct (stageSetup L w seedling cur st tr) as [[[[st1 sg]|x]|h] tr1] eqn:Es;
      simpl in He1; subst tr1.
    + erewrite bind_ret_eq by exact Es.
      destruct (attempt_stores_follow_commits cur st1 sg (tr ++ e1)%list)
        as (e2 & r & Ha & H2).
      exists (e1 ++ e2)%list, r. rewrite app_assoc. split; [exact Ha|].
      intros prev. now rewrite storesFollowCommits_app, H1, H2.
    + erewrite bind_ret_eq by exact Es.
      exists e1, (Ret (Return x st)). split; [reflexivity | exact H1].
    + erewrite bind_stop_eq by exact Es.
      exists e1, (Stop h). split; [reflexivity | exact H1].
Qed.

Lemma gptLoop_stores_follow_commits fuel st tr :
  exists evs r,
    gptLoop L w seedling fuel st tr = (r, (tr ++ evs)%list) /\
    forall prev, storesFollowCommits L prev evs = true.
Proof.
  revert st tr. induction fuel as [|fuel IH]; intros st tr.
  { exists [], (Stop OutOfFuel). rewrite app_nil_r. split; reflexivity. }
  cbn [gptLoop].
  destruct (iteration_stores_follow_commits st tr) as (e1 & r1 & Hi & H1).
  destruct r1 as [[st'|x st']|h].
  - erewrite bind_ret_eq by exact Hi. cbv iota.
    destruct (IH st' (tr ++ e1)%list) as (e2 & r & Hl & H2).
    exists (e1 ++ e2)%list, r. rewrite app_assoc. split; [exact Hl|].
    intros prev. now rewrite storesFollowCommits_app, H1, H2.
  - erewrite bind_ret_eq by exact Hi.
    exists e1, (Ret (x, st')). split; [reflexivity | exact H1].
  - erewrite bind_stop_eq by exact Hi.
    exists e1, (Stop h). split; [reflexivity | exact H1].
Qed.

End StoreOrder.

(** X2.  In every run of [gptThread] each update of the step column,
    whether it succeeds or not, is the event that directly follows a
    [git commit] of the repository that succeeded: a step is never stored
    for an artifact that was not built and committed. *)
Theorem gptThread_stores_after_commit :
  forall (L : GoLib) (w : World) (seedling : Seedling),
    storesFollowCommits L None (snd (gptThread L w seedling [])) = true.
Proof.
  intros L w seedling.
  destruct (gptLoop_stores_follow_commits L w seedling gptThreadFuel initialState [])
    as (evs & r & Hl & H).
  unfold gptThread. rewrite Hl. simpl. apply H.
Qed.

(* ------------------------------------------------------------------ *)
(** ** Where the loop returns                                           *)
(* ------------------------------------------------------------------ *)

Section Exits.

Variable L : GoLib.
Variable w : World.
Variable seedling : Seedling.

Lemma attempt_exits cur st sg tr x st' tr' :
  attempt L w seedling cur st sg tr = (Ret (Return x st'), tr') ->
  x = OracleFailed \/ x = MaxErrorsExceeded \/ x = UpdateStepFailed.
Proof.
  unfold attempt. erewrite bind_ret_eq by apply gpt_run.
  destruct (w_CreateCompletion w (length tr) (prompt st)) as [e|gptOutput].
  { intros H. injection H as <- _ _. auto. }
  unfold bind at 1.
  match goal with |- context [runSeedling ?x1 ?x2 ?x3 ?x4 ?x5 ?x6 ?x7 ?x8 ?x9 ?t] =>
    destruct (runSeedling x1 x2 x3 x4 x5 x6 x7 x8 x9 t)
      as [[[output [e|]]|h'] tr2]
  end; [| |discriminate].
  - unfold settle, ret. rewrite onFailure_cases.
    destruct (Nat.ltb maxErrs (S (errs st))); [|discriminate].
    intros H. injection H as <- _ _. auto.
  - unfold settle, onSuccess.
    destruct (nth_error steps (step st + 1)); [|discriminate].
    unfold bind, updateStep, ret.
    destruct (w_updateStep w _ _ _); [|discriminate].
    intros H. injection H as <- _ _. auto.
Qed.

(** An iteration returns from the branch of the complete step exactly
    when the loop is on position four, and then with its state unchanged. *)
Lemma iteration_exits st tr x st' tr' :
  step st <= 4 ->
  iteration L w seedling st tr = (Ret (Return x st'), tr') ->
  (step st = 4 /\ st' = st /\ (x = DockerRunFailed \/ x = ContainerLaunched)) \/
  (step st < 4 /\ x <> DockerRunFailed /\ x <> ContainerLaunched).
Proof.
  intros Hstep. unfold iteration.
  destruct (steps_lookup _ Hstep) as (cur & -> & [[-> H4]|[-> Hlt]]).
  - intros H. left. split; [exact H4|].
    destruct (sat_launch L w seedling st tr) as (e1 & _ & _ & Hr).
    rewrite H in Hr. simpl in Hr.
    destruct Hr as [Hr|Hr]; injection Hr as -> ->; auto.
  - intros H. right. split; [exact Hlt|].
    destruct (sat_stageSetup L w seedling cur st tr) as (e1 & _ & _ & Hq).
    unfold bind in H.
    destruct (stageSetup L w seedling cur st tr) as [[[[st1 sg]|y]|h] tr1];
      simpl in Hq; [| |discriminate].
    + apply attempt_exits in H.
      destruct H as [->|[->| ->]]; split; discriminate.
    + unfold ret in H. injection H as <- _ _.
      destruct Hq as [->| ->]; split; discriminate.
Qed.

(** The iteration in which a run of the loop returns. *)
Lemma gptLoop_last fuel st tr x st' tr' :
  step st <= 4 ->
  gptLoop L w seedling fuel st tr = (Ret (x, st'), tr') ->
  exists stL trL,
    step stL <= 4 /\
    iteration L w seedling stL trL = (Ret (Return x st'), tr').
Proof.
  revert st tr. induction fuel as [|fuel IH]; intros st tr Hstep; [discriminate|].
  cbn [gptLoop].
  destruct (iteration_post L w seedling st tr Hstep) as (e1 & r1 & Hi & Hp).
  destruct r1 as [[st1|y st1]|h].
  - erewrite bind_ret_eq by exact Hi. cbv iota. apply IH.
    destruct Hp as [(_ & -> & _) | (next & Hn & _ & -> & _)]; [exact Hstep|].
    assert (S (step st) < 5); [|lia].
    apply (nth_error_Some steps). rewrite Hn. discriminate.
  - erewrite bind_ret_eq by exact Hi. unfold ret. intros H.
    injection H as <- <- <-. exists st, tr. split; [exact Hstep | exact Hi].
  - erewrite bind_stop_eq by exact Hi. discriminate.
Qed.

End Exits.

(** X3.  [docker run] is reached only at the end of the list of steps:
    when a run of [gptThread] returns from the branch that starts the
    container, with the container started or with [docker run] failed, the
    loop is on position four and the four steps Server, Dockerfile,
    ExampleClientCall and Complete were stored for the task, in this order. *)
Theorem container_started_only_when_complete :
  forall (L : GoLib) (w : World) (seedling : Seedling) (x : Exit)
         (st : LoopState) (tr : Trace),
    gptThread L w seedling [] = (Ret (x, st), tr) ->
    x = ContainerLaunched \/ x = DockerRunFailed ->
    step st = 4 /\
    storedSteps (ID seedling) tr =
      [SeedlingStepServer; SeedlingStepDockerfile;
       SeedlingStepExampleClientCall; SeedlingStepComplete].
Proof.
  intros L w seedling x st tr Hrun Hx.
  assert (H4 : step st = 4).
  { destruct (gptLoop_last L w seedling gptThreadFuel initialState [] x st tr)
      as (stL & trL & HL & Hi); [simpl; lia | exact Hrun |].
    destruct (iteration_exits L w seedling stL trL x st tr HL Hi)
      as [(H4 & -> & _) | (_ & Hn1 & Hn2)]; [exact H4|].
    destruct Hx as [->| ->]; congruence. }
  split; [exact H4|].
  destruct (gptLoop_post L w seedling gptThreadFuel initialState [])
    as (evs & r & Hl & k & Hk & _ & Hr);
    [simpl; lia | simpl; lia | vm_compute; lia |].
  unfold gptThread in Hrun. rewrite Hl in Hrun. injection Hrun as -> <-.
  rewrite Hk. destruct Hr as [Hs _]. simpl in Hs.
  replace k with 4 by congruence. reflexivity.
Qed.

(** A run in which everything works. *)
Lemma container_started_only_when_complete_witness :
  exists st tr,
    gptThread Examples.lib Examples.happyWorld Examples.fresh [] =
      (Ret (ContainerLaunched, st), tr) /\
    step st = 4 /\
    storedSteps (ID Examples.fresh) tr =
      [SeedlingStepServer; SeedlingStepDockerfile;
       SeedlingStepExampleClientCall; SeedlingStepComplete].
Proof.
  eexists _, _. split; [vm_compute; reflexivity|].
  refine (container_started_only_when_complete Examples.lib Examples.happyWorld
            Examples.fresh ContainerLaunched _ _ _ _);
    [vm_compute; reflexivity | left; reflexivity].
Defined.

(* ------------------------------------------------------------------ *)
(** ** The prompt only grows                                            *)
(* ------------------------------------------------------------------ *)

Lemma extends_refl (a : string) : extends a a.
Proof. exists EmptyString. now rewrite append_nil_r_str. Qed.

Lemma extends_app (a b : string) : extends a (a ++ b).
Proof. now exists b. Qed.

Lemma extends_trans (a b c : string) : extends a b -> extends b c -> extends a c.
Proof.
  intros (x & ->) (y & ->). exists (x ++ y). apply append_assoc_str.
Qed.

Section PromptGrowth.

Variable L : GoLib.
Variable w : World.
Variable seedling : Seedling.

Lemma sat_stageSetup_prompt cur st :
  sat [KDefinitions; KNonStdImports; KExec; KReadFile]
      (setupKeepsPrompt cur st) realHalt
      (stageSetup L w seedling cur st).
Proof.
  unfold stageSetup.
  destruct (String.eqb_spec cur SeedlingStepProtobufs) as [->|_].
  { apply sat_ret. destruct (errMode st) eqn:Em; simpl.
    - split; [reflexivity|]. right. apply extends_app.
    - split; [exact Em|]. left. now split. }
  destruct (cur =? SeedlingStepServer)%string.
  { eapply sat_bind; [apply sat_definitions; simpl; auto|].
    intros [e|protoBufDefs] _; [now apply sat_halt|].
    eapply sat_bind; [apply sat_definitions; simpl; auto|].
    intros [e|grpcDefs] _; [now apply sat_halt|].
    eapply sat_bind
      with (Q1 := fun st1 => errMode st1 = false /\
                             extends (prompt st) (prompt st1)).
    - destruct (errMode st) eqn:Em; cbn [negb]; cbv iota zeta.
      + change (dumpedModDocs (clearErrMode st)) with (dumpedModDocs st).
        destruct (dumpedModDocs st); cbn [negb]; cbv iota.
        * apply sat_ret. split; [reflexivity | apply extends_refl].
        * eapply sat_bind; [apply sat_nonStdImports; simpl; auto|].
          intros imports _.
          eapply sat_bind; [apply sat_goDocLoop|].
          intros [[allDocs goDocErr] mods] _.
          destruct (_ && _); apply sat_ret;
            (split; [reflexivity|]); [apply extends_app | apply extends_refl].
      + apply sat_ret. split; [exact Em|]. unfold serverPrompt. apply extends_app.
    - intros st1 [H1 H2]. apply sat_ret. split; [exact H1|]. right.
      eapply extends_trans; [exact H2 | apply extends_app]. }
  destruct (cur =? SeedlingStepDockerfile)%string.
  { apply sat_ret. destruct (errMode st) eqn:Em; simpl.
    - split; [reflexivity|]. right. apply extends_app.
    - split; [exact Em|]. right.
      eapply extends_trans; [|apply extends_app].
      unfold dockerfilePrompt. apply extends_app. }
  destruct (cur =? SeedlingStepExampleClientCall)%string.
  { eapply sat_bind
      with (Q1 := fun r => match r with
                           | inl st1 => errMode st1 = false /\
                                        extends (prompt st) (prompt st1)
                           | inr _ => True
                           end).
    - destruct (errMode st) eqn:Em; cbn [negb]; cbv iota.
      + apply sat_ret. split; [reflexivity | apply extends_refl].
      + eapply sat_bind; [apply sat_ReadFile; simpl; auto|].
        intros [e|c] _; apply sat_ret; [exact I|].
        split; [exact Em|]. unfold clientCallPrompt. apply extends_app.
    - intros [st1|x] H1; apply sat_ret; [|exact I].
      destruct H1 as [H1 H2]. split; [exact H1|]. right.
      eapply extends_trans; [exact H2 | apply extends_app]. }
  now apply sat_ret.
Qed.

Lemma steps_first (n : nat) :
  nth_error steps n = Some SeedlingStepProtobufs -> n = 0.
Proof.
  destruct n as [|[|[|[|[|n]]]]]; intros H; [reflexivity|..];
    try (vm_compute in H; discriminate H).
  destruct n; discriminate H.
Qed.

Lemma attempt_prompt cur st sg tr st' tr' :
  attempt L w seedling cur st sg tr = (Ret (Continue st'), tr') ->
  extends (prompt st) (prompt st') /\
  (step st' = step st /\ errs st' = S (errs st) /\ errMode st' = true \/
   step st' = step st + 1 /\ errs st' = errs st /\ errMode st' = errMode st).
Proof.
  unfold attempt. erewrite bind_ret_eq by apply gpt_run.
  destruct (w_CreateCompletion w (length tr) (prompt st)) as [e|gptOutput];
    [discriminate|].
  unfold bind at 1.
  match goal with |- context [runSeedling ?x1 ?x2 ?x3 ?x4 ?x5 ?x6 ?x7 ?x8 ?x9 ?t] =>
    destruct (runSeedling x1 x2 x3 x4 x5 x6 x7 x8 x9 t)
      as [[[output [e|]]|h'] tr2]
  end; [| |discriminate].
  - unfold settle, ret. rewrite onFailure_cases.
    destruct (Nat.ltb maxErrs (S (errs st))); [discriminate|].
    intros H. injection H as <- _. unfold retryState. cbn.
    split; [|left; auto].
    eapply extends_trans; apply extends_app.
  - unfold settle, onSuccess.
    destruct (nth_error steps (step st + 1)); [|discriminate].
    unfold bind, updateStep, ret.
    destruct (w_updateStep w _ _ _); [discriminate|].
    intros H. injection H as <- _. cbn.
    split; [|right; auto].
    eapply extends_trans; apply extends_app.
Qed.

End PromptGrowth.

(** X4.  An iteration of [gptThread] after which the loop goes on never
    drops what the prompt held: the new prompt is the old one with text
    appended.  The one exception is the first entry into the Protobufs
    step, where the prompt is built anew from the task.  When the loop
    goes on after a failure it is on the same step with one more error and
    the retry flag set; when it goes on after a success it is on the next
    step with the same number of errors and the flag clear. *)
Theorem iteration_prompt_only_grows :
  forall (L : GoLib) (w : World) (seedling : Seedling) (st st' : LoopState)
         (tr tr' : Trace),
    iteration L w seedling st tr = (Ret (Continue st'), tr') ->
    (step st = 0 /\ errMode st = false \/ extends (prompt st) (prompt st')) /\
    (step st' = step st /\ errs st' = S (errs st) /\ errMode st' = true \/
     step st' = step st + 1 /\ errs st' = errs st /\ errMode st' = false).
Proof.
  intros L w seedling st st' tr tr'. unfold iteration.
  destruct (nth_error steps (step st)) as [cur|] eqn:Ec; [|discriminate].
  destruct (cur =? SeedlingStepComplete)%string.
  { intros H. destruct (sat_launch L w seedling st tr) as (e1 & _ & _ & Hr).
    rewrite H in Hr. simpl in Hr. destruct Hr; discriminate. }
  intros H.
  destruct (sat_stageSetup_prompt L w seedling cur st tr) as (e1 & _ & _ & Hq).
  destruct (sat_stageSetup L w seedling cur st tr) as (e1' & _ & _ & Hc).
  unfold bind in H.
  destruct (stageSetup L w seedling cur st tr) as [[[[st1 sg]|x]|h] tr1];
    simpl in Hq, Hc; [|discriminate|discriminate].
  destruct Hq as [Hm Hp]. destruct Hc as [Hs He].
  apply attempt_prompt in H. destruct H as [Hx Hcase].
  split.
  - destruct Hp as [[-> Hm0]|Hp].
    + left. split; [now apply steps_first | exact Hm0].
    + right. eapply extends_trans; eassumption.
  - rewrite Hs, He, Hm in Hcase. exact Hcase.
Qed.

(** The first iteration of a task whose build fails. *)
Lemma iteration_prompt_only_grows_witness :
  exists st' tr',
    iteration Examples.lib Examples.failingWorld Examples.fresh
      Examples.onServer [] = (Ret (Continue st'), tr') /\
    (step Examples.onServer = 0 /\ errMode Examples.onServer = false \/
     extends (prompt Examples.onServer) (prompt st')) /\
    (step st' = 1 /\ errs st' = 1 /\ errMode st' = true \/
     step st' = 1 + 1 /\ errs st' = 0 /\ errMode st' = false).
Proof.
  eexists _, _. split; [vm_compute; reflexivity|].
  refine (iteration_prompt_only_grows Examples.lib Examples.failingWorld
            Examples.fresh Examples.onServer _ [] _ _).
  vm_compute. reflexivity.
Defined.

(* ------------------------------------------------------------------ *)
(** ** How much a run can ask for                                       *)
(* ------------------------------------------------------------------ *)

Lemma countKind_app k (t1 t2 : Trace) :
  countKind k (t1 ++ t2)%list = countKind k t1 + countKind k t2.
Proof. unfold countKind. now rewrite filter_app, length_app. Qed.

Lemma Kind_eqb_eq (a b : Kind) : Kind_eqb a b = true -> a = b.
Proof. destruct a, b; simpl; intros H; first [reflexivity | discriminate H]. Qed.

Lemma countKind_only k ks evs :
  only ks evs -> ~ In k ks -> countKind k evs = 0.
Proof.
  intros Ho Hk. induction Ho as [|e evs He _ IH]; [reflexivity|].
  unfold countKind in *. simpl.
  destruct (Kind_eqb (kind e) k) eqn:E; [|exact IH].
  apply Kind_eqb_eq in E. subst k. contradiction.
Qed.

Section SatN.

Context {A B : Type}.
Variable k : Kind.

Lemma satN_ret (Q : A -> Prop) n (a : A) : Q a -> satN k n Q (ret a).
Proof.
  intros Ha tr. exists []. simpl. rewrite app_nil_r.
  split; [reflexivity|]. split; [apply Nat.le_0_l | exact Ha].
Qed.

Lemma satN_halt (Q : A -> Prop) n h : satN k n Q (halt h).
Proof.
  intros tr. exists []. simpl. rewrite app_nil_r.
  split; [reflexivity|]. split; [apply Nat.le_0_l | exact I].
Qed.

Lemma satN_bind (Q1 : A -> Prop) (Q : B -> Prop) n1 n2 (m : M A) (f : A -> M B) :
  satN k n1 Q1 m -> (forall a, Q1 a -> satN k n2 Q (f a)) ->
  satN k (n1 + n2) Q (bind m f).
Proof.
  intros Hm Hf tr. destruct (Hm tr) as (e1 & He1 & Hc1 & Hr1).
  unfold bind. destruct (m tr) as [[a|h] tr1]; simpl in *; subst tr1.
  - destruct (Hf a Hr1 (tr ++ e1)%list) as (e2 & He2 & Hc2 & Hr2).
    exists (e1 ++ e2)%list. rewrite He2, app_assoc, countKind_app.
    split; [reflexivity|]. split; [lia | exact Hr2].
  - exists e1. split; [reflexivity|]. split; [lia | exact I].
Qed.

Lemma satN_weaken (Q Q' : A -> Prop) n n' (m : M A) :
  satN k n Q m -> n <= n' -> (forall a, Q a -> Q' a) -> satN k n' Q' m.
Proof.
  intros Hm Hn HQ tr. destruct (Hm tr) as (e & He & Hc & Hr).
  exists e. split; [exact He|]. split; [lia|].
  destruct (fst (m tr)); auto.
Qed.

Lemma satN_bind_le (Q1 : A -> Prop) (Q : B -> Prop) n1 n2 n (m : M A)
    (f : A -> M B) :
  satN k n1 Q1 m -> (forall a, Q1 a -> satN k n2 Q (f a)) -> n1 + n2 <= n ->
  satN k n Q (bind m f).
Proof.
  intros Hm Hf Hn tr. destruct (satN_bind Q1 Q n1 n2 m f Hm Hf tr)
    as (e & He & Hc & Hr).
  exists e. split; [exact He|]. split; [lia | exact Hr].
Qed.

Lemma satN_of_sat ks (Q Q' : A -> Prop) H n (m : M A) :
  sat ks Q H m -> ~ In k ks -> (forall a, Q a -> Q' a) -> satN k n Q' m.
Proof.
  intros Hm Hk HQ tr. destruct (Hm tr) as (e & He & Ho & Hr).
  exists e. split; [exact He|].
  split; [rewrite (countKind_only _ _ _ Ho Hk); lia|].
  destruct (fst (m tr)); auto.
Qed.

End SatN.

Section Bounds.

Variable L : GoLib.
Variable w : World.
Variable seedling : Seedling.

Lemma satN_gpt k p : satN k 1 (fun _ => True) (gpt w p).
Proof.
  intros tr. rewrite gpt_run. eexists [_]. split; [reflexivity|].
  split; [|exact I]. unfold countKind. destruct k; simpl; lia.
Qed.

(** The quality check asks at most as often as its allowance has left. *)
Lemma satN_qualityLoop fuel errs gptOut prompt description :
  errs <= qualityMaxErrs ->
  satN KCompletion (qualityMaxErrs - errs) (fun _ => True)
       (qualityLoop L w fuel errs gptOut prompt description).
Proof.
  revert errs. induction fuel as [|fuel IH]; intros errs Hle;
    [apply satN_halt|].
  cbn [qualityLoop]. destruct (Nat.eqb_spec qualityMaxErrs errs) as [He|He].
  - now apply satN_ret.
  - eapply satN_bind_le with (n2 := qualityMaxErrs - S errs);
      [apply satN_gpt| |lia].
    intros [out [e|]] _; [now apply satN_ret|].
    destruct (UnmarshalQualityCheck L (TrimSpace L out)) as [qc|].
    + destruct (negb _); now apply satN_ret.
    + apply IH. lia.
Qed.

Lemma satN_runSeedling_completions file codeType buildCmd gptOut step prompt
    description :
  satN KCompletion qualityMaxErrs (fun _ => True)
       (runSeedling L w file codeType buildCmd gptOut step prompt description).
Proof.
  unfold runSeedling.
  eapply satN_bind_le with (Q1 := fun _ => True) (n1 := qualityMaxErrs) (n2 := 0);
    [| |lia].
  - unfold qualityGate. destruct (step =? SeedlingStepServer)%string.
    + eapply satN_weaken; [apply satN_qualityLoop| |auto]; lia.
    + now apply satN_ret.
  - intros [r|] _; [now apply satN_ret|].
    eapply satN_of_sat; [apply sat_writeAndBuild| |auto].
    simpl. intuition discriminate.
Qed.

Lemma satN_runSeedling_writes file codeType buildCmd gptOut step prompt
    description :
  satN KWriteFile 1 (fun _ => True)
       (runSeedling L w file codeType buildCmd gptOut step prompt description).
Proof.
  unfold runSeedling.
  eapply satN_bind_le with (Q1 := fun _ => True) (n1 := 0) (n2 := 1); [| |lia].
  - eapply satN_of_sat; [apply sat_qualityGate| |auto].
    simpl. intuition discriminate.
  - intros [r|] _; [now apply satN_ret|].
    unfold writeAndBuild. destruct (Nat.eqb _ 0); [now apply satN_ret|].
    eapply satN_bind_le with (Q1 := fun _ => True) (n1 := 1) (n2 := 0); [| |lia].
    + intros tr. eexists [_]. split; [reflexivity|]. split; [|exact I].
      unfold countKind. simpl. lia.
    + intros [e|] _; [now apply satN_ret|].
      eapply satN_of_sat with (ks := [KChmod; KExec]) (H := fun _ => True)
                              (Q := fun _ => True).
      * eapply sat_bind with (Q1 := fun _ => True).
        -- destruct (codeType =? "bash")%string;
             [apply sat_Chmod; simpl; auto | now apply sat_ret].
        -- intros [e|] _; [now apply sat_ret|]. unfold buildAndCommit.
           eapply sat_bind; [apply sat_CombinedOutput; simpl; auto|].
           intros [out [e|]] _; [now apply sat_ret|].
           eapply sat_bind; [apply sat_Run; simpl; auto|].
           intros [e|] _; [now apply sat_ret|].
           eapply sat_bind; [apply sat_Run; simpl; auto|].
           intros [e|] _; now apply sat_ret.
      * simpl. intuition discriminate.
      * auto.
Qed.

Lemma satN_settle k st gptOutput r :
  k <> KUpdateStep -> satN k 0 (fun _ => True) (settle w seedling st gptOutput r).
Proof.
  intros Hk. unfold settle. destruct r as [output [e|]]; [now apply satN_ret|].
  unfold onSuccess. destruct (nth_error steps (step st + 1)); [|apply satN_halt].
  eapply satN_bind_le with (Q1 := fun _ => True) (n1 := 0) (n2 := 0); [| |lia].
  - intros tr. eexists [_]. split; [reflexivity|]. split; [|exact I].
    unfold countKind. destruct k; simpl; first [lia | congruence].
  - intros [e|] _; now apply satN_ret.
Qed.

Lemma satN_attempt_completions cur st sg :
  satN KCompletion (1 + qualityMaxErrs) (fun _ => True)
       (attempt L w seedling cur st sg).
Proof.
  unfold attempt.
  eapply satN_bind_le with (n2 := qualityMaxErrs); [apply satN_gpt| |lia].
  intros [gptOutput [e|]] _; [now apply satN_ret|].
  eapply satN_bind_le with (n2 := 0);
    [apply satN_runSeedling_completions| |lia].
  intros r _. apply satN_settle. discriminate.
Qed.

Lemma satN_attempt_writes cur st sg :
  satN KWriteFile 1 (fun _ => True) (attempt L w seedling cur st sg).
Proof.
  unfold attempt.
  eapply satN_bind_le with (Q1 := fun _ => True) (n1 := 0) (n2 := 1); [| |lia].
  - eapply satN_of_sat with (ks := [KCompletion]) (H := fun _ => True)
                           (Q := fun _ => True);
      [apply sat_gpt; simpl; auto | simpl; intuition discriminate | auto].
  - intros [gptOutput [e|]] _; [now apply satN_ret|].
    eapply satN_bind_le with (n2 := 0); [apply satN_runSeedling_writes| |lia].
    intros r _. apply satN_settle. discriminate.
Qed.

Lemma satN_iteration k n st :
  k <> KExec -> k <> KDefinitions -> k <> KNonStdImports -> k <> KReadFile ->
  (forall cur st1 sg, satN k n (fun _ => True) (attempt L w seedling cur st1 sg)) ->
  satN k n (fun _ => True) (iteration L w seedling st).
Proof.
  intros H1 H2 H3 H4 Ha. unfold iteration.
  destruct (nth_error steps (step st)) as [cur|]; [|apply satN_halt].
  destruct (cur =? SeedlingStepComplete)%string.
  - eapply satN_of_sat; [apply sat_launch| |auto]. simpl. intuition congruence.
  - eapply satN_bind_le with (Q1 := fun _ => True) (n1 := 0) (n2 := n); [| |lia].
    + eapply satN_of_sat; [apply sat_stageSetup| |auto].
      simpl. intuition congruence.
    + intros [[st1 sg]|x] _; [apply Ha | now apply satN_ret].
Qed.

(** Each iteration costs at most [n] events of the kind [k]; there are
    at most [iterationsLeft] of them. *)
Lemma gptLoop_count k n fuel st tr :
  (forall st, satN k n (fun _ => True) (iteration L w seedling st)) ->
  step st <= 4 -> errs st <= maxErrs ->
  exists evs r,
    gptLoop L w seedling fuel st tr = (r, (tr ++ evs)%list) /\
    countKind k evs <= n * iterationsLeft st.
Proof.
  intros Hit. revert st tr.
  induction fuel as [|fuel IH]; intros st tr Hstep Herrs.
  { exists [], (Stop OutOfFuel). rewrite app_nil_r. split; [reflexivity|].
    apply Nat.le_0_l. }
  cbn [gptLoop].
  destruct (iteration_post L w seedling st tr Hstep) as (e1 & r1 & Hi & Hp).
  destruct (Hit st tr) as (e1' & He1 & Hc1 & _).
  rewrite Hi in He1. simpl in He1. apply app_inv_head in He1. subst e1'.
  assert (Hone : n <= n * iterationsLeft st) by (unfold iterationsLeft; nia).
  destruct r1 as [[st'|x st']|h].
  - erewrite bind_ret_eq by exact Hi. cbv iota.
    assert (Hdec : step st' <= 4 /\ errs st' <= maxErrs /\
                   S (iterationsLeft st') <= iterationsLeft st).
    { unfold iterationsLeft.
      destruct Hp as [(_ & Hs & He & Hle) | (next & Hn & _ & Hs & He)].
      - rewrite Hs, He. repeat split; lia.
      - assert (S (step st) < 5)
          by (apply (nth_error_Some steps); rewrite Hn; discriminate).
        rewrite Hs, He. repeat split; lia. }
    destruct Hdec as (Hs' & He' & Hm).
    destruct (IH st' (tr ++ e1)%list Hs' He') as (e2 & r & Hl & Hc2).
    exists (e1 ++ e2)%list, r. rewrite app_assoc. split; [exact Hl|].
    rewrite countKind_app. nia.
  - erewrite bind_ret_eq by exact Hi.
    exists e1, (Ret (x, st')). split; [reflexivity | lia].
  - erewrite bind_stop_eq by exact Hi.
    exists e1, (Stop h). split; [reflexivity | lia].
Qed.

End Bounds.

(** X5.  Whatever the world answers, a run of [gptThread] has at most
    twenty iterations: it makes at most [20 * 6 = 120] completion requests
    (one for the candidate and at most five of the quality check in each
    iteration) and writes a candidate to a file at most twenty times. *)
Theorem gptThread_requests_bounded :
  forall (L : GoLib) (w : World) (seedling : Seedling),
    countKind KCompletion (snd (gptThread L w seedling [])) <= 120 /\
    countKind KWriteFile (snd (gptThread L w seedling [])) <= 20.
Proof.
  intros L w seedling. unfold gptThread. split.
  - destruct (gptLoop_count L w seedling KCompletion (1 + qualityMaxErrs)
                gptThreadFuel initialState []) as (evs & r & Hl & Hc);
      [|simpl; lia|simpl; lia|].
    + intros st. apply satN_iteration; try discriminate.
      intros. apply satN_attempt_completions.
    + rewrite Hl. simpl snd. exact Hc.
  - destruct (gptLoop_count L w seedling KWriteFile 1
                gptThreadFuel initialState []) as (evs & r & Hl & Hc);
      [|simpl; lia|simpl; lia|].
    + intros st. apply satN_iteration; try discriminate.
      intros. apply satN_attempt_writes.
    + rewrite Hl. simpl snd. exact Hc.
Qed.

(* ------------------------------------------------------------------ *)
(** ** The module documentation is collected once                       *)
(* ------------------------------------------------------------------ *)

Section ScanOnce.

Variable L : GoLib.
Variable w : World.
Variable seedling : Seedling.

Lemma goDocLoop_only_exec imports allDocs goDocErr mods :
  sat [KExec] (fun _ => True) realHalt
      (goDocLoop L w seedling imports allDocs goDocErr mods).
Proof.
  revert allDocs goDocErr mods.
  induction imports as [|imp rest IH]; intros allDocs goDocErr mods;
    cbn [goDocLoop]; [now apply sat_ret|].
  destruct (_ || _); [apply IH|].
  eapply sat_bind; [apply sat_CombinedOutput; simpl; auto|].
  intros [out err] _. apply IH.
Qed.

Lemma satN_definitions k f :
  k <> KDefinitions ->
  satN k 0 (fun _ => True) (getStructAndInterfaceDefinitionsFromFile w f).
Proof.
  intros Hk. eapply satN_of_sat with (ks := [KDefinitions]) (H := fun _ => True)
                                     (Q := fun _ => True);
    [apply sat_definitions; simpl; auto | simpl; intuition congruence | auto].
Qed.

(** The set-up scans the imports only at the server step, on a retry, and
    only if it has not done so before; the flag is then set. *)
Lemma satN_stageSetup_scan cur st :
  exists n,
    n <= scansLeft st /\
    satN KNonStdImports n
      (fun r => match r with
                | inl (st1, _) => n + scansLeft st1 <= scansLeft st
                | inr _ => True
                end)
      (stageSetup L w seedling cur st).
Proof.
  unfold stageSetup.
  destruct (cur =? SeedlingStepProtobufs)%string.
  { exists 0. split; [lia|]. apply satN_ret.
    destruct (errMode st); unfold scansLeft; simpl; lia. }
  destruct (cur =? SeedlingStepServer)%string.
  { exists (if errMode st then scansLeft st else 0).
    split; [destruct (errMode st); lia|].
    eapply satN_bind_le with (Q1 := fun _ => True) (n1 := 0)
                             (n2 := if errMode st then scansLeft st else 0);
      [apply satN_definitions; discriminate| |lia].
    intros [e|protoBufDefs] _; [apply satN_halt|].
    eapply satN_bind_le with (Q1 := fun _ => True) (n1 := 0)
                             (n2 := if errMode st then scansLeft st else 0);
      [apply satN_definitions; discriminate| |lia].
    intros [e|grpcDefs] _; [apply satN_halt|].
    eapply satN_bind_le
      with (Q1 := fun st1 => (if errMode st then scansLeft st else 0) +
                             scansLeft st1 <= scansLeft st)
           (n1 := if errMode st then scansLeft st else 0) (n2 := 0);
      [| |lia].
    - destruct (errMode st); cbn [negb]; cbv iota zeta.
      + change (dumpedModDocs (clearErrMode st)) with (dumpedModDocs st).
        unfold scansLeft at 1 2 4.
        destruct (dumpedModDocs st) eqn:Hd; cbn [negb]; cbv iota.
        * apply satN_ret. unfold scansLeft. simpl. rewrite Hd. lia.
        * eapply satN_bind_le with (Q1 := fun _ => True) (n1 := 1) (n2 := 0);
            [| |lia].
          -- intros tr. eexists [_]. split; [reflexivity|].
             split; [|exact I]. unfold countKind. simpl. lia.
          -- intros imports _.
             eapply satN_bind_le with (Q1 := fun _ => True) (n1 := 0) (n2 := 0);
               [| |lia].
             ++ eapply satN_of_sat; [apply goDocLoop_only_exec| |auto].
                simpl. intuition discriminate.
             ++ intros [[allDocs goDocErr] mods] _.
                destruct (_ && _); apply satN_ret; unfold scansLeft; simpl; lia.
      + apply satN_ret. unfold scansLeft. simpl. lia.
    - intros st1 H1. apply satN_ret. unfold scansLeft in *. simpl. exact H1. }
  destruct (cur =? SeedlingStepDockerfile)%string.
  { exists 0. split; [lia|]. apply satN_ret.
    destruct (errMode st); unfold scansLeft; simpl; lia. }
  destruct (cur =? SeedlingStepExampleClientCall)%string.
  { exists 0. split; [lia|].
    eapply satN_bind_le
      with (Q1 := fun r => match r with
                           | inl st1 => scansLeft st1 <= scansLeft st
                           | inr _ => True
                           end) (n1 := 0) (n2 := 0); [| |lia].
    - destruct (errMode st); cbn [negb]; cbv iota.
      + apply satN_ret. unfold scansLeft. simpl. lia.
      + eapply satN_bind_le with (Q1 := fun _ => True) (n1 := 0) (n2 := 0);
          [| |lia].
        * eapply satN_of_sat with (ks := [KReadFile]) (H := fun _ => True)
                                  (Q := fun _ => True);
            [apply sat_ReadFile; simpl; auto | simpl; intuition discriminate
            | auto].
        * intros [e|c] _; apply satN_ret; [exact I|].
          unfold scansLeft. simpl. lia.
    - intros [st1|x] H1; apply satN_ret; [|exact I].
      unfold scansLeft in *. simpl. exact H1. }
  exists 0. split; [lia|]. now apply satN_ret.
Qed.

(** From the request on, an iteration scans nothing and leaves the flag as
    it is. *)
Lemma satN_attempt_scan cur st sg :
  satN KNonStdImports 0
    (fun nx => match nx with
               | Continue st' => scansLeft st' = scansLeft st
               | Return _ _ => True
               end)
    (attempt L w seedling cur st sg).
Proof.
  unfold attempt.
  eapply satN_bind_le with (Q1 := fun _ => True) (n1 := 0) (n2 := 0); [| |lia].
  - eapply satN_of_sat with (ks := [KCompletion]) (H := fun _ => True)
                            (Q := fun _ => True);
      [apply sat_gpt; simpl; auto | simpl; intuition discriminate | auto].
  - intros [gptOutput [e|]] _; [now apply satN_ret|].
    eapply satN_bind_le with (Q1 := fun _ => True) (n1 := 0) (n2 := 0);
      [| |lia].
    + eapply satN_of_sat; [apply sat_runSeedling| |auto].
      simpl. intuition discriminate.
    + intros [output [e|]] _; unfold settle.
      * apply satN_ret. unfold onFailure.
        destruct (Nat.ltb _ _); [exact I | reflexivity].
      * unfold onSuccess.
        destruct (nth_error steps (step st + 1)); [|apply satN_halt].
        eapply satN_bind_le with (Q1 := fun _ => True) (n1 := 0) (n2 := 0);
          [| |lia].
        -- intros tr. eexists [_]. split; [reflexivity|].
           split; [|exact I]. unfold countKind. simpl. lia.
        -- intros [e|] _; apply satN_ret; [exact I | reflexivity].
Qed.

Lemma satN_iteration_scan st :
  exists n,
    n <= scansLeft st /\
    satN KNonStdImports n
      (fun nx => match nx with
                 | Continue st' => n + scansLeft st' <= scansLeft st
                 | Return _ _ => True
                 end)
      (iteration L w seedling st).
Proof.
  unfold iteration.
  destruct (nth_error steps (step st)) as [cur|];
    [|exists 0; split; [lia | apply satN_halt]].
  destruct (cur =? SeedlingStepComplete)%string.
  - exists 0. split; [lia|].
    eapply satN_of_sat; [apply sat_launch|simpl; intuition discriminate|].
    intros nx [-> | ->]; exact I.
  - destruct (satN_stageSetup_scan cur st) as (n & Hle & Hs).
    exists n. split; [exact Hle|].
    eapply satN_bind_le with (n2 := 0); [exact Hs| |lia].
    intros [[st1 sg]|x] H1; [|now apply satN_ret].
    eapply satN_weaken; [apply satN_attempt_scan | lia|].
    intros [st'|x st'] H2; [lia | exact I].
Qed.

Lemma gptLoop_scan fuel st tr :
  exists evs,
    snd (gptLoop L w seedling fuel st tr) = (tr ++ evs)%list /\
    countKind KNonStdImports evs <= scansLeft st.
Proof.
  revert st tr. induction fuel as [|fuel IH]; intros st tr.
  { exists []. cbn [gptLoop]. unfold halt. simpl. rewrite app_nil_r.
    split; [reflexivity | apply Nat.le_0_l]. }
  cbn [gptLoop]. destruct (satN_iteration_scan st) as (n & Hle & Hs).
  destruct (Hs tr) as (e1 & He1 & Hc1 & Hr1). unfold bind.
  destruct (iteration L w seedling st tr) as [[[st'|x st']|h] tr1];
    simpl in He1, Hr1; subst tr1.
  - destruct (IH st' (tr ++ e1)%list) as (e2 & He2 & Hc2).
    exists (e1 ++ e2)%list. rewrite He2, app_assoc, countKind_app.
    split; [reflexivity | lia].
  - exists e1. split; [reflexivity | lia].
  - exists e1. split; [reflexivity | lia].
Qed.

End ScanOnce.

(** X6.  In one run of [gptThread] the imports of the generated server
    file are scanned (and their [go doc] output collected) at most once,
    however many times the server step is retried. *)
Theorem gptThread_scans_imports_at_most_once :
  forall (L : GoLib) (w : World) (seedling : Seedling),
    countKind KNonStdImports (snd (gptThread L w seedling [])) <= 1.
Proof.
  intros L w seedling. unfold gptThread.
  destruct (gptLoop_scan L w seedling gptThreadFuel initialState [])
    as (evs & He & Hc).
  rewrite He. exact Hc.
Qed.

(* ------------------------------------------------------------------ *)
(** ** How runSeedling fails                                            *)
(* ------------------------------------------------------------------ *)

(** Unless its allowance is used up, the quality check asks at least
    once. *)
Lemma qualityLoop_asks (L : GoLib) (w : World) fuel errs gptOut prompt
    description tr :
  Nat.eqb qualityMaxErrs errs = false ->
  length tr <
  length (snd (qualityLoop L w (S fuel) errs gptOut prompt description tr)).
Proof.
  intros He. cbn [qualityLoop]. rewrite He.
  erewrite bind_ret_eq by apply gpt_run.
  set (p := qualityPrompt gptOut description).
  set (ev := EvCompletion p (w_CreateCompletion w (length tr) p)).
  destruct (w_CreateCompletion w (length tr) p) as [e|t].
  { unfold ret. simpl. rewrite length_app. simpl. lia. }
  cbv beta iota.
  destruct (UnmarshalQualityCheck L (TrimSpace L t)) as [qc|].
  - destruct (negb _); unfold ret; simpl; rewrite length_app; simpl; lia.
  - destruct (qualityLoop_trace L w fuel (S errs) gptOut prompt description
                (tr ++ [ev])%list) as (gate & Hs & _).
    rewrite Hs, !length_app. simpl. lia.
Qed.

Lemma writeAndBuild_failure (L : GoLib) (w : World) file codeType buildCmd
    gptOut tr out e tr' :
  writeAndBuild L w file codeType buildCmd gptOut tr = (Ret (out, Some e), tr') ->
  exists evs,
    tr' = (tr ++ evs)%list /\
    failedAfterGate L file codeType (stripFencing L codeType gptOut) buildCmd
      out e evs.
Proof.
  unfold writeAndBuild.
  destruct (stripFencing L codeType gptOut) as [|c data'] eqn:Ed.
  { cbn [String.length Nat.eqb]. unfold ret. intros H. injection H as <- <- <-.
    exists []. rewrite app_nil_r. split; [reflexivity|]. now constructor. }
  cbn [String.length Nat.eqb].
  assert (Hne : String c data' <> EmptyString) by discriminate.
  revert Hne. generalize (String c data'). intros data Hne.
  unfold bind at 1, WriteFile.
  destruct (w_WriteFile w (length tr) file data) as [e0|].
  { unfold ret. intros H. injection H as <- <- <-.
    eexists. split; [reflexivity|]. now constructor. }
  unfold madeReady.
  destruct (String.eqb_spec codeType "bash") as [Hb|Hb].
  - unfold bind at 1, Chmod. destruct (w_Chmod w _ file) as [e0|].
    { unfold ret. intros H. injection H as <- <- <-.
      eexists. rewrite <- app_assoc. split; [reflexivity|]. now constructor. }
    unfold buildAndCommit, Run, bind, CombinedOutput, ret.
    repeat match goal with
    | |- context [w_exec w ?n ?c] => destruct (w_exec w n c) as [? [?|]|]
    end; intros H; try discriminate H; injection H as <- <- <-;
      eexists; rewrite <- !app_assoc; (split; [reflexivity|]).
    + pose proof (BuildFailed L file codeType data buildCmd) as HB.
      unfold madeReady in HB. rewrite Hb in *. now apply HB.
    + pose proof (GitAddFailed L file codeType data buildCmd) as HB.
      unfold madeReady in HB. rewrite Hb in *. now apply HB.
    + pose proof (GitCommitFailed L file codeType data buildCmd) as HB.
      unfold madeReady in HB. rewrite Hb in *. now apply HB.
  - unfold bind at 1, ret at 1.
    unfold buildAndCommit, Run, bind, CombinedOutput, ret.
    assert (Hf : (codeType =? "bash")%string = false)
      by now apply String.eqb_neq.
    repeat match goal with
    | |- context [w_exec w ?n ?c] => destruct (w_exec w n c) as [? [?|]|]
    end; intros H; try discriminate H; injection H as <- <- <-;
      eexists; rewrite <- !app_assoc; (split; [reflexivity|]).
    + pose proof (BuildFailed L file codeType data buildCmd) as HB.
      unfold madeReady in HB. rewrite Hf in HB. now apply HB.
    + pose proof (GitAddFailed L file codeType data buildCmd) as HB.
      unfold madeReady in HB. rewrite Hf in HB. now apply HB.
    + pose proof (GitCommitFailed L file codeType data buildCmd) as HB.
      unfold madeReady in HB. rewrite Hf in HB. now apply HB.
Qed.

(** X7.  When [runSeedling] returns an error, what it did is the requests
    of the quality check followed by one of these: nothing more, the error
    being that of the quality check (server step only) or the stripped
    candidate being empty; a write that failed; a change of mode that
    failed; a build that failed, whose output is returned; [git add] or
    [git commit] failing after a build that succeeded.  The output is
    empty in every case but that of the failed build. *)
Theorem runSeedling_failure_trace :
  forall (L : GoLib) (w : World) (file codeType : string) (buildCmd : Cmd)
         (gptOut step prompt description out : string) (e : error)
         (tr tr' : Trace),
    runSeedling L w file codeType buildCmd gptOut step prompt description tr =
      (Ret (out, Some e), tr') ->
    exists gate evs,
      tr' = (tr ++ gate ++ evs)%list /\
      Forall (isGateRequest gptOut description) gate /\
      (step = SeedlingStepServer /\ gate <> [] /\ evs = [] /\
       out = EmptyString \/
       failedAfterGate L file codeType (stripFencing L codeType gptOut)
         buildCmd out e evs).
Proof.
  intros L w file codeType buildCmd gptOut step prompt description out e tr tr' H.
  unfold runSeedling, qualityGate in H.
  destruct (String.eqb_spec step SeedlingStepServer) as [Hs|Hs].
  - destruct (qualityLoop_trace L w (S qualityMaxErrs) 0 gptOut prompt
                description tr) as (gate & Hg & Hf & _).
    assert (Hsat := sat_qualityLoop L w (S qualityMaxErrs) 0 gptOut prompt
                      description).
    destruct (Hsat ltac:(unfold qualityMaxErrs; lia)
                   ltac:(unfold qualityMaxErrs; lia) tr) as (g2 & _ & _ & Hq).
    clear Hsat.
    assert (Hfirst : gate <> []).
    { intros ->. rewrite app_nil_r in Hg.
      pose proof (qualityLoop_asks L w qualityMaxErrs 0 gptOut prompt
                    description tr eq_refl) as Hlen.
      rewrite Hg in Hlen. lia. }
    unfold bind in H.
    destruct (qualityLoop L w (S qualityMaxErrs) 0 gptOut prompt description tr)
      as [[[[o e0]|]|h] tr1]; simpl in Hg, Hq; subst tr1.
    + unfold ret in H. injection H as Ho' He' <-. subst o e0.
      exists gate, []. rewrite app_nil_r. split; [reflexivity|].
      split; [exact Hf|]. left. destruct Hq as [Ho _]. simpl in Ho.
      repeat split; [exact Hs | exact Hfirst | exact Ho].
    + apply writeAndBuild_failure in H. destruct H as (evs & -> & Hfa).
      exists gate, evs. rewrite <- app_assoc. split; [reflexivity|].
      split; [exact Hf|]. now right.
    + discriminate H.
  - unfold bind, ret in H. apply writeAndBuild_failure in H.
    destruct H as (evs & -> & Hfa).
    exists [], evs. split; [reflexivity|]. split; [constructor|]. now right.
Qed.

(** The first step in a world where the file is the one committed
    before: the candidate is written and compiled, and counts as failed. *)
Lemma runSeedling_failure_trace_witness :
  exists gate evs,
    [EvWriteFile "protobufs/echo.proto" "package main" None;
     EvExec (mkCmd "protoc" ["echo.proto"] "repos/default/echo")
       (Exited EmptyString None);
     EvExec (gitAdd Examples.lib) (Exited EmptyString None);
     EvExec (gitCommit Examples.lib)
       (Exited "nothing to commit, working tree clean" (Some "exit status 1"))] =
    ([] ++ gate ++ evs)%list /\
    Forall (isGateRequest "package main" "echoes its input") gate /\
    (SeedlingStepProtobufs = SeedlingStepServer /\ gate <> [] /\ evs = [] /\
     EmptyString = EmptyString \/
     failedAfterGate Examples.lib "protobufs/echo.proto" "proto"
       (stripFencing Examples.lib "proto" "package main")
       (mkCmd "protoc" ["echo.proto"] "repos/default/echo")
       EmptyString "exit status 1" evs).
Proof.
  refine (runSeedling_failure_trace
            Examples.lib unchangedWorld "protobufs/echo.proto" "proto"
            (mkCmd "protoc" ["echo.proto"] "repos/default/echo")
            "package main" SeedlingStepProtobufs "write a protobufs file"
            "echoes its input" EmptyString "exit status 1" [] _ _).
  reflexivity.
Defined.

(* ------------------------------------------------------------------ *)
(** ** Why a run returns                                                *)
(* ------------------------------------------------------------------ *)

Section ExitCauses.

Variable L : GoLib.
Variable w : World.
Variable seedling : Seedling.

Lemma launch_exit_cause st tr x st' tr' :
  launch L w seedling st tr = (Ret (Return x st'), tr') ->
  exitCause seedling x st' tr'.
Proof.
  unfold launch, Run, bind, CombinedOutput, ret.
  repeat match goal with
  | |- context [w_exec w ?n ?c] => destruct (w_exec w n c) as [? [?|]|]
  end; intros H; try discriminate H; injection H as <- <- <-.
  - eexists _, _, _, _. split; [reflexivity|]. split; reflexivity.
  - eexists _, _, _. split; [reflexivity|]. split; reflexivity.
Qed.

Lemma stageSetup_exit cur st tr x tr' :
  stageSetup L w seedling cur st tr = (Ret (inr x), tr') ->
  (x = ReadServerFailed /\ cur = SeedlingStepExampleClientCall /\
   exists f e, tr' = (tr ++ [EvReadFile f (inl e)])%list) \/
  (x = UnknownStep /\ cur <> SeedlingStepProtobufs /\
   cur <> SeedlingStepServer /\ cur <> SeedlingStepDockerfile /\
   cur <> SeedlingStepExampleClientCall).
Proof.
  unfold stageSetup.
  destruct (String.eqb_spec cur SeedlingStepProtobufs) as [E1|E1];
    [discriminate|].
  destruct (String.eqb_spec cur SeedlingStepServer) as [E2|E2].
  { intros H. exfalso. revert H. unfold bind at 1.
    destruct (getStructAndInterfaceDefinitionsFromFile w _ tr)
      as [[[e|d1]|h] tr1]; try discriminate.
    unfold bind at 1.
    destruct (getStructAndInterfaceDefinitionsFromFile w _ tr1)
      as [[[e|d2]|h] tr2]; try discriminate.
    unfold bind at 1.
    match goal with |- context [match ?m tr2 with _ => _ end] =>
      destruct (m tr2) as [[st1|h] tr3] end; discriminate. }
  destruct (String.eqb_spec cur SeedlingStepDockerfile) as [E3|E3];
    [discriminate|].
  destruct (String.eqb_spec cur SeedlingStepExampleClientCall) as [E4|E4].
  { destruct (errMode st); cbn [negb]; cbv iota.
    - unfold bind, ret. discriminate.
    - unfold bind, ReadFile, ret.
      destruct (w_ReadFile w (length tr) _) as [e|c]; [|discriminate].
      intros H. injection H as <- <-. left.
      split; [reflexivity|]. split; [exact E4|]. eexists _, _. reflexivity. }
  unfold ret. intros H. injection H as <- <-. right. auto.
Qed.

Lemma attempt_exit_cause cur st sg tr x st' tr' :
  attempt L w seedling cur st sg tr = (Ret (Return x st'), tr') ->
  x = MaxErrorsExceeded \/
  step st' = step st /\ exitCause seedling x st' tr'.
Proof.
  unfold attempt. erewrite bind_ret_eq by apply gpt_run.
  destruct (w_CreateCompletion w (length tr) (prompt st)) as [e|gptOutput] eqn:Ec.
  { unfold ret. intros H. injection H as <- <- <-. right.
    split; [reflexivity|]. eexists _, _. reflexivity. }
  unfold bind at 1.
  match goal with |- context [runSeedling ?x1 ?x2 ?x3 ?x4 ?x5 ?x6 ?x7 ?x8 ?x9 ?t] =>
    destruct (runSeedling x1 x2 x3 x4 x5 x6 x7 x8 x9 t)
      as [[[output [e|]]|h'] tr2]
  end; [| |discriminate].
  - unfold settle, ret. rewrite onFailure_cases.
    destruct (Nat.ltb maxErrs (S (errs st))); [|discriminate].
    intros H. injection H as <- _ _. now left.
  - unfold settle, onSuccess.
    destruct (nth_error steps (step st + 1)) as [next|] eqn:En; [|discriminate].
    unfold bind, updateStep, ret.
    destruct (w_updateStep w _ _ _) as [e|]; [|discriminate].
    intros H. injection H as <- <- <-. right. split; [reflexivity|].
    eexists _, _, _. split; [reflexivity|].
    rewrite <- En. f_equal. lia.
Qed.

Lemma iteration_exit_cause st tr x st' tr' :
  step st <= 4 ->
  iteration L w seedling st tr = (Ret (Return x st'), tr') ->
  x = MaxErrorsExceeded \/ exitCause seedling x st' tr'.
Proof.
  intros Hstep. unfold iteration.
  destruct (nth_error steps (step st)) as [cur|] eqn:En; [|discriminate].
  destruct (String.eqb_spec cur SeedlingStepComplete) as [Ec|Ec].
  { intros H. right. exact (launch_exit_cause _ _ _ _ _ H). }
  assert (Hcur : step st = 0 /\ cur = SeedlingStepProtobufs \/
                 step st = 1 /\ cur = SeedlingStepServer \/
                 step st = 2 /\ cur = SeedlingStepDockerfile \/
                 step st = 3 /\ cur = SeedlingStepExampleClientCall).
  { destruct (step st) as [|[|[|[|[|n]]]]]; try lia;
      cbn [nth_error steps] in En; injection En as <-; auto 10.
    now elim Ec. }
  unfold bind at 1.
  destruct (stageSetup L w seedling cur st tr) as [[[[st1 sg]|y]|h] tr1] eqn:Es;
    [| |discriminate].
  - intros H.
    destruct (sat_stageSetup L w seedling cur st tr) as (e1 & _ & _ & Hq).
    rewrite Es in Hq. simpl in Hq. destruct Hq as [Hs1 _].
    apply attempt_exit_cause in H. destruct H as [H|[Hs H]]; [now left|].
    right. exact H.
  - unfold ret. intros H. injection H as <- <- <-. right.
    apply stageSetup_exit in Es.
    destruct Es as [(-> & Hc & f & e & ->) | (-> & N1 & N2 & N3 & N4)].
    + simpl. split; [|eexists _, _, _; reflexivity].
      destruct Hcur as [[_ Hx]|[[_ Hx]|[[_ Hx]|[H3 _]]]]; [| | |exact H3];
        rewrite Hx in Hc; vm_compute in Hc; discriminate Hc.
    + simpl. destruct Hcur as [[_ Hx]|[[_ Hx]|[[_ Hx]|[_ Hx]]]]; congruence.
Qed.

End ExitCauses.

(** X8.  When a run of [gptThread] returns, the interaction that made it
    return is the last of the trace: the failed completion request for the
    prompt of the state, the failed [UPDATE] of the step that follows the
    one of the state, the failed read of the server file (on position
    three), [docker run] failing, or [docker inspect] succeeding; the
    budget is reported as exceeded with sixteen errors, and the exit for
    an unknown step is never taken. *)
Theorem gptThread_exit_cause :
  forall (L : GoLib) (w : World) (seedling : Seedling) (x : Exit)
         (st : LoopState) (tr : Trace),
    gptThread L w seedling [] = (Ret (x, st), tr) ->
    exitCause seedling x st tr.
Proof.
  intros L w seedling x st tr Hrun.
  assert (Hmax : x = MaxErrorsExceeded -> errs st = S maxErrs).
  { intros ->.
    destruct (gptLoop_post L w seedling gptThreadFuel initialState [])
      as (evs & r & Hl & k & _ & _ & Hr);
      [simpl; lia | simpl; lia | vm_compute; lia |].
    unfold gptThread in Hrun. rewrite Hl in Hrun. injection Hrun as -> _.
    destruct Hr as (_ & [(_ & He) | (Hne & _)]); [exact He | congruence]. }
  destruct (gptLoop_last L w seedling gptThreadFuel initialState [] x st tr)
    as (stL & trL & HL & Hi); [simpl; lia | exact Hrun |].
  destruct (iteration_exit_cause L w seedling stL trL x st tr HL Hi) as [Hx|Hc];
    [|exact Hc].
  subst x. exact (Hmax eq_refl).
Qed.

(** With the completion API down, the run ends at its first request. *)
Lemma gptThread_exit_cause_witness :
  exists st tr,
    gptThread Examples.lib Examples.offlineWorld Examples.fresh [] =
      (Ret (OracleFailed, st), tr) /\
    exitCause Examples.fresh OracleFailed st tr.
Proof.
  eexists _, _. split; [vm_compute; reflexivity|].
  refine (gptThread_exit_cause Examples.lib Examples.offlineWorld
            Examples.fresh OracleFailed _ _ _).
  vm_compute; reflexivity.
Defined.

(* ------------------------------------------------------------------ *)
(** ** Cleaning a name twice                                            *)
(* ------------------------------------------------------------------ *)

Section CleanTwice.

Lemma safe_facts (c : ascii) :
  safe_char c = true ->
  Ascii.eqb " "%char c = false /\ keptByInvalidCharsRegex c = true /\
  is_ascii_byte c = true /\ lower_byte c = c /\
  Examples.isAsciiSpace c = false.
Proof.
  destruct c as [[] [] [] [] [] [] [] []]; vm_compute; intros H;
    first [discriminate H | repeat split; reflexivity].
Qed.

Lemma filter_str_fix (p : ascii -> bool) (s : string) :
  forallb_str p s = true -> filter_str p s = s.
Proof.
  induction s as [|c r IH]; simpl; [reflexivity|].
  rewrite andb_true_iff. intros [-> Hr]. now rewrite IH.
Qed.

Lemma map_str_fix (p : ascii -> bool) (f : ascii -> ascii) (s : string) :
  (forall c, p c = true -> f c = c) ->
  forallb_str p s = true -> map_str f s = s.
Proof.
  intros Hf. induction s as [|c r IH]; simpl; [reflexivity|].
  rewrite andb_true_iff. intros [Hc Hr]. now rewrite (Hf c Hc), IH.
Qed.

(** A text without a space has nothing to replace. *)
Lemma ReplaceAll_no_space (s new : string) :
  forallb_str safe_char s = true -> ReplaceAll s " " new = s.
Proof.
  unfold ReplaceAll. induction s as [|c r IH]; [reflexivity|].
  cbn [forallb_str]. rewrite andb_true_iff. intros [Hc Hr].
  destruct (safe_facts c Hc) as (Hsp & _).
  cbn [replaceFrom]. unfold HasPrefix. cbn [stripPrefix]. rewrite Hsp.
  now rewrite (IH Hr).
Qed.

Lemma ToLower_safe (L : GoLib) (s : string) :
  forallb_str safe_char s = true -> ToLower L s = s.
Proof.
  intros Hs. unfold ToLower.
  rewrite (forallb_str_impl safe_char is_ascii_byte s
             (fun c H => proj1 (proj2 (proj2 (safe_facts c H)))) Hs).
  apply (map_str_fix safe_char); [|exact Hs].
  intros c H. exact (proj1 (proj2 (proj2 (proj2 (safe_facts c H))))).
Qed.

Lemma removeInvalidChars_safe (s : string) :
  forallb_str safe_char s = true -> removeInvalidChars s = s.
Proof.
  intros Hs. apply filter_str_fix.
  apply (forallb_str_impl safe_char); [|exact Hs].
  intros c H. exact (proj1 (proj2 (safe_facts c H))).
Qed.

(** On a text of the safe alphabet the three variants change nothing. *)
Lemma cleanFilePath_untrimmed_fix (L : GoLib) (s : string) :
  forallb_str safe_char s = true ->
  cleanFilePath_untrimmed L s = s /\ cleanFilePath_dash L s = s.
Proof.
  intros Hs. unfold cleanFilePath_untrimmed, cleanFilePath_dash.
  rewrite !ReplaceAll_no_space, removeInvalidChars_safe, ToLower_safe
    by exact Hs.
  split; reflexivity.
Qed.

Lemma cleanFilePath_fix (L : GoLib) (s : string) :
  trimKeepsSafe L -> forallb_str safe_char s = true -> cleanFilePath L s = s.
Proof.
  intros HL Hs. unfold cleanFilePath. rewrite (HL s Hs).
  exact (proj1 (cleanFilePath_untrimmed_fix L s Hs)).
Qed.

Lemma forallb_str_app (p : ascii -> bool) (a b : string) :
  forallb_str p (a ++ b) = forallb_str p a && forallb_str p b.
Proof.
  induction a as [|c a IH]; simpl; [reflexivity|].
  now rewrite IH, andb_assoc.
Qed.

Lemma rev_str_app (a b : string) : rev_str (a ++ b) = rev_str b ++ rev_str a.
Proof.
  induction a as [|c a IH]; simpl; [now rewrite append_nil_r_str|].
  now rewrite IH, append_assoc_str.
Qed.

Lemma rev_str_involutive (s : string) : rev_str (rev_str s) = s.
Proof.
  induction s as [|c r IH]; simpl; [reflexivity|].
  now rewrite rev_str_app, IH.
Qed.

Lemma forallb_rev_str (p : ascii -> bool) (s : string) :
  forallb_str p (rev_str s) = forallb_str p s.
Proof.
  induction s as [|c r IH]; simpl; [reflexivity|].
  rewrite forallb_str_app, IH. simpl. rewrite andb_true_r. apply andb_comm.
Qed.

Lemma trimLeft_safe (s : string) :
  forallb_str safe_char s = true -> Examples.trimLeft s = s.
Proof.
  destruct s as [|c r]; simpl; [reflexivity|].
  rewrite andb_true_iff. intros [Hc _].
  now rewrite (proj2 (proj2 (proj2 (proj2 (safe_facts c Hc))))).
Qed.

(** The trimming of the example library has the property asked of
    [strings.TrimSpace]. *)
Lemma trimAscii_keeps_safe : trimKeepsSafe Examples.lib.
Proof.
  intros s Hs. simpl. unfold Examples.trimAscii.
  rewrite (trimLeft_safe s Hs), trimLeft_safe, rev_str_involutive;
    [reflexivity|].
  now rewrite forallb_rev_str.
Qed.

End CleanTwice.

(** X9.  [cleanFilePath] changes nothing in a name it has cleaned (the
    variant with the trimming provided [strings.TrimSpace] leaves a text
    without white space alone).  So, for a row as [CreateSeedling] stores
    it, the directory that [initGoRepo] lays out under the cleaned name is
    the one in which [gptThread] runs its commands under the stored name. *)
Theorem cleanFilePath_idempotent :
  forall (L : GoLib) (name : string) (s : Seedling),
    trimKeepsSafe L ->
    cleanFilePath L (cleanFilePath L name) = cleanFilePath L name /\
    cleanFilePath_untrimmed L (cleanFilePath_untrimmed L name) =
      cleanFilePath_untrimmed L name /\
    cleanFilePath_dash L (cleanFilePath_dash L name) =
      cleanFilePath_dash L name /\
    initGoRepo_basePath L (createdSeedling L s) =
      repoDir L (createdSeedling L s).
Proof.
  intros L name s HL.
  split; [apply (cleanFilePath_fix L _ HL), ToLower_removeInvalidChars_safe|].
  split; [apply cleanFilePath_untrimmed_fix, ToLower_removeInvalidChars_safe|].
  split; [apply cleanFilePath_untrimmed_fix, ToLower_removeInvalidChars_safe|].
  unfold initGoRepo_basePath, initGoRepo_dirpath, repoDir, createdSeedling.
  cbn [Name]. f_equal. f_equal. f_equal. f_equal.
  apply (cleanFilePath_fix L _ HL), ToLower_removeInvalidChars_safe.
Qed.

Lemma cleanFilePath_idempotent_witness :
  trimKeepsSafe Examples.lib /\
  cleanFilePath Examples.lib (cleanFilePath Examples.lib " My Service! ") =
    cleanFilePath Examples.lib " My Service! ".
Proof.
  split; [exact trimAscii_keeps_safe|].
  exact (proj1 (cleanFilePath_idempotent Examples.lib " My Service! "
                  Examples.fresh trimAscii_keeps_safe)).
Defined.

(* ------------------------------------------------------------------ *)
(** ** Stripping the fence                                              *)
(* ------------------------------------------------------------------ *)

Section Fencing.

Lemma stripPrefix_app (p s : string) : stripPrefix p (p ++ s) = Some s.
Proof.
  induction p as [|c p IH]; simpl; [now destruct s|].
  now rewrite Ascii.eqb_refl.
Qed.

Lemma TrimPrefix_app (p s : string) : TrimPrefix (p ++ s) p = s.
Proof. unfold TrimPrefix. now rewrite stripPrefix_app. Qed.

Lemma TrimSuffix_app (s suf : string) : TrimSuffix (s ++ suf) suf = s.
Proof.
  unfold TrimSuffix. rewrite rev_str_app, stripPrefix_app.
  apply rev_str_involutive.
Qed.

Lemma stripPrefix_sound (p s r : string) : stripPrefix p s = Some r -> s = p ++ r.
Proof.
  revert s. induction p as [|c p IH]; intros s; simpl.
  - destruct s; intros H; injection H as <-; reflexivity.
  - destruct s as [|d s]; [discriminate|].
    destruct (Ascii.eqb_spec c d) as [->|]; [|discriminate].
    intros H. now rewrite (IH s H).
Qed.

(** Trimming a prefix or a suffix either leaves the text as it is or
    removes exactly that prefix or suffix. *)
Lemma TrimPrefix_cases (s p : string) :
  TrimPrefix s p = s \/ s = p ++ TrimPrefix s p.
Proof.
  unfold TrimPrefix. destruct (stripPrefix p s) as [r|] eqn:E; [|now left].
  right. exact (stripPrefix_sound _ _ _ E).
Qed.

Lemma TrimSuffix_cases (s suf : string) :
  TrimSuffix s suf = s \/ s = TrimSuffix s suf ++ suf.
Proof.
  unfold TrimSuffix.
  destruct (stripPrefix (rev_str suf) (rev_str s)) as [r|] eqn:E; [|now left].
  right. apply stripPrefix_sound in E.
  apply (f_equal rev_str) in E.
  now rewrite rev_str_involutive, rev_str_app, rev_str_involutive in E.
Qed.

End Fencing.

(** X10.  What [runSeedling] writes for a candidate: a candidate wrapped
    in the fence of the step's code type and a closing fence is written
    as its trimmed body; and in general the text handed to
    [strings.TrimSpace] is the candidate less, at most, one leading
    fence with the code type and one trailing fence. *)
Theorem stripFencing_removes_one_fence :
  forall (L : GoLib) (codeType body gptOut : string),
    stripFencing L codeType (fence ++ codeType ++ body ++ fence) =
      TrimSpace L body /\
    exists pre core post,
      gptOut = pre ++ core ++ post /\
      stripFencing L codeType gptOut = TrimSpace L core /\
      (pre = EmptyString \/ pre = fence ++ codeType) /\
      (post = EmptyString \/ post = fence).
Proof.
  intros L codeType body gptOut. split.
  - unfold stripFencing.
    rewrite <- append_assoc_str, TrimPrefix_app, TrimSuffix_app. reflexivity.
  - unfold stripFencing.
    set (a := TrimPrefix gptOut (fence ++ codeType)).
    destruct (TrimPrefix_cases gptOut (fence ++ codeType)) as [Hp|Hp];
      destruct (TrimSuffix_cases a fence) as [Hs|Hs]; fold a in Hp.
    + exists EmptyString, a, EmptyString. rewrite Hs, append_nil_r_str.
      repeat split; auto.
    + exists EmptyString, (TrimSuffix a fence), fence.
      repeat split; auto. simpl. now rewrite <- Hs.
    + exists (fence ++ codeType), a, EmptyString.
      rewrite Hs, append_nil_r_str. repeat split; auto.
    + exists (fence ++ codeType), (TrimSuffix a fence), fence.
      repeat split; auto. now rewrite <- Hs.
Qed.

(* ------------------------------------------------------------------ *)
(** ** The documentation of the imported modules                        *)
(* ------------------------------------------------------------------ *)

Section ModuleDocs.

Variable L : GoLib.
Variable w : World.
Variable seedling : Seedling.

Lemma goDocLoop_runs imports allDocs goDocErr mods tr docs err mods' tr' :
  goDocLoop L w seedling imports allDocs goDocErr mods tr =
    (Ret (docs, err, mods'), tr') ->
  exists results,
    length results = length (documented imports) /\
    tr' = (tr ++ docRuns L seedling (documented imports) results)%list /\
    mods' = mods + length results /\
    docs = allDocs ++ String.concat EmptyString (map fst results) /\
    err = goDocErr || negb (forallb succeeded results).
Proof.
  revert allDocs goDocErr mods tr.
  induction imports as [|imp rest IH]; intros allDocs goDocErr mods tr.
  - cbn [goDocLoop]. unfold ret. intros H. injection H as <- <- <- <-.
    exists []. simpl. rewrite app_nil_r, append_nil_r_str, orb_false_r.
    repeat split; lia.
  - cbn [goDocLoop]. unfold documented. cbn [filter]. fold (spammy imp).
    fold (documented rest).
    destruct (spammy imp); cbn [negb]; [apply IH|].
    unfold bind at 1, CombinedOutput. fold (goDocCmd L seedling imp).
    destruct (w_exec w (length tr) (goDocCmd L seedling imp)) as [out e|] eqn:Ex;
      [|discriminate].
    intros H. apply IH in H.
    destruct H as (results & Hlen & Htr & Hm & Hd & He).
    exists ((out, e) :: results). cbn [length docRuns map fst snd forallb].
    split; [now rewrite Hlen|].
    split; [now rewrite Htr, <- app_assoc|].
    split; [lia|].
    split.
    + rewrite Hd, append_assoc_str. f_equal.
      destruct results as [|r results]; simpl;
        [now rewrite append_nil_r_str | reflexivity].
    + rewrite He. unfold succeeded at 2. cbn [snd].
      destruct e, goDocErr; reflexivity.
Qed.

Lemma stageSetup_server_retry st tr st1 sg tr' :
  errMode st = true -> dumpedModDocs st = false ->
  stageSetup L w seedling SeedlingStepServer st tr = (Ret (inl (st1, sg)), tr') ->
  exists d1 d2 f1 f2 f3 imports results,
    length results = length (documented imports) /\
    tr' = (tr ++ [EvDefinitions f1 (inr d1); EvDefinitions f2 (inr d2);
                  EvNonStdImports f3 imports] ++
           docRuns L seedling (documented imports) results)%list /\
    dumpedModDocs st1 = true /\ errMode st1 = false /\
    prompt st1 = prompt st ++ docText results ++ fence ++ "go" ++ nl.
Proof.
  intros Hem Hd. unfold stageSetup.
  replace (SeedlingStepServer =? SeedlingStepProtobufs)%string with false
    by (vm_compute; reflexivity).
  rewrite String.eqb_refl.
  unfold bind at 1, getStructAndInterfaceDefinitionsFromFile at 1.
  destruct (w_definitions w (length tr) _) as [e|d1] eqn:E1; [discriminate|].
  unfold bind at 1, getStructAndInterfaceDefinitionsFromFile at 1.
  destruct (w_definitions w _ _) as [e|d2] eqn:E2 in |- *; [discriminate|].
  rewrite Hem. cbn [negb]. cbv iota zeta.
  change (dumpedModDocs (clearErrMode st)) with (dumpedModDocs st).
  rewrite Hd. cbn [negb]. cbv iota.
  unfold bind at 1. unfold bind at 1. unfold getNonStdImports at 1.
  match goal with |- context [w_nonStdImports w ?n ?f] =>
    set (imports := w_nonStdImports w n f) end.
  unfold bind at 1.
  match goal with |- context [goDocLoop L w seedling imports ?a ?b ?c ?t] =>
    destruct (goDocLoop L w seedling imports a b c t)
      as [[[[docs err] mods]|h] tr2] eqn:Eg end; [|discriminate].
  apply goDocLoop_runs in Eg.
  destruct Eg as (results & Hlen & Htr & Hm & Hdocs & Herr).
  simpl in Hm, Herr. subst mods err tr2.
  assert (Hcond : negb (negb (forallb succeeded results)) &&
                  Nat.ltb 0 (length results) =
                  forallb succeeded results && Nat.ltb 0 (length results))
    by now rewrite negb_involutive.
  rewrite Hcond.
  destruct (forallb succeeded results && Nat.ltb 0 (length results)) eqn:EC;
    unfold ret; intros H; injection H as <- <- <-;
    eexists d1, d2, _, _, _, imports, results;
    (split; [exact Hlen|]); (split; [now rewrite <- !app_assoc|]);
    (split; [reflexivity|]); (split; [reflexivity|]); st_simpl;
    unfold docText; rewrite EC.
  - rewrite Hdocs. unfold docHeader. now rewrite !append_assoc_str.
  - reflexivity.
Qed.

End ModuleDocs.

(** X11.  The first retry of the server step parses the two generated
    files, scans the imports of the server file and runs [go doc] once
    for each import that is not one of the four skipped ones, in their
    order.  The outputs are added to the prompt, under their heading, only
    when there was at least one such import and every [go doc] succeeded;
    otherwise none of them is. *)
Theorem server_retry_collects_docs :
  forall (L : GoLib) (w : World) (seedling : Seedling) (st st1 : LoopState)
         (sg : Stage) (tr tr' : Trace),
    errMode st = true -> dumpedModDocs st = false ->
    stageSetup L w seedling SeedlingStepServer st tr =
      (Ret (inl (st1, sg)), tr') ->
    exists d1 d2 f1 f2 f3 imports results,
      length results = length (documented imports) /\
      tr' = (tr ++ [EvDefinitions f1 (inr d1); EvDefinitions f2 (inr d2);
                    EvNonStdImports f3 imports] ++
             docRuns L seedling (documented imports) results)%list /\
      dumpedModDocs st1 = true /\ errMode st1 = false /\
      prompt st1 = prompt st ++ docText results ++ fence ++ "go" ++ nl.
Proof.
  intros L w seedling st st1 sg tr tr' Hem Hd H.
  exact (stageSetup_server_retry L w seedling st tr st1 sg tr' Hem Hd H).
Qed.

(** The server file imports a router and gRPC: only the router is
    documented, and its documentation goes into the prompt. *)
Lemma server_retry_collects_docs_witness :
  exists st1 sg tr',
    stageSetup Examples.lib docWorld Examples.fresh SeedlingStepServer
      serverRetry [] = (Ret (inl (st1, sg)), tr') /\
    exists d1 d2 f1 f2 f3 imports results,
      length results = length (documented imports) /\
      tr' = ([] ++ [EvDefinitions f1 (inr d1); EvDefinitions f2 (inr d2);
                    EvNonStdImports f3 imports] ++
             docRuns Examples.lib Examples.fresh (documented imports)
               results)%list /\
      dumpedModDocs st1 = true /\ errMode st1 = false /\
      prompt st1 =
        prompt serverRetry ++ docText results ++ fence ++ "go" ++ nl.
Proof.
  eexists _, _, _. split; [vm_compute; reflexivity|].
  refine (server_retry_collects_docs Examples.lib docWorld Examples.fresh
            serverRetry _ _ [] _ _ _ _);
    [reflexivity | reflexivity | vm_compute; reflexivity].
Defined.

(* ------------------------------------------------------------------ *)
(** ** The first variant                                                *)
(* ------------------------------------------------------------------ *)

Lemma candidatesWritten_app (L : GoLib) pending (t1 t2 : Trace) :
  candidatesWritten L pending t1 -> candidatesWritten L None t2 ->
  candidatesWritten L pending (t1 ++ t2)%list.
Proof.
  revert pending. induction t1 as [|e t1 IH]; intros pending.
  - simpl. now intros ->.
  - cbn [app candidatesWritten]. intros [He Hr] H2.
    split; [exact He | now apply IH].
Qed.

Lemma candidatesWritten_only (L : GoLib) ks (evs : Trace) :
  only ks evs -> ~ In KCompletion ks -> candidatesWritten L None evs.
Proof.
  intros Ho Hk. induction Ho as [|e evs He _ IH]; [reflexivity|].
  cbn [candidatesWritten]. split; [exact I|].
  destruct e; try exact IH. simpl in He. contradiction.
Qed.

Section V1Facts.

Variable L : GoLib.
Variable w : World.
Variable seedling : Seedling.

Lemma sat_buildAndCommit buildCmd :
  sat [KExec] (fun _ => True) realHalt (buildAndCommit L w buildCmd).
Proof.
  unfold buildAndCommit.
  eapply sat_bind; [apply sat_CombinedOutput; simpl; auto|].
  intros [out [e|]] _; [now apply sat_ret|].
  eapply sat_bind; [apply sat_Run; simpl; auto|].
  intros [e|] _; [now apply sat_ret|].
  eapply sat_bind; [apply sat_Run; simpl; auto|].
  intros [e|] _; now apply sat_ret.
Qed.

(** [runSeedling] of the first variant starts with the write of the
    stripped candidate; what follows are runs of commands. *)
Lemma v1_runSeedling_shape file codeType buildCmd gptOut tr :
  exists e rest r,
    V1.runSeedling L w file codeType buildCmd gptOut tr =
      (r, (tr ++ EvWriteFile file (stripFencing L codeType gptOut) e :: rest)%list) /\
    only [KExec] rest /\
    match r with Ret _ => True | Stop h => realHalt h end.
Proof.
  unfold V1.runSeedling, bind at 1, WriteFile.
  destruct (w_WriteFile w (length tr) file (stripFencing L codeType gptOut))
    as [e|] eqn:Ew.
  - eexists (Some e), [], _. split; [reflexivity|]. split; [constructor | exact I].
  - destruct (sat_buildAndCommit buildCmd
                (tr ++ [EvWriteFile file (stripFencing L codeType gptOut) None])%list)
      as (rest & Hs & Ho & Hr).
    exists None, rest.
    destruct (buildAndCommit L w buildCmd _) as [r tr2]. simpl in Hs, Hr.
    subst tr2. exists r. rewrite <- app_assoc. split; [reflexivity|].
    split; [exact Ho|]. destruct r; [exact I | exact Hr].
Qed.

Lemma v1_attempt_spec sg st tr :
  V1.step st < 3 ->
  exists evs r,
    V1.attempt L w seedling sg st tr = (r, (tr ++ evs)%list) /\
    v1AttemptPost seedling st evs r /\
    candidatesWritten L None evs.
Proof.
  intros Hstep. unfold V1.attempt.
  erewrite bind_ret_eq by apply gpt_run.
  set (ev := EvCompletion (V1.prompt st)
               (w_CreateCompletion w (length tr) (V1.prompt st))).
  destruct (w_CreateCompletion w (length tr) (V1.prompt st)) as [e|t] eqn:Ec.
  { exists [ev], (Ret (V1.Return V1.OracleFailed st)).
    split; [reflexivity|]. subst ev. split.
    - split; [reflexivity|]. split; [reflexivity|]. right.
      split; [left; reflexivity | reflexivity].
    - simpl. auto. }
  cbv beta iota zeta.
  match goal with |- context [V1.runSeedling L w ?f ?c ?b t] =>
    destruct (v1_runSeedling_shape f c b t (tr ++ [ev])%list)
      as (we & rest & r & Hrun & Ho & Hh)
  end.
  assert (Hcw : candidatesWritten L None
                  (ev :: EvWriteFile
                     (filepathJoin L ["repos"; "default"; Name seedling;
                                      repoPath sg])
                     (stripFencing L (codeType sg) t) we :: rest)).
  { subst ev. try rewrite Ec. cbn [candidatesWritten]. split; [exact I|].
    split; [eexists _, _, _; reflexivity|].
    apply (candidatesWritten_only L [KExec]); [exact Ho|].
    simpl. intuition discriminate. }
  assert (Hst : forall id,
            storedSteps id
              (ev :: EvWriteFile
                 (filepathJoin L ["repos"; "default"; Name seedling;
                                  repoPath sg])
                 (stripFencing L (codeType sg) t) we :: rest) = []).
  { intros id. subst ev. try rewrite Ec. cbn [storedSteps].
    apply (storedSteps_only id [KExec]); [exact Ho|].
    simpl. intuition discriminate. }
  unfold bind at 1. rewrite Hrun. rewrite <- app_assoc. cbn [app].
  destruct r as [[output [err|]]|h].
  - destruct (output =? EmptyString)%string.
    { eexists _, _. split; [reflexivity|]. split; [|exact Hcw].
      split; [apply Hst|]. split; [reflexivity|]. right.
      split; [right; left; reflexivity | reflexivity]. }
    cbn [V1.errs V1.step V1.prompt V1.addPrompt].
    destruct (Nat.ltb_spec V1.maxErrs (S (V1.errs st))) as [Hlt|Hge].
    + eexists _, _. split; [reflexivity|]. split; [|exact Hcw].
      split; [apply Hst|]. split; [reflexivity|]. left.
      split; [reflexivity|]. split; [reflexivity | exact Hlt].
    + eexists _, _. split; [reflexivity|]. split; [|exact Hcw].
      split; [apply Hst|]. split; [reflexivity|].
      split; [reflexivity | exact Hge].
  - cbn [V1.errs V1.step V1.prompt V1.addPrompt].
    assert (Hn : Nat.eqb (V1.step st + 1) (length V1.steps) = false /\
                 exists next, nth_error V1.steps (V1.step st + 1) = Some next /\
                              nth_error V1.steps (S (V1.step st)) = Some next).
    { destruct (V1.step st) as [|[|[|n]]]; try lia;
        (split; [reflexivity|]); eexists; split; reflexivity. }
    destruct Hn as (Hne & next & Hn1 & Hn2). rewrite Hne, Hn1.
    unfold bind, updateStep, ret.
    destruct (w_updateStep w _ next (ID seedling)) as [e|] eqn:Eu.
    + eexists (_ :: _ :: rest ++ [_])%list, _.
      split; [rewrite <- app_assoc; reflexivity|]. split.
      * split.
        { change (ev :: ?a :: rest ++ ?b)%list with ((ev :: a :: rest) ++ b)%list.
          rewrite storedSteps_app, Hst. reflexivity. }
        split; [reflexivity|]. right.
        split; [right; right; reflexivity | reflexivity].
      * change (ev :: ?a :: rest ++ ?b)%list with ((ev :: a :: rest) ++ b)%list.
        apply candidatesWritten_app; [exact Hcw | simpl; auto].
    + eexists (_ :: _ :: rest ++ [_])%list, _.
      split; [rewrite <- app_assoc; reflexivity|]. split.
      * exists next. split; [exact Hn2|]. split.
        { change (ev :: ?a :: rest ++ ?b)%list with ((ev :: a :: rest) ++ b)%list.
          rewrite storedSteps_app, Hst. cbn [storedSteps app].
          now rewrite Z.eqb_refl. }
        cbn [V1.step V1.errs]. split; [lia | reflexivity].
      * change (ev :: ?a :: rest ++ ?b)%list with ((ev :: a :: rest) ++ b)%list.
        apply candidatesWritten_app; [exact Hcw | simpl; auto].
  - eexists _, _. split; [reflexivity|]. split; [|exact Hcw].
    split; [apply Hst | exact Hh].
Qed.

Lemma v1_innerLoop_spec fuel sg st tr :
  V1.step st < 3 -> V1.errs st <= V1.maxErrs ->
  V1.maxErrs - V1.errs st < fuel ->
  exists evs r,
    V1.innerLoop L w seedling fuel sg st tr = (r, (tr ++ evs)%list) /\
    v1InnerPost seedling st evs r /\
    candidatesWritten L None evs.
Proof.
  revert st tr. induction fuel as [|fuel IH]; intros st tr Hstep Herrs Hfuel;
    [lia|].
  cbn [V1.innerLoop].
  destruct (v1_attempt_spec sg st tr Hstep) as (e1 & r1 & Ha & Hp & Hc).
  destruct r1 as [[st'|st'|x st']|h].
  - erewrite bind_ret_eq by exact Ha. cbv iota.
    destruct Hp as (Hs & Hst & He & Hle).
    destruct (IH st' (tr ++ e1)%list) as (e2 & r & Hl & Hq & Hc2);
      [lia | lia | lia |].
    exists (e1 ++ e2)%list, r. rewrite app_assoc. split; [exact Hl|].
    split; [|now apply candidatesWritten_app].
    destruct r as [[st2|x st2]|h]; simpl in Hq |- *.
    + destruct Hq as (next & Hn & Hs2 & Hst2 & He2). exists next.
      rewrite storedSteps_app, Hs, Hs2, <- Hst.
      repeat split; auto.
    + destruct Hq as (Hs2 & Hst2 & Hx).
      rewrite storedSteps_app, Hs, Hs2. split; [reflexivity|].
      split; [congruence | exact Hx].
    + destruct Hq as (Hs2 & Hh). rewrite storedSteps_app, Hs, Hs2. auto.
  - erewrite bind_ret_eq by exact Ha.
    exists e1, (Ret (V1.Advanced st')). split; [reflexivity|].
    split; [|exact Hc].
    destruct Hp as (next & Hn & Hs & Hst & He). exists next.
    repeat split; auto. lia.
  - erewrite bind_ret_eq by exact Ha.
    exists e1, (Ret (V1.Returned x st')). split; [reflexivity|].
    split; [|exact Hc].
    destruct Hp as (Hs & Hst & Hx). split; [exact Hs|]. split; [exact Hst|].
    destruct Hx as [(-> & He & Hlt) | (Hu & He)].
    + left. split; [reflexivity|]. lia.
    + right. split; [exact Hu | lia].
  - erewrite bind_stop_eq by exact Ha.
    exists e1, (Stop h). split; [reflexivity|]. split; [exact Hp | exact Hc].
Qed.

Lemma v1_stageSetup_known n cur p :
  n < 3 -> nth_error V1.steps n = Some cur ->
  (cur =? SeedlingStepComplete)%string = false /\
  exists p' sg, V1.stageSetup L seedling cur p = Some (p', sg).
Proof.
  intros Hn Hc.
  destruct n as [|[|[|n]]]; try lia; cbn [nth_error V1.steps] in Hc;
    injection Hc as <-; (split; [vm_compute; reflexivity|]);
    unfold V1.stageSetup.
  - rewrite String.eqb_refl. eexists _, _. reflexivity.
  - replace (SeedlingStepServer =? SeedlingStepProtobufs)%string with false
      by (vm_compute; reflexivity).
    rewrite String.eqb_refl. eexists _, _. reflexivity.
  - replace (SeedlingStepDockerfile =? SeedlingStepProtobufs)%string with false
      by (vm_compute; reflexivity).
    replace (SeedlingStepDockerfile =? SeedlingStepServer)%string with false
      by (vm_compute; reflexivity).
    rewrite String.eqb_refl. eexists _, _. reflexivity.
Qed.

Lemma v1_gptLoop_spec fuel st tr :
  V1.step st <= 3 -> V1.errs st <= V1.maxErrs -> 3 - V1.step st < fuel ->
  exists evs r k,
    V1.gptLoop L w seedling fuel st tr = (r, (tr ++ evs)%list) /\
    storedSteps (ID seedling) evs =
      firstn k (skipn (S (V1.step st)) V1.steps) /\
    V1.step st + k <= 3 /\
    v1Outcome (V1.step st + k) r /\
    candidatesWritten L None evs.
Proof.
  revert st tr. induction fuel as [|fuel IH]; intros st tr Hstep Herrs Hfuel;
    [lia|].
  cbn [V1.gptLoop].
  destruct (Nat.eq_dec (V1.step st) 3) as [H3|H3].
  { rewrite H3. cbn [nth_error V1.steps]. rewrite String.eqb_refl.
    exists [], (Ret (V1.Finished, st)), 0. rewrite app_nil_r, Nat.add_0_r.
    split; [reflexivity|]. split; [reflexivity|]. split; [lia|].
    split; [|reflexivity]. simpl. rewrite H3. auto. }
  assert (Hlt : V1.step st < 3) by lia.
  destruct (nth_error V1.steps (V1.step st)) as [cur|] eqn:En.
  2:{ exfalso. apply nth_error_None in En. simpl in En. lia. }
  destruct (v1_stageSetup_known _ cur (V1.prompt st) Hlt En)
    as (Hc & p' & sg & Hsetup).
  rewrite Hc, Hsetup.
  destruct (v1_innerLoop_spec V1.innerFuel sg
              (V1.mkLoopState (V1.step st) (V1.errs st) p') tr)
    as (e1 & r1 & Hi & Hp & Hcw);
    [exact Hlt | exact Herrs
    | cbn [V1.errs]; unfold V1.innerFuel, V1.maxErrs in *; lia |].
  unfold v1InnerPost in Hp. cbn [V1.step V1.errs] in Hp.
  destruct r1 as [[st'|x st']|h].
  - erewrite bind_ret_eq by exact Hi. cbv iota.
    destruct Hp as (next & Hn & Hs & Hst & He).
    destruct (IH st' (tr ++ e1)%list) as (e2 & r & k & Hl & Hk & Hb & Ho & Hc2);
      [lia | exact He | lia |].
    exists (e1 ++ e2)%list, r, (S k). rewrite app_assoc.
    split; [exact Hl|].
    split.
    { rewrite storedSteps_app, Hs, Hk, Hst.
      destruct (V1.step st) as [|[|[|n]]]; try lia;
        cbn [nth_error V1.steps] in Hn; injection Hn as <-; reflexivity. }
    split; [lia|].
    split; [|now apply candidatesWritten_app].
    replace (V1.step st + S k) with (V1.step st' + k) by lia. exact Ho.
  - erewrite bind_ret_eq by exact Hi.
    exists e1, (Ret (x, st')), 0. rewrite Nat.add_0_r.
    split; [reflexivity|].
    destruct Hp as (Hs & Hst & Hx).
    split; [rewrite Hs; reflexivity|]. split; [lia|].
    split; [|exact Hcw]. simpl. split; [exact Hst|].
    destruct Hx as [(-> & He) | ([->|[->| ->]] & He)]; auto.
  - erewrite bind_stop_eq by exact Hi.
    exists e1, (Stop h), 0. rewrite Nat.add_0_r.
    split; [reflexivity|]. destruct Hp as (Hs & Hh).
    split; [rewrite Hs; reflexivity|]. split; [lia|].
    split; [exact Hh | exact Hcw].
Qed.

End V1Facts.

(** X12.  In the first variant of [gptThread], every completion request
    that is answered is followed at once by the write of the answer,
    stripped of its fence, to a file: no check comes between the two, and
    an answer that is empty once stripped is written as well. *)
Theorem v1_every_candidate_is_written :
  forall (L : GoLib) (w : World) (seedling : Seedling),
    candidatesWritten L None (snd (V1.gptThread L w seedling [])).
Proof.
  intros L w seedling. unfold V1.gptThread.
  destruct (v1_gptLoop_spec L w seedling (length V1.steps) V1.initialState [])
    as (evs & r & k & Hl & _ & _ & _ & Hc);
    [simpl; lia | simpl; lia | simpl; lia |].
  rewrite Hl. exact Hc.
Qed.

(** X13.  Whatever way a run of the first variant of [gptThread] ends,
    the steps it has stored are the first [k] of Server, Dockerfile,
    Complete, in this order.  When it returns, it returns on position
    [k]; it finishes only with all three stored; it reports the budget as
    exceeded with exactly six errors and returns with at most five
    otherwise; the exits for an unknown step and for the end of the list
    are never taken.  Nothing is said of how a run that does not return
    stops. *)
Theorem v1_run_outcomes :
  forall (L : GoLib) (w : World) (seedling : Seedling),
    exists k,
      k <= 3 /\
      storedSteps (ID seedling) (snd (V1.gptThread L w seedling [])) =
        firstn k [SeedlingStepServer; SeedlingStepDockerfile;
                  SeedlingStepComplete] /\
      v1Returned k (fst (V1.gptThread L w seedling [])).
Proof.
  intros L w seedling. unfold V1.gptThread.
  destruct (v1_gptLoop_spec L w seedling (length V1.steps) V1.initialState [])
    as (evs & r & k & Hl & Hk & Hb & Ho & _);
    [simpl; lia | simpl; lia | simpl; lia |].
  rewrite Hl. exists k. simpl in Hb, Ho, Hk.
  split; [exact Hb|]. split; [exact Hk|].
  simpl fst. destruct r as [a|h]; [exact Ho | exact I].
Qed.

Section V1Causes.

Variable L : GoLib.
Variable w : World.
Variable seedling : Seedling.

Lemma v1_attempt_cause sg st tr n tr' :
  V1.step st < 3 ->
  V1.attempt L w seedling sg st tr = (Ret n, tr') ->
  match n with
  | V1.Return x _ => v1ExitCause L seedling x tr'
  | V1.Advance st' =>
      V1.step st' = S (V1.step st) /\ v1JustStored seedling st' tr'
  | V1.Retry st' => V1.step st' = V1.step st
  end.
Proof.
  intros Hstep. unfold V1.attempt.
  erewrite bind_ret_eq by apply gpt_run.
  destruct (w_CreateCompletion w (length tr) (V1.prompt st)) as [e|t] eqn:Ec.
  { unfold ret. intros H. injection H as <- <-. simpl. eexists _, _, _.
    reflexivity. }
  cbv beta iota zeta.
  assert (Hn : Nat.eqb (V1.step st + 1) (length V1.steps) = false /\
               exists next, nth_error V1.steps (V1.step st + 1) = Some next).
  { destruct (V1.step st) as [|[|[|k]]]; try lia;
      (split; [reflexivity|]); eexists; reflexivity. }
  destruct Hn as (Hne & next & Hn1).
  cbn [V1.errs V1.step V1.prompt V1.addPrompt].
  rewrite Hne, Hn1.
  unfold V1.runSeedling, buildAndCommit, Run, bind, WriteFile, CombinedOutput,
    updateStep, ret.
  match goal with |- context [w_WriteFile w ?k ?f ?d] =>
    destruct (w_WriteFile w k f d) as [e|] end.
  { rewrite String.eqb_refl.
    intros H. injection H as <- <-. simpl. eexists. left.
    eexists _, _, _. reflexivity. }
  repeat match goal with
  | |- context [w_exec w ?k ?c] => destruct (w_exec w k c) as [? [?|]|]
  end; try discriminate.
  - destruct (String.eqb_spec out EmptyString) as [He|He].
    + intros H. injection H as <- <-. simpl. eexists. right.
      eexists _, _, _. split; [reflexivity | now left].
    + destruct (Nat.ltb V1.maxErrs (S (V1.errs st)));
        intros H; injection H as <- <-; [|reflexivity].
      simpl. eexists _, _, _, _. split; [reflexivity | exact He].
  - rewrite String.eqb_refl. intros H. injection H as <- <-. simpl.
    eexists. right. eexists _, _, _. split; [reflexivity | auto].
  - rewrite String.eqb_refl. intros H. injection H as <- <-. simpl.
    eexists. right. eexists _, _, _. split; [reflexivity | auto].
  - match goal with |- context [w_updateStep w ?k ?s ?i] =>
      destruct (w_updateStep w k s i) as [e|] end;
      intros H; injection H as <- <-.
    + simpl. eexists _, _, _. reflexivity.
    + cbn [V1.step]. split; [lia|].
      eexists _, next. split; [reflexivity|]. cbn [V1.step]. exact Hn1.
Qed.

Lemma v1_innerLoop_cause fuel sg st tr r tr' :
  V1.step st < 3 ->
  V1.innerLoop L w seedling fuel sg st tr = (Ret r, tr') ->
  match r with
  | V1.Returned x _ => v1ExitCause L seedling x tr'
  | V1.Advanced st' =>
      V1.step st' = S (V1.step st) /\ v1JustStored seedling st' tr'
  end.
Proof.
  revert st tr. induction fuel as [|fuel IH]; intros st tr Hstep; [discriminate|].
  cbn [V1.innerLoop]. unfold bind at 1.
  destruct (V1.attempt L w seedling sg st tr) as [[[st1|st1|x st1]|h] tr1] eqn:Ea;
    [| | |discriminate];
    pose proof (v1_attempt_cause _ _ _ _ _ Hstep Ea) as Hc; cbv beta iota in Hc.
  - intros H. apply IH in H; [|lia].
    destruct r as [st2|x st2]; [|exact H]. rewrite <- Hc. exact H.
  - unfold ret. intros H. injection H as <- <-. exact Hc.
  - unfold ret. intros H. injection H as <- <-. exact Hc.
Qed.

Lemma v1_gptLoop_cause fuel st tr x st' tr' :
  V1.step st <= 3 ->
  (V1.step st = 3 -> v1JustStored seedling st tr) ->
  V1.gptLoop L w seedling fuel st tr = (Ret (x, st'), tr') ->
  v1ExitCause L seedling x tr'.
Proof.
  revert st tr. induction fuel as [|fuel IH]; intros st tr Hstep Hin;
    [discriminate|].
  cbn [V1.gptLoop].
  destruct (Nat.eq_dec (V1.step st) 3) as [H3|H3].
  { destruct (Hin H3) as (pre & next & -> & Hn).
    rewrite H3 in *. cbn [nth_error V1.steps] in *. injection Hn as <-.
    rewrite String.eqb_refl. unfold ret. intros H. injection H as <- _ <-.
    simpl. eexists. reflexivity. }
  assert (Hlt : V1.step st < 3) by lia.
  destruct (nth_error V1.steps (V1.step st)) as [cur|] eqn:En; [|discriminate].
  destruct (v1_stageSetup_known L seedling _ cur (V1.prompt st) Hlt En)
    as (Hc & p' & sg & Hsetup).
  rewrite Hc, Hsetup. unfold bind at 1.
  destruct (V1.innerLoop L w seedling V1.innerFuel sg _ tr)
    as [[[st1|y st1]|h] tr1] eqn:Ei; [| |discriminate];
    apply v1_innerLoop_cause in Ei; try exact Hlt; cbn [V1.step] in Ei.
  - destruct Ei as (Hs1 & Hj). apply IH; [lia | intros _; exact Hj].
  - unfold ret. intros H. injection H as <- _ <-. exact Ei.
Qed.

End V1Causes.

Section V1Tally.

Variable L : GoLib.
Variable w : World.
Variable seedling : Seedling.

Lemma v1Counted_app (t1 t2 : Trace) :
  v1Counted (t1 ++ t2)%list = v1Counted t1 + v1Counted t2.
Proof. unfold v1Counted. now rewrite filter_app, length_app. Qed.

Lemma v1Tally_app e0 e1 e2 (evs1 evs2 : Trace) b :
  v1Tally e0 evs1 false e1 -> v1Tally e1 evs2 b e2 ->
  v1Tally e0 (evs1 ++ evs2)%list b e2.
Proof.
  intros [H1 N1] [H2 N2]. split; [rewrite v1Counted_app; lia|].
  destruct b.
  - destruct N2 as (pre & ev & -> & Np & Hs).
    exists (evs1 ++ pre)%list, ev. rewrite app_assoc.
    split; [reflexivity|]. split; [|exact Hs].
    apply Forall_app. now split.
  - apply Forall_app. now split.
Qed.

Lemma v1_stageSetup_cmd cur p p' sg :
  V1.stageSetup L seedling cur p = Some (p', sg) ->
  (cmdCmd sg =? "git")%string = false.
Proof.
  unfold V1.stageSetup.
  destruct (cur =? SeedlingStepProtobufs)%string;
    [intros H; injection H as _ <-; reflexivity|].
  destruct (cur =? SeedlingStepServer)%string;
    [intros H; injection H as _ <-; reflexivity|].
  destruct (cur =? SeedlingStepDockerfile)%string;
    [intros H; injection H as _ <-; reflexivity | discriminate].
Qed.

Lemma v1_attempt_tally sg st tr :
  (cmdCmd sg =? "git")%string = false ->
  exists evs r,
    V1.attempt L w seedling sg st tr = (r, (tr ++ evs)%list) /\
    v1AttemptTally st evs r.
Proof.
  intros Hgit. unfold V1.attempt.
  erewrite bind_ret_eq by apply gpt_run.
  destruct (w_CreateCompletion w (length tr) (V1.prompt st)) as [e|t].
  { eexists [_], _. split; [reflexivity|].
    unfold v1AttemptTally, v1Tally, v1Counted, noSilent, v1IsNoOutput. simpl.
    split; [lia | repeat constructor]. }
  cbv beta iota zeta.
  unfold V1.runSeedling, buildAndCommit, Run, bind, WriteFile, CombinedOutput,
    updateStep, ret, halt.
  match goal with |- context [w_WriteFile w ?k ?f ?d] =>
    destruct (w_WriteFile w k f d) as [e|] end.
  { rewrite String.eqb_refl. eexists [_; _], _.
    split; [rewrite <- ?app_assoc; reflexivity|].
    unfold v1AttemptTally, v1Tally, v1Counted, noSilent, v1IsNoOutput. simpl.
    split; [lia|]. eexists [_], _. split; [reflexivity|].
    split; [repeat constructor | reflexivity]. }
  match goal with |- context [w_exec w ?k ?c] =>
    destruct (w_exec w k c) as [out [e|]|] end.
  - destruct (out =? EmptyString)%string eqn:Eo.
    + eexists [_; _; _], _.
      split; [rewrite <- ?app_assoc; reflexivity|].
      unfold v1AttemptTally, v1Tally, v1Counted, noSilent, v1IsNoOutput. simpl.
      rewrite Eo. simpl.
      split; [lia|]. eexists [_; _], _. split; [reflexivity|].
      split; [repeat constructor | simpl; rewrite Eo; reflexivity].
    + cbn [V1.errs V1.step V1.prompt V1.addPrompt].
      destruct (Nat.ltb V1.maxErrs (S (V1.errs st)));
        eexists [_; _; _], _;
        (split; [rewrite <- ?app_assoc; reflexivity|]);
        unfold v1AttemptTally, v1Tally, v1Counted, noSilent, v1IsNoOutput;
        simpl; rewrite Eo, Hgit; simpl;
        (split; [lia|]); repeat constructor; simpl; rewrite Eo, Hgit;
        reflexivity.
  - match goal with |- context [w_exec w ?k ?c] =>
      destruct (w_exec w k c) as [o1 [e1|]|] end.
    + eexists [_; _; _; _], _.
      split; [rewrite <- ?app_assoc; reflexivity|].
      unfold v1AttemptTally, v1Tally, v1Counted, noSilent, v1IsNoOutput. simpl.
      rewrite ?Bool.orb_true_r. simpl.
      split; [lia|]. eexists [_; _; _], _. split; [reflexivity|].
      split; [repeat constructor | simpl; apply Bool.orb_true_r].
    + match goal with |- context [w_exec w ?k ?c] =>
        destruct (w_exec w k c) as [o2 [e2|]|] end.
      * eexists [_; _; _; _; _], _.
        split; [rewrite <- ?app_assoc; reflexivity|].
        unfold v1AttemptTally, v1Tally, v1Counted, noSilent, v1IsNoOutput. simpl.
        rewrite ?Bool.orb_true_r. simpl.
        split; [lia|]. eexists [_; _; _; _], _. split; [reflexivity|].
        split; [repeat constructor | simpl; apply Bool.orb_true_r].
      * cbn [V1.errs V1.step V1.prompt V1.addPrompt].
        destruct (Nat.eqb (V1.step st + 1) (length V1.steps)).
        { eexists [_; _; _; _; _], _.
          split; [rewrite <- ?app_assoc; reflexivity|].
          unfold v1AttemptTally, v1Tally, v1Counted, noSilent, v1IsNoOutput.
          simpl. split; [lia | repeat constructor]. }
        destruct (nth_error V1.steps (V1.step st + 1)) as [next|].
        2:{ eexists [_; _; _; _; _], _.
            split; [rewrite <- ?app_assoc; reflexivity|].
            unfold v1AttemptTally, noSilent. repeat constructor. }
        match goal with |- context [w_updateStep w ?k ?s ?i] =>
          destruct (w_updateStep w k s i) as [e|] end;
          eexists [_; _; _; _; _; _], _;
          (split; [rewrite <- ?app_assoc; reflexivity|]);
          unfold v1AttemptTally, v1Tally, v1Counted, noSilent, v1IsNoOutput;
          simpl; (split; [lia | repeat constructor]).
      * eexists [_; _; _; _; _], _.
        split; [rewrite <- ?app_assoc; reflexivity|].
        unfold v1AttemptTally, noSilent. repeat constructor.
    + eexists [_; _; _; _], _.
      split; [rewrite <- ?app_assoc; reflexivity|].
      unfold v1AttemptTally, noSilent. repeat constructor.
  - eexists [_; _; _], _.
    split; [rewrite <- ?app_assoc; reflexivity|].
    unfold v1AttemptTally, noSilent. repeat constructor.
Qed.

Lemma v1_innerLoop_tally fuel sg st tr :
  (cmdCmd sg =? "git")%string = false ->
  exists evs r,
    V1.innerLoop L w seedling fuel sg st tr = (r, (tr ++ evs)%list) /\
    v1InnerTally st evs r.
Proof.
  intros Hgit. revert st tr. induction fuel as [|fuel IH]; intros st tr.
  { exists [], (Stop OutOfFuel). rewrite app_nil_r. split; [reflexivity|].
    constructor. }
  cbn [V1.innerLoop].
  destruct (v1_attempt_tally sg st tr Hgit) as (e1 & r1 & Ha & Hp).
  destruct r1 as [[st'|st'|x st']|h]; cbn [v1AttemptTally] in Hp.
  - erewrite bind_ret_eq by exact Ha. cbv iota.
    destruct (IH st' (tr ++ e1)%list) as (e2 & r & Hl & Hq).
    exists (e1 ++ e2)%list, r. rewrite app_assoc. split; [exact Hl|].
    destruct r as [[st2|x st2]|h]; cbn [v1InnerTally] in Hq |- *.
    + exact (v1Tally_app _ _ _ _ _ _ Hp Hq).
    + exact (v1Tally_app _ _ _ _ _ _ Hp Hq).
    + apply Forall_app. split; [apply Hp | exact Hq].
  - erewrite bind_ret_eq by exact Ha.
    exists e1, (Ret (V1.Advanced st')). split; [reflexivity | exact Hp].
  - erewrite bind_ret_eq by exact Ha.
    exists e1, (Ret (V1.Returned x st')). split; [reflexivity | exact Hp].
  - erewrite bind_stop_eq by exact Ha.
    exists e1, (Stop h). split; [reflexivity | exact Hp].
Qed.

Lemma v1_gptLoop_tally fuel st tr :
  exists evs r,
    V1.gptLoop L w seedling fuel st tr = (r, (tr ++ evs)%list) /\
    v1RunTally (V1.errs st) evs r.
Proof.
  revert st tr. induction fuel as [|fuel IH]; intros st tr.
  { exists [], (Stop OutOfFuel). rewrite app_nil_r. split; [reflexivity|].
    constructor. }
  assert (Hnil : forall e, v1Tally e [] false e).
  { intros e. split; [unfold v1Counted; simpl; lia | constructor]. }
  cbn [V1.gptLoop].
  destruct (nth_error V1.steps (V1.step st)) as [cur|].
  2:{ exists [], (Stop Panic). rewrite app_nil_r. split; [reflexivity|].
      constructor. }
  destruct (cur =? SeedlingStepComplete)%string.
  { exists [], (Ret (V1.Finished, st)). rewrite app_nil_r.
    split; [reflexivity | apply Hnil]. }
  destruct (V1.stageSetup L seedling cur (V1.prompt st)) as [[p sg]|] eqn:Es.
  2:{ exists [], (Ret (V1.UnknownStep, st)). rewrite app_nil_r.
      split; [reflexivity | apply Hnil]. }
  destruct (v1_innerLoop_tally V1.innerFuel sg
              (V1.mkLoopState (V1.step st) (V1.errs st) p) tr
              (v1_stageSetup_cmd _ _ _ _ Es)) as (e1 & r1 & Hi & Hp).
  cbn [V1.errs] in Hp.
  destruct r1 as [[st'|x st']|h]; cbn [v1InnerTally] in Hp.
  - erewrite bind_ret_eq by exact Hi. cbv iota.
    destruct (IH st' (tr ++ e1)%list) as (e2 & r & Hl & Hq).
    exists (e1 ++ e2)%list, r. rewrite app_assoc. split; [exact Hl|].
    destruct r as [[x st2]|h]; cbn [v1RunTally] in Hq |- *.
    + exact (v1Tally_app _ _ _ _ _ _ Hp Hq).
    + apply Forall_app. split; [apply Hp | exact Hq].
  - erewrite bind_ret_eq by exact Hi.
    exists e1, (Ret (x, st')). split; [reflexivity | exact Hp].
  - erewrite bind_stop_eq by exact Hi.
    exists e1, (Stop h). split; [reflexivity | exact Hp].
Qed.

(** A trace without failures without output before its last event has
    such a failure at its end only. *)
Lemma silent_is_last (pre0 : Trace) ev0 pre ev post :
  noSilent pre0 -> (pre0 ++ [ev0])%list = (pre ++ ev :: post)%list ->
  v1Silent ev = true -> post = [].
Proof.
  intros Hn He Hs.
  destruct post as [|z post]; [reflexivity|]. exfalso.
  destruct (exists_last (l := z :: post)) as (post' & y & Hy); [discriminate|].
  rewrite Hy in He.
  change (pre ++ ev :: post' ++ [y])%list
    with (pre ++ (ev :: post') ++ [y])%list in He.
  rewrite app_assoc in He. apply app_inj_tail in He. destruct He as [-> _].
  unfold noSilent in Hn. rewrite Forall_forall in Hn.
  specialize (Hn ev). rewrite Hs in Hn.
  assert (true = false); [|discriminate].
  apply Hn. apply in_or_app. right. now left.
Qed.

Lemma v1RunTally_silent (tr : Trace) r pre ev post :
  v1RunTally 0 tr r -> tr = (pre ++ ev :: post)%list -> v1Silent ev = true ->
  post = [] /\ exists st, r = Ret (V1.NoOutput, st).
Proof.
  intros Ht -> Hs.
  assert (Hno : noSilent (pre ++ ev :: post)%list -> False).
  { unfold noSilent. rewrite Forall_forall. intros Hn.
    specialize (Hn ev). rewrite Hs in Hn.
    assert (true = false); [|discriminate].
    apply Hn. apply in_or_app. right. now left. }
  destruct r as [[x st]|h]; cbn [v1RunTally] in Ht; [|destruct (Hno Ht)].
  destruct Ht as [_ Ht].
  destruct x; cbn [v1IsNoOutput] in Ht; try destruct (Hno Ht).
  destruct Ht as (pre0 & ev0 & He & Hn & _).
  split; [|eexists; reflexivity].
  symmetry in He. exact (silent_is_last _ _ _ _ _ Hn He Hs).
Qed.

End V1Tally.

(** X14.  What the first variant of [gptThread] counts, and why it
    returns.  A failure that carries no output (the write failing, a
    command failing without printing anything, [git add] or [git commit]
    failing) ends the run at once: it is the last event of the trace, and
    the run returns by the exit for a failure without output.  When a run
    returns, its error counter is the number of builds that failed with
    output, so that a failure without output is never counted.  A run
    finishes right after storing the complete step; it gives up for the
    budget only after a build that failed with output; the other returns
    follow a failed completion request or a failed store. *)
Theorem v1_exit_cause :
  forall (L : GoLib) (w : World) (seedling : Seedling)
         (r : Res (V1.Exit * V1.LoopState)) (tr : Trace),
    V1.gptThread L w seedling [] = (r, tr) ->
    (forall pre ev post,
       tr = (pre ++ ev :: post)%list -> v1Silent ev = true ->
       post = [] /\ exists st, r = Ret (V1.NoOutput, st)) /\
    (forall x st,
       r = Ret (x, st) ->
       V1.errs st = v1Counted tr /\ v1ExitCause L seedling x tr).
Proof.
  intros L w seedling r tr H.
  destruct (v1_gptLoop_tally L w seedling (length V1.steps) V1.initialState [])
    as (evs & r' & Hl & Ht).
  unfold V1.gptThread in H. rewrite H in Hl. injection Hl as <- <-.
  cbn [V1.errs V1.initialState] in Ht. split.
  - intros pre ev post Htr Hs. exact (v1RunTally_silent _ _ _ _ _ Ht Htr Hs).
  - intros x st ->. split.
    + destruct Ht as [Ht _]. exact Ht.
    + apply (v1_gptLoop_cause L w seedling (length V1.steps) V1.initialState []
               x st tr); [simpl; lia | simpl; lia | exact H].
Qed.

(** A build that fails without printing anything ends the run at the
    first step, with no error counted. *)
Lemma v1_exit_cause_witness :
  exists st tr,
    V1.gptThread Examples.lib silentWorld Examples.fresh [] =
      (Ret (V1.NoOutput, st), tr) /\
    V1.errs st = 0 /\
    (forall pre ev post,
       tr = (pre ++ ev :: post)%list -> v1Silent ev = true ->
       post = [] /\ exists st', Ret (V1.NoOutput, st) = Ret (V1.NoOutput, st')) /\
    (forall x st',
       Ret (V1.NoOutput, st) = Ret (x, st') ->
       V1.errs st' = v1Counted tr /\ v1ExitCause Examples.lib Examples.fresh x tr).
Proof.
  eexists _, _. split; [vm_compute; reflexivity|]. split; [reflexivity|].
  refine (v1_exit_cause Examples.lib silentWorld Examples.fresh _ _ _).
  vm_compute; reflexivity.
Defined.

(* ------------------------------------------------------------------ *)
(** ** The prototype                                                    *)
(* ------------------------------------------------------------------ *)

Section PrototypeFacts.

Import Prototype.

Variable lab : Lab.

Lemma asked_app (t1 t2 : Log) : asked (t1 ++ t2)%list = asked t1 + asked t2.
Proof. unfold asked. now rewrite filter_app, length_app. Qed.

Lemma prototype_gpt_run p tr :
  gpt lab p tr =
  (match replyText (lab_CreateCompletion lab (length tr) p) with
   | Some t => Ret t
   | None => Stop Panic
   end,
   (tr ++ [Asked p (lab_CreateCompletion lab (length tr) p)])%list).
Proof.
  unfold gpt, replyText.
  destruct (lab_CreateCompletion lab (length tr) p) as [e|[|t l]]; reflexivity.
Qed.

Lemma runAndClassify_spec code tr :
  exists evs r,
    runAndClassify lab code tr = (r, (tr ++ evs)%list) /\
    asked evs = 0 /\
    classified (lab_formatSource lab (unfenced code)) evs r.
Proof.
  unfold runAndClassify, classified.
  destruct (lab_formatSource lab (unfenced code)) as [e|src].
  { exists [], (Ret (failed e)). rewrite app_nil_r. auto. }
  destruct (lab_CreateTemp lab (length tr)) as [e|name].
  { eexists [_], _. split; [reflexivity|]. split; [reflexivity|].
    left. exists e. auto. }
  unfold runTemp.
  destruct (lab_Write lab _ name src) as [e|].
  { eexists [_; _; _], _. split; [rewrite <- !app_assoc; reflexivity|].
    split; [reflexivity|]. right. exists name. left. exists e. auto. }
  destruct (lab_Close lab _ name) as [e|].
  { eexists [_; _; _; _], _. split; [rewrite <- !app_assoc; reflexivity|].
    split; [reflexivity|]. right. exists name. right. left. exists e. auto. }
  destruct (lab_goRun lab _ name) as [out err [e|]|].
  - eexists [_; _; _; _; _], _. split; [rewrite <- !app_assoc; reflexivity|].
    split; [reflexivity|]. right. exists name. right. right. left.
    exists out, err, e. auto.
  - eexists [_; _; _; _; _], _. split; [rewrite <- !app_assoc; reflexivity|].
    split; [reflexivity|]. right. exists name. right. right. right. left.
    exists out, err. auto.
  - eexists [_; _; _; _], _. split; [rewrite <- !app_assoc; reflexivity|].
    split; [reflexivity|]. right. exists name. right. right. right. right.
    auto.
Qed.

(** A call of [runAndClassify] that does not return is waiting for
    [go run]. *)
Lemma classified_stop formatted evs h :
  classified formatted evs (Stop h) ->
  exists pre name,
    h = Blocked (goRunCmd name) /\ evs = (pre ++ [GoRun name NeverExits])%list.
Proof.
  unfold classified. destruct formatted as [e|src].
  { intros [_ H]. discriminate H. }
  intros [(e & _ & H) | (name & [(e & _ & H) | [(e & _ & H) |
            [(o & e' & e & _ & H) | [(o & e' & _ & H) | (-> & H)]]]])];
    try discriminate H.
  injection H as ->. eexists [_; _; _], name. split; reflexivity.
Qed.

(** What was done in a run stays done when more runs come before it. *)
Lemma checked_later expectedOutput n (e0 e2 : Log) r :
  1 <= asked e0 -> checked lab expectedOutput n e2 r ->
  checked lab expectedOutput (S n) (e0 ++ e2)%list r.
Proof.
  intros H0. destruct r as [c|h]; cbn [checked].
  - intros [[-> Hn] | (pre & th & a & evs & exec & y & -> & H)].
    + left. split; [reflexivity|]. rewrite asked_app. lia.
    + right. exists (e0 ++ pre)%list, th, a, evs, exec, y.
      split; [now rewrite <- app_assoc | exact H].
  - intros [(pre & name & -> & ->) | (pre & p & -> & ->)]; [left | right].
    + exists (e0 ++ pre)%list, name. split; [reflexivity | now rewrite app_assoc].
    + exists (e0 ++ pre)%list, p. split; [reflexivity | now rewrite app_assoc].
Qed.

Lemma runs_spec n expectedOutput thread tr :
  exists evs r,
    runs lab n expectedOutput thread tr = (r, (tr ++ evs)%list) /\
    asked evs <= 2 * n /\ checked lab expectedOutput n evs r.
Proof.
  revert thread tr. induction n as [|n IH]; intros thread tr.
  { exists [], (Ret EmptyString). rewrite app_nil_r.
    split; [reflexivity|]. split; [apply Nat.le_0_l|]. left.
    split; [reflexivity | apply Nat.le_0_l]. }
  cbn [runs]. rewrite prototype_gpt_run.
  set (a := lab_CreateCompletion lab (length tr) thread).
  set (A := Asked thread a).
  assert (HA : asked [A] = 1) by reflexivity.
  destruct (replyText a) as [g|] eqn:Ea.
  2:{ exists [A], (Stop Panic). split; [reflexivity|].
      split; [rewrite HA; lia|]. right. exists [], thread.
      split; [reflexivity|]. subst A.
      destruct a as [e|[|t l]]; try discriminate Ea. reflexivity. }
  destruct (runAndClassify_spec g (tr ++ [A])%list) as (e1 & rc & Hrc & Ha1 & Hc1).
  rewrite Hrc. destruct rc as [exec|h].
  2:{ exists (A :: e1)%list, (Stop h). rewrite <- app_assoc.
      split; [reflexivity|]. split.
      - change (A :: e1)%list with ([A] ++ e1)%list.
        rewrite asked_app, Ha1, HA. lia.
      - destruct (classified_stop _ _ _ Hc1) as (pre & name & -> & ->).
        left. exists (A :: pre)%list, name. split; reflexivity. }
  destruct (negb (mapIndex exec "error" =? EmptyString)%string) eqn:En.
  - match goal with |- context [runs lab n expectedOutput ?th ?t] =>
      destruct (IH th t) as (e2 & r & Hr & Ha2 & Hc2) end.
    exists ((A :: e1) ++ e2)%list, r.
    split; [rewrite Hr; cbn [app]; rewrite <- !app_assoc; reflexivity|].
    split.
    { change ((A :: e1) ++ e2)%list with ([A] ++ e1 ++ e2)%list.
      rewrite !asked_app, Ha1, HA. lia. }
    apply checked_later; [|exact Hc2].
    change (A :: e1)%list with ([A] ++ e1)%list. rewrite asked_app, HA. lia.
  - cbv zeta. rewrite prototype_gpt_run.
    set (p := isFinishedPrompt g (mapIndex exec "output") expectedOutput).
    set (y := lab_CreateCompletion lab _ p).
    set (Y := Asked p y).
    assert (HY : asked [Y] = 1) by reflexivity.
    destruct (replyText y) as [ans|] eqn:Ey.
    2:{ exists (A :: e1 ++ [Y])%list, (Stop Panic).
        split; [rewrite <- !app_assoc; reflexivity|]. split.
        - change (A :: e1 ++ [Y])%list with ([A] ++ e1 ++ [Y])%list.
          rewrite !asked_app, Ha1, HA, HY. lia.
        - right. exists (A :: e1)%list, p. split; [reflexivity|]. subst Y.
          destruct y as [e|[|t l]]; try discriminate Ey. reflexivity. }
    destruct (String.eqb_spec ans "yes") as [->|Hy].
    + exists (A :: e1 ++ [Y])%list, (Ret g).
      split; [rewrite <- !app_assoc; reflexivity|]. split.
      { change (A :: e1 ++ [Y])%list with ([A] ++ e1 ++ [Y])%list.
        rewrite !asked_app, Ha1, HA, HY. lia. }
      right. exists [], thread, a, e1, exec, y.
      split; [reflexivity|]. split; [exact Ea|]. split; [exact Hc1|].
      split; [|exact Ey].
      apply Bool.negb_false_iff in En. now apply String.eqb_eq in En.
    + match goal with |- context [runs lab n expectedOutput ?th ?t] =>
        destruct (IH th t) as (e2 & r & Hr & Ha2 & Hc2) end.
      exists ((A :: e1 ++ [Y]) ++ e2)%list, r.
      split.
      { rewrite Hr. f_equal. cbn [app]. rewrite <- !app_assoc. reflexivity. }
      split.
      { change ((A :: e1 ++ [Y]) ++ e2)%list
          with ([A] ++ (e1 ++ [Y]) ++ e2)%list.
        rewrite !asked_app, Ha1, HA, HY. lia. }
      apply checked_later; [|exact Hc2].
      change (A :: e1 ++ [Y])%list with ([A] ++ e1 ++ [Y])%list.
      rewrite !asked_app, HA. lia.
Qed.

End PrototypeFacts.

(** X15.  [runAndClassify] of the prototype, path by path.  The
    candidate without its fence is formatted; when that fails nothing is
    touched and the error is returned.  Otherwise a temporary file is
    created, the formatted source is written to it, the file is closed and
    run with [go run], each step only when the one before worked, and the
    file is removed as the last thing on every return that follows its
    creation; it is left only when [go run] never exits.  The map that is
    returned holds the error of the step that failed (for [go run], what
    the program wrote to its standard error) with the empty output, or
    the empty error with what the program wrote to its standard
    output. *)
Theorem runAndClassify_removes_temp_file :
  forall (lab : Prototype.Lab) (code : string) (tr : Prototype.Log),
    exists evs,
      snd (Prototype.runAndClassify lab code tr) = (tr ++ evs)%list /\
      Prototype.classified
        (Prototype.lab_formatSource lab (Prototype.unfenced code)) evs
        (fst (Prototype.runAndClassify lab code tr)).
Proof.
  intros lab code tr.
  destruct (runAndClassify_spec lab code tr) as (evs & r & Hr & _ & Hc).
  exists evs. rewrite Hr. split; [reflexivity | exact Hc].
Qed.

(** X16.  [gpt_thread] of the prototype makes at most ten completion
    requests.  It returns the empty string after five runs, or, before,
    a candidate that was the text of the answer to one of its requests,
    that [runAndClassify] ran and returned a map without an error for,
    and for which the last request, the one that shows the candidate,
    the output in that map and the expected output, was answered by the
    word yes.  With every completion request returning, it stops without
    returning in two cases only: [go run] never exits, or a response
    carries no choice, on which [gpt] panics. *)
Theorem gpt_thread_returns_checked_candidate :
  forall (lab : Prototype.Lab) (seedlingDesc expectedOutput : string),
    Prototype.asked
      (snd (Prototype.gpt_thread lab seedlingDesc expectedOutput [])) <= 10 /\
    Prototype.checked lab expectedOutput Prototype.maxRuns
      (snd (Prototype.gpt_thread lab seedlingDesc expectedOutput []))
      (fst (Prototype.gpt_thread lab seedlingDesc expectedOutput [])).
Proof.
  intros lab seedlingDesc expectedOutput. unfold Prototype.gpt_thread.
  match goal with |- context [Prototype.runs lab ?n ?e ?th ?t] =>
    destruct (runs_spec lab n e th t) as (evs & r & Hr & Ha & Hc) end.
  rewrite Hr. simpl fst. simpl snd. split; [exact Ha | exact Hc].
Qed.

(* ------------------------------------------------------------------ *)
(** ** What a run touches                                               *)
(* ------------------------------------------------------------------ *)

Section SatE.

Context {A B : Type}.
Variable P : Event -> Prop.

Lemma satE_ret (Q : A -> Prop) (a : A) : Q a -> satE P Q (ret a).
Proof.
  intros Ha tr. exists []. simpl. rewrite app_nil_r.
  split; [reflexivity|]. split; [constructor | exact Ha].
Qed.

Lemma satE_halt (Q : A -> Prop) h : satE P Q (halt h).
Proof.
  intros tr. exists []. simpl. rewrite app_nil_r.
  split; [reflexivity|]. split; [constructor | exact I].
Qed.

Lemma satE_bind (Q1 : A -> Prop) (Q : B -> Prop) (m : M A) (f : A -> M B) :
  satE P Q1 m -> (forall a, Q1 a -> satE P Q (f a)) -> satE P Q (bind m f).
Proof.
  intros Hm Hf tr. destruct (Hm tr) as (e1 & He1 & Hp1 & Hr1).
  unfold bind. destruct (m tr) as [[a|h] tr1]; simpl in *; subst tr1.
  - destruct (Hf a Hr1 (tr ++ e1)%list) as (e2 & He2 & Hp2 & Hr2).
    exists (e1 ++ e2)%list. rewrite He2, app_assoc.
    split; [reflexivity|]. split; [|exact Hr2].
    apply Forall_app. now split.
  - exists e1. split; [reflexivity|]. split; [exact Hp1 | exact I].
Qed.

Lemma satE_of_sat ks (Q Q' : A -> Prop) H (m : M A) :
  sat ks Q H m -> (forall e, In (kind e) ks -> P e) ->
  (forall a, Q a -> Q' a) -> satE P Q' m.
Proof.
  intros Hm Hk HQ tr. destruct (Hm tr) as (e & He & Ho & Hr).
  exists e. split; [exact He|]. split.
  - eapply Forall_impl; [|exact Ho]. exact Hk.
  - destruct (fst (m tr)); auto.
Qed.

End SatE.

Section Bounds2.

Variable L : GoLib.
Variable w : World.
Variable seedling : Seedling.

Lemma endsWithOpenFence_app (a p : string) :
  endsWithOpenFence p -> endsWithOpenFence (a ++ p).
Proof.
  intros (body & tag & Ht & ->). exists (a ++ body), tag.
  split; [exact Ht|]. now rewrite append_assoc_str.
Qed.

Lemma endsWithOpenFence_tag (a tag : string) :
  In tag fenceTags -> endsWithOpenFence (a ++ fence ++ tag ++ nl).
Proof. intros Ht. exists a, tag. now split. Qed.

Lemma qualityPrompt_open gptOut description :
  endsWithOpenFence (qualityPrompt gptOut description).
Proof.
  unfold qualityPrompt.
  repeat first
    [ apply (endsWithOpenFence_tag _ "json"); simpl; tauto
    | apply endsWithOpenFence_app ].
Qed.

Lemma satE_gpt p :
  endsWithOpenFence p -> satE (inBounds L seedling) (fun _ => True) (gpt w p).
Proof.
  intros Hp tr. rewrite gpt_run. eexists [_]. split; [reflexivity|].
  split; [|exact I]. constructor; [exact Hp | constructor].
Qed.

Lemma satE_CombinedOutput c :
  runsInPlace L seedling c ->
  satE (inBounds L seedling) (fun _ => True) (CombinedOutput w c).
Proof.
  intros Hc tr. eexists [_]. split; [reflexivity|].
  split; [constructor; [exact Hc | constructor]|].
  simpl. destruct (w_exec w (length tr) c); exact I.
Qed.

Lemma satE_Run c :
  runsInPlace L seedling c ->
  satE (inBounds L seedling) (fun _ => True) (Run w c).
Proof.
  intros Hc. unfold Run.
  eapply satE_bind; [apply satE_CombinedOutput; exact Hc|].
  intros [out err] _. now apply satE_ret.
Qed.

Lemma satE_qualityLoop fuel errs gptOut prompt description :
  satE (inBounds L seedling) (fun _ => True)
       (qualityLoop L w fuel errs gptOut prompt description).
Proof.
  revert errs. induction fuel as [|fuel IH]; intros errs; [apply satE_halt|].
  cbn [qualityLoop]. destruct (Nat.eqb qualityMaxErrs errs); [now apply satE_ret|].
  eapply satE_bind; [apply satE_gpt, qualityPrompt_open|].
  intros [out [e|]] _; [now apply satE_ret|].
  destruct (UnmarshalQualityCheck L (TrimSpace L out)) as [qc|].
  - destruct (negb _); now apply satE_ret.
  - apply IH.
Qed.

Lemma satE_runSeedling sg gptOut step prompt description :
  In (repoPath sg) (stagePaths L seedling) ->
  satE (inBounds L seedling) (fun _ => True)
       (runSeedling L w (stageFile L seedling sg) (codeType sg)
          (stageBuildCmd L seedling sg) gptOut step prompt description).
Proof.
  intros Hsg.
  assert (Hf : isStageFile L seedling (stageFile L seedling sg)).
  { exists (repoPath sg). split; [exact Hsg | reflexivity]. }
  unfold runSeedling.
  eapply satE_bind with (Q1 := fun _ => True).
  { unfold qualityGate. destruct (step =? SeedlingStepServer)%string;
      [apply satE_qualityLoop | now apply satE_ret]. }
  intros [r|] _; [now apply satE_ret|].
  unfold writeAndBuild. destruct (Nat.eqb _ 0); [now apply satE_ret|].
  eapply satE_bind with (Q1 := fun _ => True).
  { intros tr. eexists [_]. split; [reflexivity|].
    split; [constructor; [exact Hf | constructor] | exact I]. }
  intros [e|] _; [now apply satE_ret|].
  eapply satE_bind with (Q1 := fun _ => True).
  { destruct (codeType sg =? "bash")%string; [|now apply satE_ret].
    intros tr. eexists [_]. split; [reflexivity|].
    split; [constructor; [exact Hf | constructor] | exact I]. }
  intros [e|] _; [now apply satE_ret|].
  unfold buildAndCommit.
  eapply satE_bind; [apply satE_CombinedOutput; left; reflexivity|].
  intros [out [e|]] _; [now apply satE_ret|].
  eapply satE_bind; [apply satE_Run; right; left; reflexivity|].
  intros [e|] _; [now apply satE_ret|].
  eapply satE_bind; [apply satE_Run; right; left; reflexivity|].
  intros [e|] _; now apply satE_ret.
Qed.

Lemma satE_goDocLoop imports allDocs goDocErr mods :
  satE (inBounds L seedling) (fun _ => True)
       (goDocLoop L w seedling imports allDocs goDocErr mods).
Proof.
  revert allDocs goDocErr mods.
  induction imports as [|imp rest IH]; intros allDocs goDocErr mods;
    cbn [goDocLoop]; [now apply satE_ret|].
  destruct (_ || _); [apply IH|].
  eapply satE_bind; [apply satE_CombinedOutput; left; reflexivity|].
  intros [out err] _. apply IH.
Qed.

Lemma satE_stageSetup cur st :
  satE (inBounds L seedling) (stageInBounds L seedling)
       (stageSetup L w seedling cur st).
Proof.
  unfold stageSetup.
  destruct (cur =? SeedlingStepProtobufs)%string.
  { apply satE_ret. split; [simpl; auto|].
    st_simpl. apply (endsWithOpenFence_tag _ "protobuf"). simpl. auto. }
  destruct (cur =? SeedlingStepServer)%string.
  { eapply satE_bind with (Q1 := fun _ => True).
    { intros tr. eexists [_]. split; [reflexivity|].
      split; [constructor; [left; reflexivity | constructor] | exact I]. }
    intros [e|protoBufDefs] _; [apply satE_halt|].
    eapply satE_bind with (Q1 := fun _ => True).
    { intros tr. eexists [_]. split; [reflexivity|].
      split; [constructor; [right; reflexivity | constructor] | exact I]. }
    intros [e|grpcDefs] _; [apply satE_halt|].
    eapply satE_bind with (Q1 := fun _ => True).
    - destruct (negb (errMode st)); [now apply satE_ret|]. cbv zeta.
      destruct (negb (dumpedModDocs (clearErrMode st))); [|now apply satE_ret].
      eapply satE_bind with (Q1 := fun _ => True).
      { intros tr. eexists [_]. split; [reflexivity|].
        split; [constructor; [reflexivity | constructor] | exact I]. }
      intros imports _.
      eapply satE_bind; [apply satE_goDocLoop|].
      intros [[allDocs goDocErr] mods] _.
      destruct (_ && _); now apply satE_ret.
    - intros st1 _. apply satE_ret. split; [simpl; auto|].
      st_simpl. apply (endsWithOpenFence_tag _ "go"). simpl. auto. }
  destruct (cur =? SeedlingStepDockerfile)%string.
  { apply satE_ret. split; [simpl; auto|].
    st_simpl. apply (endsWithOpenFence_tag _ "dockerfile"). simpl. auto. }
  destruct (cur =? SeedlingStepExampleClientCall)%string.
  { eapply satE_bind with (Q1 := fun _ => True).
    - destruct (negb (errMode st)); [|now apply satE_ret].
      eapply satE_bind with (Q1 := fun _ => True).
      { intros tr. eexists [_]. split; [reflexivity|].
        split; [constructor; [reflexivity | constructor] | exact I]. }
      intros [e|c] _; now apply satE_ret.
    - intros [st1|x] _; apply satE_ret; [|exact I].
      split; [simpl; auto|].
      st_simpl. apply (endsWithOpenFence_tag _ "bash"). simpl. auto. }
  now apply satE_ret.
Qed.

Lemma satE_attempt cur st sg :
  In (repoPath sg) (stagePaths L seedling) -> endsWithOpenFence (prompt st) ->
  satE (inBounds L seedling) (fun _ => True) (attempt L w seedling cur st sg).
Proof.
  intros Hsg Hp. unfold attempt.
  eapply satE_bind; [apply satE_gpt; exact Hp|].
  intros [gptOutput [e|]] _; [now apply satE_ret|].
  eapply satE_bind; [apply satE_runSeedling; exact Hsg|].
  intros [output [e|]] _; unfold settle; [now apply satE_ret|].
  unfold onSuccess.
  destruct (nth_error steps (step st + 1)) as [next|] eqn:En; [|apply satE_halt].
  eapply satE_bind with (Q1 := fun _ => True).
  { intros tr. eexists [_]. split; [reflexivity|].
    split; [|exact I]. constructor; [|constructor].
    split; [reflexivity|]. eapply nth_error_In. exact En. }
  intros [e|] _; now apply satE_ret.
Qed.

Lemma satE_iteration st :
  satE (inBounds L seedling) (fun _ => True) (iteration L w seedling st).
Proof.
  unfold iteration.
  destruct (nth_error steps (step st)) as [cur|]; [|apply satE_halt].
  destruct (cur =? SeedlingStepComplete)%string.
  - unfold launch.
    eapply satE_bind;
      [apply satE_CombinedOutput; right; right; split; reflexivity|].
    intros [out [e|]] _; [now apply satE_ret|].
    eapply satE_bind; [apply satE_Run; right; right; split; reflexivity|].
    intros [e|] _; [apply satE_halt | now apply satE_ret].
  - eapply satE_bind; [apply satE_stageSetup|].
    intros [[st1 sg]|x] Hq; [|now apply satE_ret].
    destruct Hq as [Hsg Hp]. now apply satE_attempt.
Qed.

Lemma satE_gptLoop fuel st :
  satE (inBounds L seedling) (fun _ => True) (gptLoop L w seedling fuel st).
Proof.
  revert st. induction fuel as [|fuel IH]; intros st; [apply satE_halt|].
  cbn [gptLoop]. eapply satE_bind; [apply satE_iteration|].
  intros [st'|x st'] _; [apply IH | now apply satE_ret].
Qed.

End Bounds2.

(** X17.  What a run of [gptThread] touches: it writes only the files of
    the four steps in the directory of the task (and changes the mode
    only of such a file); it reads only the generated files of that
    directory; it runs its commands in that directory, in the directory
    of the repositories, or, for [docker run] and [docker inspect], in its
    own; and it stores steps of the list, for the row of the task only. *)
Theorem gptThread_stays_in_bounds :
  forall (L : GoLib) (w : World) (seedling : Seedling) (e : Event),
    In e (snd (gptThread L w seedling [])) ->
    match e with
    | EvCompletion _ _ => True
    | _ => inBounds L seedling e
    end.
Proof.
  intros L w seedling e Hin.
  destruct (satE_gptLoop L w seedling gptThreadFuel initialState [])
    as (evs & He & Hp & _).
  unfold gptThread in Hin. rewrite He in Hin. simpl in Hin.
  rewrite Forall_forall in Hp. specialize (Hp e Hin).
  destruct e; first [exact I | exact Hp].
Qed.

Lemma gptThread_stays_in_bounds_witness :
  In (EvWriteFile "repos/default/echo/protobufs/echo.proto" "package main" None)
     (snd (gptThread Examples.lib Examples.happyWorld Examples.fresh [])) /\
  isStageFile Examples.lib Examples.fresh
    "repos/default/echo/protobufs/echo.proto".
Proof.
  split; [vm_compute; tauto|].
  refine (gptThread_stays_in_bounds Examples.lib Examples.happyWorld
            Examples.fresh
            (EvWriteFile "repos/default/echo/protobufs/echo.proto"
               "package main" None) _).
  vm_compute; tauto.
Defined.

(** X18.  Every completion request of a run of [gptThread], for a
    candidate or for the quality check, is made with a prompt that ends
    with an opened fence: three backquotes, one of the tags protobuf, go,
    dockerfile, bash and json, and a newline. *)
Theorem every_prompt_ends_with_open_fence :
  forall (L : GoLib) (w : World) (seedling : Seedling) (p : string)
         (r : error + string),
    In (EvCompletion p r) (snd (gptThread L w seedling [])) ->
    endsWithOpenFence p.
Proof.
  intros L w seedling p r Hin.
  destruct (satE_gptLoop L w seedling gptThreadFuel initialState [])
    as (evs & He & Hp & _).
  unfold gptThread in Hin. rewrite He in Hin. simpl in Hin.
  rewrite Forall_forall in Hp. exact (Hp _ Hin).
Qed.

Lemma every_prompt_ends_with_open_fence_witness :
  exists p r,
    hd_error (snd (gptThread Examples.lib Examples.offlineWorld
                     Examples.fresh [])) = Some (EvCompletion p r) /\
    endsWithOpenFence p.
Proof.
  eexists _, _. split; [vm_compute; reflexivity|].
  refine (every_prompt_ends_with_open_fence Examples.lib Examples.offlineWorld
            Examples.fresh _ (inl "connection refused") _).
  vm_compute. left. reflexivity.
Defined.

(** The first attempt of the server step when the quality check cannot
    be reached: the attempt counts as failed, with the error of the
    request as its message. *)
Lemma quality_check_transport_error_is_retried_witness :
  attempt Examples.lib gateDownWorld Examples.fresh SeedlingStepServer
    Examples.onServer Examples.serverStage [] =
  (Ret (onFailure Examples.onServer "package main" EmptyString "timeout"),
   ([] ++ [EvCompletion (prompt Examples.onServer) (inr "package main");
           EvCompletion (qualityPrompt "package main"
                           (Description Examples.fresh))
             (inl "timeout")])%list).
Proof.
  refine (quality_check_transport_error_is_retried Examples.lib gateDownWorld
            Examples.fresh Examples.onServer Examples.serverStage []
            "package main" "timeout" _ _);
    vm_compute; reflexivity.
Defined.

(* ------------------------------------------------------------------ *)
(** ** The variant of garden/main.go                                    *)
(* ------------------------------------------------------------------ *)

Lemma beforeFirstStore_only ks (evs : Trace) :
  only ks evs -> ~ In KUpdateStep ks -> beforeFirstStore evs = evs.
Proof.
  intros Ho Hk. induction Ho as [|e evs He _ IH]; [reflexivity|].
  destruct e; cbn [beforeFirstStore]; first [now rewrite IH | simpl in He; contradiction].
Qed.

Lemma beforeFirstStore_app (a b : Trace) :
  beforeFirstStore a = a ->
  beforeFirstStore (a ++ b)%list = (a ++ beforeFirstStore b)%list.
Proof.
  induction a as [|e a IH]; [reflexivity|].
  destruct e; cbn [beforeFirstStore app]; intros H;
    try (injection H as H; now rewrite (IH H)).
  destruct r as [err|]; [injection H as H; now rewrite (IH H) | discriminate H].
Qed.

Lemma beforeFirstStore_stored (pre rest : Trace) next id :
  beforeFirstStore pre = pre ->
  beforeFirstStore ((pre ++ [EvUpdateStep next id None]) ++ rest)%list = pre.
Proof.
  intros H. rewrite <- app_assoc, (beforeFirstStore_app _ _ H).
  cbn [app beforeFirstStore]. apply app_nil_r.
Qed.

Section MainGoFacts.

Variable L : GoLib.
Variable w : World.
Variable libraryDefinitions : nat -> string -> error + list string.
Variable seedling : Seedling.

Lemma mainGo_attempt_spec sg st tr :
  MainGo.step st < 3 ->
  exists evs r,
    MainGo.attempt L w seedling sg st tr = (r, (tr ++ evs)%list) /\
    mainGoIterationPost seedling st evs r /\
    Forall (asksOnly (MainGo.prompt st)) evs.
Proof.
  intros Hstep. unfold MainGo.attempt.
  erewrite bind_ret_eq by apply gpt_run.
  set (ev := EvCompletion (MainGo.prompt st)
               (w_CreateCompletion w (length tr) (MainGo.prompt st))).
  assert (Hev : asksOnly (MainGo.prompt st) ev) by reflexivity.
  assert (Hevk : kind ev = KCompletion) by reflexivity.
  clearbody ev.
  destruct (w_CreateCompletion w (length tr) (MainGo.prompt st)) as [e|t].
  { exists [ev], (Ret (MainGo.Return MainGo.OracleFailed st)).
    split; [reflexivity|]. split; [|now constructor].
    assert (Ho : only [KCompletion] [ev])
      by (constructor; [rewrite Hevk; simpl; auto | constructor]).
    split; [apply (storedSteps_only _ [KCompletion]); [exact Ho|];
            simpl; intuition discriminate|].
    split; [apply (beforeFirstStore_only [KCompletion]); [exact Ho|];
            simpl; intuition discriminate|].
    split; [reflexivity|]. right. split; [left; reflexivity | reflexivity]. }
  cbv beta iota zeta.
  match goal with |- context [MainGo.runSeedling L w ?f ?c ?b t] =>
    destruct (v1_runSeedling_shape L w f c b t (tr ++ [ev])%list)
      as (we & rest & r & Hrun & Ho & Hh);
    change (V1.runSeedling L w f c b t) with (MainGo.runSeedling L w f c b t)
      in Hrun;
    set (wev := EvWriteFile f (stripFencing L c t) we) in *
  end.
  assert (Hwk : kind wev = KWriteFile) by reflexivity.
  assert (Hwa : asksOnly (MainGo.prompt st) wev) by reflexivity.
  clearbody wev.
  assert (Hall : only [KCompletion; KWriteFile; KExec] (ev :: wev :: rest)).
  { constructor; [rewrite Hevk; simpl; auto|].
    constructor; [rewrite Hwk; simpl; auto|].
    eapply Forall_impl; [|exact Ho]. simpl. intuition. }
  assert (Hst : storedSteps (ID seedling) (ev :: wev :: rest) = []).
  { apply (storedSteps_only _ _ _ Hall). simpl. intuition discriminate. }
  assert (Hbf : beforeFirstStore (ev :: wev :: rest) = (ev :: wev :: rest)%list).
  { apply (beforeFirstStore_only _ _ Hall). simpl. intuition discriminate. }
  assert (Hask : Forall (asksOnly (MainGo.prompt st)) (ev :: wev :: rest)).
  { constructor; [exact Hev|]. constructor; [exact Hwa|].
    eapply Forall_impl; [|exact Ho]. intros e He. destruct e; try exact I.
    simpl in He. intuition discriminate. }
  unfold bind at 1. rewrite Hrun. rewrite <- app_assoc. cbn [app].
  destruct r as [[output [err|]]|h].
  - destruct (output =? EmptyString)%string.
    { eexists _, _. split; [reflexivity|]. split; [|exact Hask].
      split; [exact Hst|]. split; [exact Hbf|]. split; [reflexivity|]. right.
      split; [right; left; reflexivity | reflexivity]. }
    cbn [MainGo.errs MainGo.step MainGo.prompt MainGo.addPrompt].
    destruct (Nat.ltb_spec MainGo.maxErrs (S (MainGo.errs st))) as [Hlt|Hge].
    + eexists _, _. split; [reflexivity|]. split; [|exact Hask].
      split; [exact Hst|]. split; [exact Hbf|]. split; [reflexivity|]. left.
      split; [reflexivity|]. split; [reflexivity | exact Hlt].
    + eexists _, _. split; [reflexivity|]. split; [|exact Hask].
      left. split; [exact Hst|]. split; [exact Hbf|].
      split; [reflexivity|]. split; [reflexivity | exact Hge].
  - cbn [MainGo.errs MainGo.step MainGo.prompt MainGo.addPrompt].
    assert (Hn : Nat.eqb (MainGo.step st + 1) (length MainGo.steps) = false /\
                 exists next,
                   nth_error MainGo.steps (MainGo.step st + 1) = Some next /\
                   nth_error MainGo.steps (S (MainGo.step st)) = Some next).
    { destruct (MainGo.step st) as [|[|[|n]]]; try lia;
        (split; [reflexivity|]); eexists; split; reflexivity. }
    destruct Hn as (Hne & next & Hn1 & Hn2). rewrite Hne, Hn1.
    unfold bind, updateStep, ret.
    destruct (w_updateStep w _ next (ID seedling)) as [e|] eqn:Eu.
    + exists ((ev :: wev :: rest) ++ [EvUpdateStep next (ID seedling) (Some e)])%list.
      eexists. split; [rewrite <- app_assoc; reflexivity|]. split.
      * split; [rewrite storedSteps_app, Hst; reflexivity|].
        split; [rewrite (beforeFirstStore_app _ _ Hbf); reflexivity|].
        split; [reflexivity|]. right.
        split; [right; right; reflexivity | reflexivity].
      * apply Forall_app. split; [exact Hask | now constructor].
    + exists ((ev :: wev :: rest) ++ [EvUpdateStep next (ID seedling) None])%list.
      eexists. split; [rewrite <- app_assoc; reflexivity|]. split.
      * right. exists next, (ev :: wev :: rest)%list.
        split; [exact Hn2|]. split; [reflexivity|].
        split; [exact Hst|]. split; [exact Hbf|].
        cbn [MainGo.step MainGo.errs]. split; [lia | reflexivity].
      * apply Forall_app. split; [exact Hask | now constructor].
  - eexists _, _. split; [reflexivity|]. split; [|exact Hask].
    split; [exact Hst|]. split; [exact Hbf | exact Hh].
Qed.

(** The set-up of a step of the list parses files and nothing else; on
    the Protobufs step its prompt is the fixed one. *)
Lemma mainGo_stageSetup_spec n cur p :
  n < 3 -> nth_error MainGo.steps n = Some cur ->
  (cur =? SeedlingStepComplete)%string = false /\
  sat [KDefinitions]
      (fun r => match r with
                | Some (p', _) =>
                    n = 0 ->
                    p' = MainGo.protoStepPrompt (Description seedling)
                                                (Name seedling)
                | None => False
                end)
      realHalt
      (MainGo.stageSetup L w libraryDefinitions seedling cur p).
Proof.
  intros Hn Hc.
  destruct n as [|[|[|n]]]; try lia; cbn [nth_error MainGo.steps] in Hc;
    injection Hc as <-; (split; [vm_compute; reflexivity|]);
    unfold MainGo.stageSetup.
  - rewrite String.eqb_refl. now apply sat_ret.
  - replace (SeedlingStepServer =? SeedlingStepProtobufs)%string with false
      by (vm_compute; reflexivity).
    rewrite String.eqb_refl.
    eapply sat_bind; [apply sat_definitions; simpl; auto|].
    intros [e|d1] _; [now apply sat_halt|].
    eapply sat_bind; [apply sat_definitions; simpl; auto|].
    intros [e|d2] _; [now apply sat_halt|].
    eapply sat_bind with (Q1 := fun _ => True).
    { intros tr. eexists [_]. split; [reflexivity|].
      split; [constructor; [simpl; auto | constructor] | exact I]. }
    intros [e|d3] _; [now apply sat_halt|].
    apply sat_ret. discriminate.
  - replace (SeedlingStepDockerfile =? SeedlingStepProtobufs)%string with false
      by (vm_compute; reflexivity).
    replace (SeedlingStepDockerfile =? SeedlingStepServer)%string with false
      by (vm_compute; reflexivity).
    rewrite String.eqb_refl. apply sat_ret. discriminate.
Qed.

Lemma mainGo_iteration_spec st tr :
  MainGo.step st < 3 ->
  exists evs r,
    MainGo.iteration L w libraryDefinitions seedling st tr =
      (r, (tr ++ evs)%list) /\
    mainGoIterationPost seedling st evs r /\
    (MainGo.step st = 0 ->
     Forall (asksOnly (MainGo.protoStepPrompt (Description seedling)
                                              (Name seedling))) evs).
Proof.
  intros Hstep. unfold MainGo.iteration.
  destruct (nth_error MainGo.steps (MainGo.step st)) as [cur|] eqn:En.
  2:{ exfalso. apply nth_error_None in En. simpl in En. lia. }
  destruct (mainGo_stageSetup_spec _ cur (MainGo.prompt st) Hstep En)
    as (Hc & Hsat).
  rewrite Hc.
  destruct (Hsat tr) as (e1 & He1 & Ho1 & Hr1).
  assert (Hs1 : storedSteps (ID seedling) e1 = [])
    by (apply (storedSteps_only _ _ _ Ho1); simpl; intuition discriminate).
  assert (Hb1 : beforeFirstStore e1 = e1)
    by (apply (beforeFirstStore_only _ _ Ho1); simpl; intuition discriminate).
  assert (Ha1 : forall q, Forall (asksOnly q) e1).
  { intros q. eapply Forall_impl; [|exact Ho1]. intros e He.
    destruct e; try exact I. simpl in He. intuition discriminate. }
  unfold bind.
  destruct (MainGo.stageSetup L w libraryDefinitions seedling cur
              (MainGo.prompt st) tr) as [[[[p' sg]|]|h] tr1];
    simpl in He1, Hr1; subst tr1; [| contradiction |].
  - destruct (mainGo_attempt_spec sg
                (MainGo.mkLoopState (MainGo.step st) (MainGo.errs st) p')
                (tr ++ e1)%list Hstep) as (e2 & r & Ha & Hp & Hask).
    exists (e1 ++ e2)%list, r. rewrite app_assoc. split; [exact Ha|].
    split.
    + unfold mainGoIterationPost in *. cbn [MainGo.step MainGo.errs] in Hp.
      destruct r as [[st'|x st']|h].
      * destruct Hp as [(Hs & Hb & Hx) | (next & pre & Hn & -> & Hs & Hb & Hx)].
        -- left. rewrite storedSteps_app, Hs1, Hs.
           rewrite (beforeFirstStore_app _ _ Hb1), Hb. auto.
        -- right. exists next, (e1 ++ pre)%list. rewrite app_assoc.
           rewrite storedSteps_app, Hs1, Hs.
           rewrite (beforeFirstStore_app _ _ Hb1), Hb. auto.
      * destruct Hp as (Hs & Hb & Hx).
        rewrite storedSteps_app, Hs1, Hs.
        rewrite (beforeFirstStore_app _ _ Hb1), Hb. auto.
      * destruct Hp as (Hs & Hb & Hx).
        rewrite storedSteps_app, Hs1, Hs.
        rewrite (beforeFirstStore_app _ _ Hb1), Hb. auto.
    + intros H0. apply Forall_app. split; [apply Ha1|].
      cbn [MainGo.prompt] in Hask. rewrite <- (Hr1 H0). exact Hask.
  - exists e1, (Stop h). split; [reflexivity|].
    split; [|intros _; apply Ha1].
    split; [exact Hs1|]. split; [exact Hb1 | exact Hr1].
Qed.

Lemma mainGo_gptLoop_spec fuel st tr :
  MainGo.step st <= 3 -> MainGo.errs st <= MainGo.maxErrs ->
  (MainGo.maxErrs - MainGo.errs st) + (3 - MainGo.step st) < fuel ->
  exists evs r k,
    MainGo.gptLoop L w libraryDefinitions seedling fuel st tr =
      (r, (tr ++ evs)%list) /\
    storedSteps (ID seedling) evs =
      firstn k (skipn (S (MainGo.step st)) MainGo.steps) /\
    MainGo.step st + k <= 3 /\
    mainGoOutcome (MainGo.step st + k) r /\
    (MainGo.step st = 0 ->
     Forall (asksOnly (MainGo.protoStepPrompt (Description seedling)
                                              (Name seedling)))
            (beforeFirstStore evs)).
Proof.
  revert st tr. induction fuel as [|fuel IH]; intros st tr Hstep Herrs Hfuel;
    [lia|].
  cbn [MainGo.gptLoop].
  destruct (Nat.eq_dec (MainGo.step st) 3) as [H3|H3].
  { unfold MainGo.iteration. rewrite H3. cbn [nth_error MainGo.steps].
    rewrite String.eqb_refl. unfold bind, ret.
    exists [], (Ret (MainGo.Finished, st)), 0. rewrite app_nil_r, Nat.add_0_r.
    split; [reflexivity|]. split; [reflexivity|]. split; [lia|].
    split; [|intros _; constructor]. simpl. rewrite H3. auto. }
  assert (Hlt : MainGo.step st < 3) by lia.
  destruct (mainGo_iteration_spec st tr Hlt) as (e1 & r1 & Hi & Hp & Hask).
  destruct r1 as [[st'|x st']|h].
  - erewrite bind_ret_eq by exact Hi. cbv iota.
    destruct Hp as [(Hs & Hb & Hst & He & Hle)
                   | (next & pre & Hn & -> & Hs & Hb & Hst & He)].
    + destruct (IH st' (tr ++ e1)%list) as (e2 & r & k & Hl & Hk & Hbd & Ho & Ha2);
        [lia | lia | lia |].
      exists (e1 ++ e2)%list, r, k. rewrite app_assoc.
      split; [exact Hl|].
      split; [rewrite storedSteps_app, Hs, Hk, Hst; reflexivity|].
      split; [lia|].
      split; [rewrite <- Hst; exact Ho|].
      intros H0. rewrite (beforeFirstStore_app _ _ Hb).
      apply Forall_app. split; [apply Hask; exact H0|].
      apply Ha2. lia.
    + destruct (IH st' (tr ++ pre ++ [EvUpdateStep next (ID seedling) None])%list)
        as (e2 & r & k & Hl & Hk & Hbd & Ho & _); [lia | lia | lia |].
      exists ((pre ++ [EvUpdateStep next (ID seedling) None]) ++ e2)%list, r, (S k).
      split; [rewrite Hl; f_equal; rewrite <- !app_assoc; reflexivity|].
      split.
      { rewrite !storedSteps_app, Hs, Hk, Hst. cbn [storedSteps app].
        rewrite Z.eqb_refl.
        destruct (MainGo.step st) as [|[|[|n]]]; try lia;
          cbn [nth_error MainGo.steps] in Hn; injection Hn as <-; reflexivity. }
      split; [lia|].
      split.
      { replace (MainGo.step st + S k) with (MainGo.step st' + k) by lia.
        exact Ho. }
      intros H0. rewrite (beforeFirstStore_stored _ _ _ _ Hb).
      specialize (Hask H0). apply Forall_app in Hask. exact (proj1 Hask).
  - erewrite bind_ret_eq by exact Hi.
    exists e1, (Ret (x, st')), 0. rewrite Nat.add_0_r.
    split; [reflexivity|].
    destruct Hp as (Hs & Hb & Hst & Hx).
    split; [rewrite Hs; reflexivity|]. split; [lia|].
    split.
    { simpl. split; [exact Hst|].
      destruct Hx as [(-> & He & Hgt) | ([->|[->| ->]] & He)]; [lia | | |];
        (split; [lia|]); lia. }
    intros H0. rewrite Hb. apply Hask. exact H0.
  - erewrite bind_stop_eq by exact Hi.
    exists e1, (Stop h), 0. rewrite Nat.add_0_r.
    split; [reflexivity|]. destruct Hp as (Hs & Hb & Hh).
    split; [rewrite Hs; reflexivity|]. split; [lia|].
    split; [exact Hh|].
    intros H0. rewrite Hb. apply Hask. exact H0.
Qed.

End MainGoFacts.

(** X21.  In [gptThread] of garden/main.go every completion request made
    before the first step is stored, that is while the loop is on the
    Protobufs step, has one and the same prompt, the one built from the
    name and the description of the task: what is appended to the prompt
    after a failed build of that step is dropped when the step is set up
    again, so the retry asks exactly what the first attempt asked. *)
Theorem mainGo_protobufs_retries_repeat_the_prompt :
  forall (L : GoLib) (w : World)
         (libraryDefinitions : nat -> string -> error + list string)
         (seedling : Seedling),
    Forall (asksOnly (MainGo.protoStepPrompt (Description seedling)
                                             (Name seedling)))
      (beforeFirstStore
         (snd (MainGo.gptThread L w libraryDefinitions seedling []))).
Proof.
  intros L w libraryDefinitions seedling. unfold MainGo.gptThread.
  destruct (mainGo_gptLoop_spec L w libraryDefinitions seedling
              MainGo.gptThreadFuel MainGo.initialState [])
    as (evs & r & k & Hl & _ & _ & _ & Ha);
    [simpl; lia | simpl; lia | vm_compute; lia |].
  rewrite Hl. simpl snd. apply Ha. reflexivity.
Qed.

(** X22.  Whatever way a run of [gptThread] of garden/main.go ends,
    the steps it has stored are the first [k] of Server, Dockerfile,
    Complete, in this order.  When it returns, it returns on position
    [k]; it finishes only with all three stored; it reports the budget as
    exceeded with exactly six errors and returns with at most five
    otherwise; the exits for an unknown step and for the end of the list
    are never taken.  Nothing is said of how a run that does not return
    stops. *)
Theorem mainGo_run_outcomes :
  forall (L : GoLib) (w : World)
         (libraryDefinitions : nat -> string -> error + list string)
         (seedling : Seedling),
    exists k,
      k <= 3 /\
      storedSteps (ID seedling)
        (snd (MainGo.gptThread L w libraryDefinitions seedling [])) =
        firstn k [SeedlingStepServer; SeedlingStepDockerfile;
                  SeedlingStepComplete] /\
      mainGoReturned k
        (fst (MainGo.gptThread L w libraryDefinitions seedling [])).
Proof.
  intros L w libraryDefinitions seedling. unfold MainGo.gptThread.
  destruct (mainGo_gptLoop_spec L w libraryDefinitions seedling
              MainGo.gptThreadFuel MainGo.initialState [])
    as (evs & r & k & Hl & Hk & Hb & Ho & _);
    [simpl; lia | simpl; lia | vm_compute; lia |].
  rewrite Hl. exists k. simpl in Hb, Ho, Hk.
  split; [exact Hb|]. split; [exact Hk|].
  simpl fst. destruct r as [a|h]; [exact Ho | exact I].
Qed.

(* ------------------------------------------------------------------ *)
(** ** Names that clean to nothing                                      *)
(* ------------------------------------------------------------------ *)

Lemma ReplaceAll_dropped (s new : string) :
  forallb_str dropped s = true -> ReplaceAll s " " new = s.
Proof.
  unfold ReplaceAll. induction s as [|c r IH]; [reflexivity|].
  cbn [forallb_str]. rewrite andb_true_iff. intros [Hc Hr].
  unfold dropped in Hc. rewrite andb_true_iff, !negb_true_iff in Hc.
  destruct Hc as [Hsp _].
  cbn [replaceFrom]. unfold HasPrefix. cbn [stripPrefix]. rewrite Hsp.
  now rewrite (IH Hr).
Qed.

Lemma removeInvalidChars_dropped (s : string) :
  forallb_str dropped s = true -> removeInvalidChars s = EmptyString.
Proof.
  unfold removeInvalidChars. induction s as [|c r IH]; [reflexivity|].
  cbn [forallb_str filter_str]. rewrite andb_true_iff. intros [Hc Hr].
  unfold dropped in Hc. rewrite andb_true_iff, !negb_true_iff in Hc.
  destruct Hc as [_ Hk]. rewrite Hk. exact (IH Hr).
Qed.

(** X23.  The check of [CreateSeedling] for a missing name looks at the
    name before it is cleaned: a name that is not empty but made only of
    bytes that [cleanFilePath] drops passes the check and is stored as the
    empty name, and [gptThread] then runs its commands for the task in the
    path joined from repos, default and the empty string. *)
Theorem CreateSeedling_accepts_names_that_clean_to_nothing :
  forall (L : GoLib) (s : Seedling),
    Name s <> EmptyString ->
    TrimSpace L (Name s) = Name s ->
    forallb_str dropped (Name s) = true ->
    exists row,
      CreateSeedling_row L s = Some row /\
      Name row = EmptyString /\
      repoDir L row = filepathJoin L ["repos"; "default"; EmptyString].
Proof.
  intros L s Hne Htrim Hd.
  assert (Hclean : cleanFilePath L (Name s) = EmptyString).
  { unfold cleanFilePath. rewrite Htrim, (ReplaceAll_dropped _ _ Hd).
    rewrite (removeInvalidChars_dropped _ Hd). reflexivity. }
  exists (createdSeedling L s). unfold CreateSeedling_row.
  destruct (String.eqb_spec (Name s) EmptyString) as [He|_]; [contradiction|].
  split; [reflexivity|].
  split; [exact Hclean|].
  unfold repoDir, createdSeedling. cbn [Name].
  rewrite Hclean. reflexivity.
Qed.

Lemma CreateSeedling_accepts_names_that_clean_to_nothing_witness :
  exists row,
    CreateSeedling_row Examples.lib
      (mkSeedling 0 "!?!" "echoes its input" EmptyString) = Some row /\
    Name row = EmptyString /\
    repoDir Examples.lib row =
      filepathJoin Examples.lib ["repos"; "default"; EmptyString].
Proof.
  refine (CreateSeedling_accepts_names_that_clean_to_nothing Examples.lib
            (mkSeedling 0 "!?!" "echoes its input" EmptyString) _ _ _);
    [discriminate | reflexivity | reflexivity].
Defined.

(* ------------------------------------------------------------------ *)
(** ** The number of iterations                                         *)
(* ------------------------------------------------------------------ *)

(** A loop that was not cut by its bound gives the same result and the
    same trace under any larger bound. *)
Lemma gptLoop_more_fuel (L : GoLib) (w : World) (seedling : Seedling)
    fuel fuel' st tr :
  fst (gptLoop L w seedling fuel st tr) <> Stop OutOfFuel ->
  fuel <= fuel' ->
  gptLoop L w seedling fuel' st tr = gptLoop L w seedling fuel st tr.
Proof.
  revert fuel' st tr. induction fuel as [|fuel IH]; intros fuel' st tr Hne Hle.
  { exfalso. apply Hne. reflexivity. }
  destruct fuel' as [|fuel']; [lia|].
  cbn [gptLoop] in *. unfold bind in *.
  destruct (iteration L w seedling st tr) as [[[st1|x st1]|h] tr1];
    [|reflexivity|reflexivity].
  apply IH; [exact Hne | lia].
Qed.

(** X19.  The loop of [gptThread] makes at most [maxErrs + len(steps)]
    iterations, twenty, in any run: allowing it more iterations changes
    neither the result nor the trace, and no run is cut by this bound. *)
Theorem gptThread_iterations_bounded :
  forall (L : GoLib) (w : World) (seedling : Seedling) (fuel : nat),
    maxErrs + length steps <= fuel ->
    gptLoop L w seedling fuel initialState [] = gptThread L w seedling [] /\
    fst (gptThread L w seedling []) <> Stop OutOfFuel.
Proof.
  intros L w seedling fuel Hle.
  assert (Hne : fst (gptThread L w seedling []) <> Stop OutOfFuel).
  { pose proof (gptThread_fuel_enough L w seedling) as H.
    destruct (fst (gptThread L w seedling [])) as [a|h]; [discriminate|].
    intros E. injection E as ->. exact H. }
  split; [|exact Hne].
  unfold gptThread in *. apply gptLoop_more_fuel; [exact Hne | exact Hle].
Qed.

(** A hundred iterations allowed, where every build fails: the run is
    the one of [gptThread]. *)
Lemma gptThread_iterations_bounded_witness :
  maxErrs + length steps <= 100 /\
  gptLoop Examples.lib Examples.failingWorld Examples.fresh 100 initialState [] =
    gptThread Examples.lib Examples.failingWorld Examples.fresh [] /\
  fst (gptThread Examples.lib Examples.failingWorld Examples.fresh []) <>
    Stop OutOfFuel.
Proof.
  split; [vm_compute; lia|].
  apply (gptThread_iterations_bounded Examples.lib Examples.failingWorld
           Examples.fresh 100).
  vm_compute; lia.
Defined.
